(** * fpdf.drawing: style model, path model and renderer

    A shallow embedding of [fpdf/drawing.py].  Python objects are modelled by
    the universe [pyval]; exceptions by the error type [result]; the
    process-wide style registry and the objects mutated during rendering by
    explicit state passing.  The interpreter's builtins the module relies on
    (the numeric tower, [math], ["%.4f" % x], [str.upper], [int(s, 16)]) are
    the fields of the class [Python]; the repository's own code is defined on
    top of that class. *)

From Stdlib Require Import ZArith String Ascii List Bool Floats SpecFloat Lia.
From stdpp Require Import base option list gmap strings pretty.

Set Warnings "-register-all,-notation-incompatible-prefix".

Local Open Scope string_scope.
Local Open Scope Z_scope.

(** ** Exceptions *)

Inductive exn :=
| TypeError | ValueError | KeyError | AttributeError | IndexError
| ZeroDivisionError | OverflowError | AssertionError | RecursionError.

Inductive result (A : Type) :=
| Ok (a : A)
| Raise (e : exn).
Arguments Ok {A} a.
Arguments Raise {A} e.

Definition bind {A B} (m : result A) (k : A -> result B) : result B :=
  match m with
  | Ok a => k a
  | Raise e => Raise e
  end.

Notation "x <- m ;; k" := (bind m (fun x => k))
  (at level 100, m at next level, right associativity).

Fixpoint mapM {A B} (f : A -> result B) (l : list A) : result (list B) :=
  match l with
  | [] => Ok []
  | x :: t => y <- f x ;; ys <- mapM f t ;; Ok (y :: ys)
  end.

(** ** The interpreter: numbers and builtins

    [Number] stands for the values of Python's [int], [float] and
    [decimal.Decimal] as the module's alias [Number] has them.  Arithmetic
    may raise ([ZeroDivisionError], [OverflowError], a [TypeError] when a
    [Decimal] meets a [float], [ValueError] for a math domain error), so
    every operation returns a [result]. *)

Class Python (Number : Type) := {
  (* literals *)
  num_of_Z : Z -> Number;                 (* an int literal *)
  float_0_5 : Number;                     (* 0.5 *)
  float_255 : Number;                     (* 255.0 *)
  math_pi : Number;
  math_tau : Number;
  (* isinstance *)
  num_is_decimal : Number -> bool;        (* isinstance(n, decimal.Decimal) *)
  num_as_int : Number -> option Z;        (* isinstance(n, int), with its value *)
  (* comparisons with an int literal, and 0.0 <= n <= 1.0 *)
  num_eq_Z : Number -> Z -> bool;
  num_lt_Z : Number -> Z -> bool;
  num_gt_Z : Number -> Z -> bool;
  num_ge_Z : Number -> Z -> bool;
  num_in_unit : Number -> bool;
  (* operators *)
  num_add : Number -> Number -> result Number;
  num_sub : Number -> Number -> result Number;
  num_mul : Number -> Number -> result Number;
  num_div : Number -> Number -> result Number;
  num_pow : Number -> Number -> result Number;
  num_neg : Number -> Number;
  num_abs : Number -> Number;
  num_round8 : Number -> result Number;   (* round(n, 8) *)
  (* the math module *)
  math_sqrt : Number -> result Number;
  math_acos : Number -> result Number;
  math_cos : Number -> result Number;
  math_sin : Number -> result Number;
  math_tan : Number -> result Number;
  math_radians : Number -> result Number;
  math_ceil : Number -> result Z;
  (* strings *)
  format_4f : Number -> string;           (* "%.4f" % n *)
  str_upper : string -> string;
  str_lower : string -> string;
  int_base16 : string -> result Z;        (* int(s, base=16) *)
  (* an int literal is not a Decimal *)
  num_of_Z_not_decimal : forall z, num_is_decimal (num_of_Z z) = false
}.

(** ** Enumerations *)

Module IntersectionRule.
Inductive t := NONZERO | EVENODD.
Definition members : list t := [NONZERO; EVENODD].
Definition name (m : t) : string :=
  match m with NONZERO => "NONZERO" | EVENODD => "EVENODD" end.
Definition value (m : t) : string :=
  match m with NONZERO => "nonzero" | EVENODD => "evenodd" end.
End IntersectionRule.

Module PathPaintRule.
Inductive t :=
| STROKE | FILL_NONZERO | FILL_EVENODD | STROKE_FILL_NONZERO
| STROKE_FILL_EVENODD | DONT_PAINT | AUTO.
Definition members : list t :=
  [STROKE; FILL_NONZERO; FILL_EVENODD; STROKE_FILL_NONZERO;
   STROKE_FILL_EVENODD; DONT_PAINT; AUTO].
Definition name (m : t) : string :=
  match m with
  | STROKE => "STROKE" | FILL_NONZERO => "FILL_NONZERO"
  | FILL_EVENODD => "FILL_EVENODD"
  | STROKE_FILL_NONZERO => "STROKE_FILL_NONZERO"
  | STROKE_FILL_EVENODD => "STROKE_FILL_EVENODD"
  | DONT_PAINT => "DONT_PAINT" | AUTO => "AUTO"
  end.
Definition value (m : t) : string :=
  match m with
  | STROKE => "S" | FILL_NONZERO => "f" | FILL_EVENODD => "f*"
  | STROKE_FILL_NONZERO => "B" | STROKE_FILL_EVENODD => "B*"
  | DONT_PAINT => "n" | AUTO => "auto"
  end.
End PathPaintRule.

Module ClippingPathIntersectionRule.
Inductive t := NONZERO | EVENODD.
Definition members : list t := [NONZERO; EVENODD].
Definition name (m : t) : string :=
  match m with NONZERO => "NONZERO" | EVENODD => "EVENODD" end.
Definition value (m : t) : string :=
  match m with NONZERO => "W" | EVENODD => "W*" end.
(* ClippingPathIntersectionRule[name] *)
Definition by_name (n : string) : result t :=
  match List.find (fun m => String.eqb (name m) n) members with
  | Some m => Ok m
  | None => Raise KeyError
  end.
End ClippingPathIntersectionRule.

Module StrokeCapStyle.
Inductive t := BUTT | ROUND | SQUARE.
Definition members : list t := [BUTT; ROUND; SQUARE].
Definition name (m : t) : string :=
  match m with BUTT => "BUTT" | ROUND => "ROUND" | SQUARE => "SQUARE" end.
Definition value (m : t) : Z :=
  match m with BUTT => 0 | ROUND => 1 | SQUARE => 2 end.
End StrokeCapStyle.

Module StrokeJoinStyle.
Inductive t := MITER | ROUND | BEVEL.
Definition members : list t := [MITER; ROUND; BEVEL].
Definition name (m : t) : string :=
  match m with MITER => "MITER" | ROUND => "ROUND" | BEVEL => "BEVEL" end.
Definition value (m : t) : Z :=
  match m with MITER => 0 | ROUND => 1 | BEVEL => 2 end.
End StrokeJoinStyle.

Module BlendMode.
Inductive t :=
| NORMAL | MULTIPLY | SCREEN | OVERLAY | DARKEN | LIGHTEN | COLOR_DODGE
| COLOR_BURN | HARD_LIGHT | SOFT_LIGHT | DIFFERENCE | EXCLUSION | HUE
| SATURATION | COLOR | LUMINOSITY.
Definition members : list t :=
  [NORMAL; MULTIPLY; SCREEN; OVERLAY; DARKEN; LIGHTEN; COLOR_DODGE;
   COLOR_BURN; HARD_LIGHT; SOFT_LIGHT; DIFFERENCE; EXCLUSION; HUE;
   SATURATION; COLOR; LUMINOSITY].
Definition name (m : t) : string :=
  match m with
  | NORMAL => "NORMAL" | MULTIPLY => "MULTIPLY" | SCREEN => "SCREEN"
  | OVERLAY => "OVERLAY" | DARKEN => "DARKEN" | LIGHTEN => "LIGHTEN"
  | COLOR_DODGE => "COLOR_DODGE" | COLOR_BURN => "COLOR_BURN"
  | HARD_LIGHT => "HARD_LIGHT" | SOFT_LIGHT => "SOFT_LIGHT"
  | DIFFERENCE => "DIFFERENCE" | EXCLUSION => "EXCLUSION" | HUE => "HUE"
  | SATURATION => "SATURATION" | COLOR => "COLOR"
  | LUMINOSITY => "LUMINOSITY"
  end.
(* the members' values are Names *)
Definition value (m : t) : string :=
  match m with
  | NORMAL => "Normal" | MULTIPLY => "Multiply" | SCREEN => "Screen"
  | OVERLAY => "Overlay" | DARKEN => "Darken" | LIGHTEN => "Lighten"
  | COLOR_DODGE => "ColorDodge" | COLOR_BURN => "ColorBurn"
  | HARD_LIGHT => "HardLight" | SOFT_LIGHT => "SoftLight"
  | DIFFERENCE => "Difference" | EXCLUSION => "Exclusion" | HUE => "Hue"
  | SATURATION => "Saturation" | COLOR => "Color"
  | LUMINOSITY => "Luminosity"
  end.
End BlendMode.

Module PDFStyleKeys.
Inductive t :=
| FILL_ALPHA | BLEND_MODE | STROKE_ALPHA | STROKE_ADJUSTMENT | STROKE_WIDTH
| STROKE_CAP_STYLE | STROKE_JOIN_STYLE | STROKE_MITER_LIMIT
| STROKE_DASH_PATTERN.
(* iteration order of [for key in PDFStyleKeys] *)
Definition members : list t :=
  [FILL_ALPHA; BLEND_MODE; STROKE_ALPHA; STROKE_ADJUSTMENT; STROKE_WIDTH;
   STROKE_CAP_STYLE; STROKE_JOIN_STYLE; STROKE_MITER_LIMIT;
   STROKE_DASH_PATTERN].
Definition value (m : t) : string :=
  match m with
  | FILL_ALPHA => "ca" | BLEND_MODE => "BM" | STROKE_ALPHA => "CA"
  | STROKE_ADJUSTMENT => "SA" | STROKE_WIDTH => "LW"
  | STROKE_CAP_STYLE => "LC" | STROKE_JOIN_STYLE => "LJ"
  | STROKE_MITER_LIMIT => "ML" | STROKE_DASH_PATTERN => "D"
  end.
End PDFStyleKeys.

(** A member of one of the module's enumeration classes. *)
Inductive EnumMember :=
| M_IntersectionRule (m : IntersectionRule.t)
| M_PathPaintRule (m : PathPaintRule.t)
| M_ClippingPathIntersectionRule (m : ClippingPathIntersectionRule.t)
| M_StrokeCapStyle (m : StrokeCapStyle.t)
| M_StrokeJoinStyle (m : StrokeJoinStyle.t)
| M_BlendMode (m : BlendMode.t)
| M_PDFStyleKeys (m : PDFStyleKeys.t).

#[global] Instance EnumMember_eq_dec : EqDecision EnumMember.
Proof. unfold EqDecision, Decision. repeat decide equality. Defined.

(** What [coerce] needs to know of an enumeration class: its members in
    definition order, their names, and which values are its instances. *)
Class EnumClass (E : Type) := {
  enum_members : list E;
  enum_name : E -> string;
  enum_inject : E -> EnumMember;
  enum_project : EnumMember -> option E     (* isinstance(m, cls) *)
}.

(** [class CoerciveEnum(enum.Enum)]: the values are strings. *)
Class CoerciveEnum (E : Type) `{EnumClass E} := {
  enum_value : E -> string
}.

(** [class CoerciveIntEnum(enum.IntEnum)] *)
Class CoerciveIntEnum (E : Type) `{EnumClass E} := {
  enum_int_value : E -> Z
}.

#[global] Instance IntersectionRule_class : EnumClass IntersectionRule.t := {
  enum_members := IntersectionRule.members;
  enum_name := IntersectionRule.name;
  enum_inject := M_IntersectionRule;
  enum_project m := match m with M_IntersectionRule x => Some x | _ => None end
}.
#[global] Instance IntersectionRule_coercive : CoerciveEnum IntersectionRule.t := {
  enum_value := IntersectionRule.value
}.

#[global] Instance PathPaintRule_class : EnumClass PathPaintRule.t := {
  enum_members := PathPaintRule.members;
  enum_name := PathPaintRule.name;
  enum_inject := M_PathPaintRule;
  enum_project m := match m with M_PathPaintRule x => Some x | _ => None end
}.
#[global] Instance PathPaintRule_coercive : CoerciveEnum PathPaintRule.t := {
  enum_value := PathPaintRule.value
}.

#[global] Instance BlendMode_class : EnumClass BlendMode.t := {
  enum_members := BlendMode.members;
  enum_name := BlendMode.name;
  enum_inject := M_BlendMode;
  enum_project m := match m with M_BlendMode x => Some x | _ => None end
}.
#[global] Instance BlendMode_coercive : CoerciveEnum BlendMode.t := {
  enum_value := BlendMode.value
}.

#[global] Instance StrokeCapStyle_class : EnumClass StrokeCapStyle.t := {
  enum_members := StrokeCapStyle.members;
  enum_name := StrokeCapStyle.name;
  enum_inject := M_StrokeCapStyle;
  enum_project m := match m with M_StrokeCapStyle x => Some x | _ => None end
}.
#[global] Instance StrokeCapStyle_coercive : CoerciveIntEnum StrokeCapStyle.t := {
  enum_int_value := StrokeCapStyle.value
}.

#[global] Instance StrokeJoinStyle_class : EnumClass StrokeJoinStyle.t := {
  enum_members := StrokeJoinStyle.members;
  enum_name := StrokeJoinStyle.name;
  enum_inject := M_StrokeJoinStyle;
  enum_project m := match m with M_StrokeJoinStyle x => Some x | _ => None end
}.
#[global] Instance StrokeJoinStyle_coercive : CoerciveIntEnum StrokeJoinStyle.t := {
  enum_int_value := StrokeJoinStyle.value
}.

(** The two [IntEnum] classes: their members are ints. *)
Definition member_as_int (m : EnumMember) : option Z :=
  match m with
  | M_StrokeCapStyle c => Some (StrokeCapStyle.value c)
  | M_StrokeJoinStyle j => Some (StrokeJoinStyle.value j)
  | _ => None
  end.

(** ** Python values *)

Section WithPython.
Context {Number : Type} {py : Python Number}.

(** The three colour classes are NamedTuples; [a] is the optional alpha. *)
Inductive Color :=
| DeviceRGB (r g b : Number) (a : option Number)
| DeviceGray (g : Number) (a : option Number)
| DeviceCMYK (c m y k : Number) (a : option Number).

Inductive pyval :=
| PyNone
| PyEllipsis                              (* GraphicsStyle.INHERIT *)
| PyBool (b : bool)
| PyNum (n : Number)
| PyStr (s : string)                      (* a plain str *)
| PyRaw (s : string)                      (* class Raw(str) *)
| PyName (s : string)                     (* class Name(str) *)
| PyBytes (b : string)
| PyList (l : list pyval)
| PyTuple (l : list pyval)
| PyDict (items : list (pyval * pyval))   (* in insertion order *)
| PyEnum (m : EnumMember)
| PyColor (c : Color)
| PyCustom (pdf_repr : result string)     (* an object with a pdf_repr method *)
| PyObject.                               (* any other object *)

Definition INHERIT : pyval := PyEllipsis.

(** [v is GraphicsStyle.INHERIT], [v is None] *)
Definition is_INHERIT (v : pyval) : bool :=
  match v with PyEllipsis => true | _ => false end.
Definition is_None (v : pyval) : bool :=
  match v with PyNone => true | _ => false end.

(** [isinstance(v, str)], with the characters *)
Definition py_as_str (v : pyval) : option string :=
  match v with
  | PyStr s | PyRaw s | PyName s => Some s
  | _ => None
  end.

(** [isinstance(v, int)]: ints, bools and the members of the IntEnums *)
Definition py_as_int (v : pyval) : option Z :=
  match v with
  | PyBool b => Some (Z.b2z b)
  | PyNum n => num_as_int n
  | PyEnum m => member_as_int m
  | _ => None
  end.

(** [isinstance(v, (int, float, decimal.Decimal))], as a [Number] *)
Definition py_as_number (v : pyval) : option Number :=
  match v with
  | PyBool b => Some (num_of_Z (Z.b2z b))
  | PyNum n => Some n
  | PyEnum m => option_map num_of_Z (member_as_int m)
  | _ => None
  end.

(** [isinstance(v, (float, int))] *)
Definition is_float_or_int (v : pyval) : bool :=
  match v with
  | PyBool _ => true
  | PyNum n => negb (num_is_decimal n)
  | PyEnum m => match member_as_int m with Some _ => true | None => false end
  | _ => false
  end.

Definition color_alpha (c : Color) : option Number :=
  match c with
  | DeviceRGB _ _ _ a | DeviceGray _ a | DeviceCMYK _ _ _ _ a => a
  end.

(** [color.colors]: the components with alpha omitted *)
Definition colors (c : Color) : list Number :=
  match c with
  | DeviceRGB r g b _ => [r; g; b]
  | DeviceGray g _ => [g]
  | DeviceCMYK c m y k _ => [c; m; y; k]
  end.

Definition color_fields (c : Color) : list pyval :=
  let alpha a := match a with Some x => PyNum x | None => PyNone end in
  match c with
  | DeviceRGB r g b a => [PyNum r; PyNum g; PyNum b; alpha a]
  | DeviceGray g a => [PyNum g; alpha a]
  | DeviceCMYK c m y k a => [PyNum c; PyNum m; PyNum y; PyNum k; alpha a]
  end.

(** [isinstance(v, (list, tuple))], with the elements; a colour is a tuple *)
Definition py_as_seq (v : pyval) : option (list pyval) :=
  match v with
  | PyList l | PyTuple l => Some l
  | PyColor c => Some (color_fields c)
  | _ => None
  end.

(** [isinstance(v, tuple)] *)
Definition py_as_tuple (v : pyval) : option (list pyval) :=
  match v with
  | PyTuple l => Some l
  | PyColor c => Some (color_fields c)
  | _ => None
  end.

(** [hash(v)] succeeds *)
Fixpoint hashable (v : pyval) : bool :=
  match v with
  | PyList _ | PyDict _ => false
  | PyTuple l => forallb hashable l
  | _ => true
  end.

(** [v in {None, GraphicsStyle.INHERIT}] *)
Definition in_None_INHERIT (v : pyval) : result bool :=
  if hashable v then Ok (is_None v || is_INHERIT v) else Raise TypeError.

(** [v in {True, False, GraphicsStyle.INHERIT}]: 0, 1 and whatever equals
    them are members. *)
Definition in_True_False_INHERIT (v : pyval) : result bool :=
  if hashable v then
    Ok match v with
       | PyEllipsis | PyBool _ => true
       | PyNum n => num_eq_Z n 0 || num_eq_Z n 1
       | PyEnum m =>
           match member_as_int m with
           | Some z => (z =? 0) || (z =? 1)
           | None => false
           end
       | _ => false
       end
  else Raise TypeError.

(** Truth value of [v], as [if v:] tests it. *)
Definition truthy (v : pyval) : bool :=
  match v with
  | PyNone => false
  | PyBool b => b
  | PyNum n => negb (num_eq_Z n 0)
  | PyStr s | PyRaw s | PyName s | PyBytes s =>
      negb (String.eqb s EmptyString)
  | PyList l | PyTuple l => match l with [] => false | _ => true end
  | PyDict l => match l with [] => false | _ => true end
  | PyEnum m =>
      match member_as_int m with Some z => negb (z =? 0) | None => true end
  | _ => true
  end.

(** ** Range check, numbers and primitives *)

(** [_check_range(value)] with the default bounds 0.0 and 1.0 *)
Definition _check_range (value : pyval) : result pyval :=
  match value with
  | PyBool _ => Ok value
  | PyNum n => if num_in_unit n then Ok value else Raise ValueError
  | PyEnum m =>
      match member_as_int m with
      | Some z => if (0 <=? z) && (z <=? 1) then Ok value else Raise ValueError
      | None => Raise TypeError
      end
  | _ => Raise TypeError
  end.

Definition check_range_num (n : Number) : result Number :=
  if num_in_unit n then Ok n else Raise ValueError.

(** [s.rstrip(c)] for a one-character [c] *)
Fixpoint rstrip (c : ascii) (s : string) : string :=
  match s with
  | EmptyString => EmptyString
  | String a t =>
      match rstrip c t with
      | EmptyString =>
          if Ascii.eqb a c then EmptyString else String a EmptyString
      | t' => String a t'
      end
  end.

Definition number_to_str (number : Number) : string :=
  rstrip "." (rstrip "0" (format_4f number)).

Definition hex_digit (n : N) : ascii :=
  match n with
  | 0%N => "0" | 1%N => "1" | 2%N => "2" | 3%N => "3" | 4%N => "4"
  | 5%N => "5" | 6%N => "6" | 7%N => "7" | 8%N => "8" | 9%N => "9"
  | 10%N => "a" | 11%N => "b" | 12%N => "c" | 13%N => "d" | 14%N => "e"
  | _ => "f"
  end%char.

(** [b.hex()] *)
Fixpoint bytes_hex (b : string) : string :=
  match b with
  | EmptyString => EmptyString
  | String a t =>
      let n := N_of_ascii a in
      String (hex_digit (n / 16)) (String (hex_digit (n mod 16)) (bytes_hex t))
  end.

(** [sep.join(l)] *)
Definition join (sep : string) (l : list string) : string :=
  String.concat sep l.

Fixpoint render_pdf_primitive (primitive : pyval) : result string :=
  let render_all :=
    fix go (l : list pyval) : result (list string) :=
      match l with
      | [] => Ok []
      | v :: t =>
          s <- render_pdf_primitive v ;; ss <- go t ;; Ok (s :: ss)
      end in
  let render_number (n : Number) := Ok (number_to_str n) in
  let render_seq (l : list pyval) :=
    ss <- render_all l ;; Ok ("[" ++ join " " ss ++ "]") in
  match primitive with
  | PyRaw s => Ok s
  | PyCustom pdf_repr => pdf_repr
  | PyName s => Ok ("/" ++ s)
  | PyStr _ => Ok "(<class 'str'>)"        (* f"({str})" *)
  | PyBytes b => Ok ("<" ++ bytes_hex b ++ ">")
  | PyBool b => render_number (num_of_Z (Z.b2z b))
  | PyNum n => render_number n
  | PyEnum m =>
      match member_as_int m with
      | Some z => render_number (num_of_Z z)
      | None => Raise TypeError
      end
  | PyList l | PyTuple l => render_seq l
  | PyColor c =>                            (* a tuple of numbers and None *)
      let alpha :=
        match color_alpha c with
        | Some x => number_to_str x
        | None => "null"
        end in
      Ok ("[" ++ join " " (map number_to_str (colors c) ++ [alpha]) ++ "]")
  | PyNone => Ok "null"
  | PyDict items =>
      let item_list :=
        (fix go (l : list (pyval * pyval)) : result (list string) :=
           match l with
           | [] => Ok []
           | (key, val) :: t =>
               match key with
               | PyName _ =>
                   k <- render_pdf_primitive key ;;
                   v <- render_pdf_primitive val ;;
                   rest <- go t ;;
                   Ok ((k ++ " " ++ v) :: rest)
               | _ => Raise ValueError
               end
           end) items in
      ss <- item_list ;;
      Ok ("<< " ++ join (String "010" EmptyString) ss ++ " >>")
  | PyEllipsis | PyObject => Raise TypeError
  end.

(** ** Coercion of values into enumeration members *)

(** [isinstance(value, cls)] *)
Definition as_instance {E} `{EnumClass E} (value : pyval) : option E :=
  match value with
  | PyEnum m => enum_project m
  | _ => None
  end.

(** [cls[name]] *)
Definition member_by_name {E} `{EnumClass E} (n : string) : option E :=
  List.find (fun m => String.eqb (enum_name m) n) enum_members.

(** [cls(value)] for a string value *)
Definition member_by_value {E} `{CoerciveEnum E} (v : string) : option E :=
  List.find (fun m => String.eqb (enum_value m) v) enum_members.

(** [cls(value)] for an int value *)
Definition member_by_int {E} `{CoerciveIntEnum E} (v : Z) : option E :=
  List.find (fun m => enum_int_value m =? v) enum_members.

(** [CoerciveEnum.coerce] *)
Definition CoerciveEnum_coerce {E} `{CoerciveEnum E} (value : pyval)
  : result E :=
  match as_instance value with
  | Some m => Ok m
  | None =>
      match py_as_str value with
      | Some s =>
          match member_by_value s with
          | Some m => Ok m
          | None =>
              match member_by_name (str_upper s) with
              | Some m => Ok m
              | None => Raise ValueError
              end
          end
      | None => Raise TypeError
      end
  end.

(** [CoerciveIntEnum.coerce] *)
Definition CoerciveIntEnum_coerce {E} `{CoerciveIntEnum E} (value : pyval)
  : result E :=
  match as_instance value with
  | Some m => Ok m
  | None =>
      match py_as_str value with
      | Some s =>
          match member_by_name (str_upper s) with
          | Some m => Ok m
          | None => Raise ValueError
          end
      | None =>
          match py_as_int value with
          | Some z =>
              match member_by_int z with
              | Some m => Ok m
              | None => Raise ValueError
              end
          | None => Raise TypeError
          end
      end
  end.

(** ** Colours *)

(** [DeviceRGB.__new__] and its siblings: alpha is checked first. *)
Definition check_alpha (a : option Number) : result (option Number) :=
  match a with
  | Some x => _ <- check_range_num x ;; Ok a
  | None => Ok None
  end.

Definition DeviceRGB_new (r g b : Number) (a : option Number) : result Color :=
  _ <- check_alpha a ;;
  r <- check_range_num r ;; g <- check_range_num g ;; b <- check_range_num b ;;
  Ok (DeviceRGB r g b a).

Definition DeviceGray_new (g : Number) (a : option Number) : result Color :=
  _ <- check_alpha a ;;
  g <- check_range_num g ;;
  Ok (DeviceGray g a).

Definition DeviceCMYK_new (c m y k : Number) (a : option Number)
  : result Color :=
  _ <- check_alpha a ;;
  c <- check_range_num c ;; m <- check_range_num m ;;
  y <- check_range_num y ;; k <- check_range_num k ;;
  Ok (DeviceCMYK c m y k a).

Definition OPERATOR (c : Color) : string :=
  match c with
  | DeviceRGB _ _ _ _ => "rg"
  | DeviceGray _ _ => "g"
  | DeviceCMYK _ _ _ _ _ => "k"
  end.

Definition rgb8 (r g b : Number) (a : option Number) : result Color :=
  a <- match a with
       | Some x => y <- num_div x float_255 ;; Ok (Some y)
       | None => Ok None
       end ;;
  r <- num_div r float_255 ;;
  g <- num_div g float_255 ;;
  b <- num_div b float_255 ;;
  DeviceRGB_new r g b a.

(** The characters of [s] as one-character strings. *)
Fixpoint chars (s : string) : list string :=
  match s with
  | EmptyString => []
  | String a t => String a EmptyString :: chars t
  end.

(** [[hexstr[idx:idx+2] for idx in range(1, hlen, 2)]] on [hexstr[1:]] *)
Fixpoint pairs (s : string) : list string :=
  match s with
  | String a (String b t) => String a (String b EmptyString) :: pairs t
  | String a EmptyString => [String a EmptyString]
  | EmptyString => []
  end.

Definition rgb8_of_ints (l : list Z) (with_alpha : bool) : result Color :=
  match l, with_alpha with
  | [r; g; b], false =>
      rgb8 (num_of_Z r) (num_of_Z g) (num_of_Z b) None
  | [r; g; b; a], true =>
      rgb8 (num_of_Z r) (num_of_Z g) (num_of_Z b) (Some (num_of_Z a))
  | _, _ => Raise TypeError
  end.

(** [color_from_hex_string], on a str *)
Definition color_from_hex_string (hexstr : string) : result Color :=
  match hexstr with
  | String "#" rest =>
      let hlen := String.length hexstr in
      if Nat.eqb hlen 4 then
        l <- mapM (fun ch => int_base16 (ch ++ ch)) (chars rest) ;;
        rgb8_of_ints l false
      else if Nat.eqb hlen 5 then
        l <- mapM (fun ch => int_base16 (ch ++ ch)) (chars rest) ;;
        rgb8_of_ints l true
      else if Nat.eqb hlen 7 then
        l <- mapM int_base16 (pairs rest) ;;
        rgb8_of_ints l false
      else if Nat.eqb hlen 9 then
        l <- mapM int_base16 (pairs rest) ;;
        rgb8_of_ints l true
      else Raise ValueError
  | _ => Raise ValueError
  end.

(** ** GraphicsStyle

    A [GraphicsStyle] object is its instance dictionary: the attributes that
    were assigned, by name.  An attribute that is missing reads as INHERIT
    ([getattr(self, name, GraphicsStyle.INHERIT)]). *)

Abbreviation GraphicsStyle := (gmap string pyval).

Definition getattr (self : GraphicsStyle) (name : string) : pyval :=
  default INHERIT (self !! name).

Definition setattr (self : GraphicsStyle) (name : string) (v : pyval)
  : GraphicsStyle :=
  <[name := v]> self.

(** A setter leaves the object in some state and returns or raises. *)
Definition Setter := GraphicsStyle -> pyval -> GraphicsStyle * result unit.

(** [x[i]] on a tuple *)
Definition tuple_item (l : list pyval) (i : nat) : result pyval :=
  match nth_error l i with
  | Some v => Ok v
  | None => Raise IndexError
  end.

(** *** Getters *)

Definition paint_rule (self : GraphicsStyle) : pyval :=
  getattr self "_paint_rule".
Definition auto_close (self : GraphicsStyle) : pyval :=
  getattr self "_auto_close".
Definition intersection_rule (self : GraphicsStyle) : pyval :=
  getattr self "_intersection_rule".
Definition fill_color (self : GraphicsStyle) : pyval :=
  getattr self "_fill_color".
Definition fill_opacity (self : GraphicsStyle) : pyval :=
  getattr self (PDFStyleKeys.value PDFStyleKeys.FILL_ALPHA).
Definition stroke_color (self : GraphicsStyle) : pyval :=
  getattr self "_stroke_color".
Definition stroke_opacity (self : GraphicsStyle) : pyval :=
  getattr self (PDFStyleKeys.value PDFStyleKeys.STROKE_ALPHA).
Definition blend_mode (self : GraphicsStyle) : pyval :=
  getattr self (PDFStyleKeys.value PDFStyleKeys.BLEND_MODE).
Definition stroke_width (self : GraphicsStyle) : pyval :=
  getattr self (PDFStyleKeys.value PDFStyleKeys.STROKE_WIDTH).
Definition stroke_cap_style (self : GraphicsStyle) : pyval :=
  getattr self (PDFStyleKeys.value PDFStyleKeys.STROKE_CAP_STYLE).
Definition stroke_join_style (self : GraphicsStyle) : pyval :=
  getattr self (PDFStyleKeys.value PDFStyleKeys.STROKE_JOIN_STYLE).
Definition stroke_miter_limit (self : GraphicsStyle) : pyval :=
  getattr self (PDFStyleKeys.value PDFStyleKeys.STROKE_MITER_LIMIT).

Definition stroke_dash_pattern (self : GraphicsStyle) : result pyval :=
  let result := getattr self (PDFStyleKeys.value PDFStyleKeys.STROKE_DASH_PATTERN) in
  match py_as_tuple result with
  | Some l => tuple_item l 0
  | None => Ok result
  end.

Definition stroke_dash_phase (self : GraphicsStyle) : result pyval :=
  let result := getattr self (PDFStyleKeys.value PDFStyleKeys.STROKE_DASH_PATTERN) in
  match py_as_tuple result with
  | Some l => tuple_item l 1
  | None => Ok result
  end.

(** *** Setters *)

Definition set_paint_rule : Setter := fun self new =>
  (* if new is None: *)
  let self :=
    if is_None new
    then setattr self "_paint_rule" (PyEnum (M_PathPaintRule PathPaintRule.DONT_PAINT))
    else self in
  (* if new is GraphicsStyle.INHERIT: ... else: ... *)
  if is_INHERIT new then (setattr self "_paint_rule" new, Ok tt)
  else
    match CoerciveEnum_coerce (E := PathPaintRule.t) new with
    | Ok m => (setattr self "_paint_rule" (PyEnum (M_PathPaintRule m)), Ok tt)
    | Raise e => (self, Raise e)
    end.

Definition set_auto_close : Setter := fun self new =>
  match in_True_False_INHERIT new with
  | Ok true => (setattr self "_auto_close" new, Ok tt)
  | Ok false => (self, Raise ValueError)
  | Raise e => (self, Raise e)
  end.

Definition set_intersection_rule : Setter := fun self new =>
  if is_INHERIT new then (setattr self "_intersection_rule" new, Ok tt)
  else
    match CoerciveEnum_coerce (E := IntersectionRule.t) new with
    | Ok m =>
        (setattr self "_intersection_rule" (PyEnum (M_IntersectionRule m)), Ok tt)
    | Raise e => (self, Raise e)
    end.

(** The two opacity setters differ in the key only. *)
Definition set_opacity (key : PDFStyleKeys.t) : Setter := fun self new =>
  match in_None_INHERIT new with
  | Raise e => (self, Raise e)
  | Ok skip =>
      match (if skip then Ok new else _check_range new) with
      | Raise e => (self, Raise e)
      | Ok _ => (setattr self (PDFStyleKeys.value key) new, Ok tt)
      end
  end.

Definition set_fill_opacity : Setter := set_opacity PDFStyleKeys.FILL_ALPHA.
Definition set_stroke_opacity : Setter := set_opacity PDFStyleKeys.STROKE_ALPHA.

(** The two colour setters differ in the attribute and in the opacity
    setter they call. *)
Definition set_color (attr : string) (set_alpha : Setter) : Setter :=
  fun self color =>
  (* if isinstance(color, str): color = color_from_hex_string(color) *)
  let color' :=
    match py_as_str color with
    | Some s => c <- color_from_hex_string s ;; Ok (PyColor c)
    | None => Ok color
    end in
  match color' with
  | Raise e => (self, Raise e)
  | Ok color =>
      match color with
      | PyColor c =>
          let self := setattr self attr color in
          match color_alpha c with
          | Some a => set_alpha self (PyNum a)
          | None => (self, Ok tt)
          end
      | PyNone | PyEllipsis => (setattr self attr color, Ok tt)
      | _ => (self, Raise TypeError)
      end
  end.

Definition set_fill_color : Setter := set_color "_fill_color" set_fill_opacity.
Definition set_stroke_color : Setter :=
  set_color "_stroke_color" set_stroke_opacity.

Definition set_blend_mode : Setter := fun self value =>
  let key := PDFStyleKeys.value PDFStyleKeys.BLEND_MODE in
  if is_INHERIT value then (setattr self key value, Ok tt)
  else
    match CoerciveEnum_coerce (E := BlendMode.t) value with
    | Ok m => (setattr self key (PyName (BlendMode.value m)), Ok tt)
    | Raise e => (self, Raise e)
    end.

Definition set_stroke_width : Setter := fun self width =>
  let ok :=
    match py_as_number width with
    | Some _ => true
    | None => is_None width || is_INHERIT width
    end in
  if ok
  then (setattr self (PDFStyleKeys.value PDFStyleKeys.STROKE_WIDTH) width, Ok tt)
  else (self, Raise TypeError).

Definition set_stroke_cap_style : Setter := fun self value =>
  let key := PDFStyleKeys.value PDFStyleKeys.STROKE_CAP_STYLE in
  if is_INHERIT value then (setattr self key value, Ok tt)
  else
    match CoerciveIntEnum_coerce (E := StrokeCapStyle.t) value with
    | Ok m => (setattr self key (PyEnum (M_StrokeCapStyle m)), Ok tt)
    | Raise e => (self, Raise e)
    end.

Definition set_stroke_join_style : Setter := fun self value =>
  let key := PDFStyleKeys.value PDFStyleKeys.STROKE_JOIN_STYLE in
  if is_INHERIT value then (setattr self key value, Ok tt)
  else
    match CoerciveIntEnum_coerce (E := StrokeJoinStyle.t) value with
    | Ok m => (setattr self key (PyEnum (M_StrokeJoinStyle m)), Ok tt)
    | Raise e => (self, Raise e)
    end.

Definition set_stroke_miter_limit : Setter := fun self value =>
  let ok :=
    is_INHERIT value ||
    match py_as_number value with Some _ => true | None => false end in
  if ok
  then (setattr self (PDFStyleKeys.value PDFStyleKeys.STROKE_MITER_LIMIT) value, Ok tt)
  else (self, Raise TypeError).

Definition set_stroke_dash_pattern : Setter := fun self value =>
  let key := PDFStyleKeys.value PDFStyleKeys.STROKE_DASH_PATTERN in
  (* if isinstance(value, (float, int)): value = (value,) *)
  let value := if is_float_or_int value then PyTuple [value] else value in
  match py_as_seq value with
  | Some elems =>
      let result := getattr self key in
      match py_as_tuple result with
      | Some l =>
          match tuple_item l 1 with
          | Ok phase => (setattr self key (PyTuple [PyTuple elems; phase]), Ok tt)
          | Raise e => (self, Raise e)
          end
      | None =>
          (setattr self key (PyTuple [PyTuple elems; PyNum (num_of_Z 0)]), Ok tt)
      end
  | None =>
      if is_None value
      then (setattr self key (PyTuple [PyTuple []; PyNum (num_of_Z 0)]), Ok tt)
      else if is_INHERIT value then (setattr self key value, Ok tt)
      else (self, Raise TypeError)
  end.

Definition set_stroke_dash_phase : Setter := fun self value =>
  let key := PDFStyleKeys.value PDFStyleKeys.STROKE_DASH_PATTERN in
  if is_float_or_int value then
    let result := getattr self key in
    match py_as_tuple result with
    | Some l =>
        match tuple_item l 0 with
        | Ok pattern => (setattr self key (PyTuple [pattern; value]), Ok tt)
        | Raise e => (self, Raise e)
        end
    | None => (self, Raise ValueError)
    end
  else if is_INHERIT value then (self, Ok tt)
  else (self, Raise TypeError).

(** *** Properties by name *)

Inductive Property :=
| P_paint_rule | P_auto_close | P_intersection_rule | P_fill_color
| P_fill_opacity | P_stroke_color | P_stroke_opacity | P_blend_mode
| P_stroke_width | P_stroke_cap_style | P_stroke_join_style
| P_stroke_miter_limit | P_stroke_dash_pattern | P_stroke_dash_phase.

(** An ordered list of properties to use when merging two GraphicsStyles. *)
Definition MERGE_PROPERTIES : list Property :=
  [P_paint_rule; P_auto_close; P_intersection_rule; P_fill_color;
   P_fill_opacity; P_stroke_color; P_stroke_opacity; P_blend_mode;
   P_stroke_width; P_stroke_cap_style; P_stroke_join_style;
   P_stroke_miter_limit; P_stroke_dash_pattern; P_stroke_dash_phase].

(** [getattr(style, prop)] *)
Definition get_property (self : GraphicsStyle) (prop : Property)
  : result pyval :=
  match prop with
  | P_paint_rule => Ok (paint_rule self)
  | P_auto_close => Ok (auto_close self)
  | P_intersection_rule => Ok (intersection_rule self)
  | P_fill_color => Ok (fill_color self)
  | P_fill_opacity => Ok (fill_opacity self)
  | P_stroke_color => Ok (stroke_color self)
  | P_stroke_opacity => Ok (stroke_opacity self)
  | P_blend_mode => Ok (blend_mode self)
  | P_stroke_width => Ok (stroke_width self)
  | P_stroke_cap_style => Ok (stroke_cap_style self)
  | P_stroke_join_style => Ok (stroke_join_style self)
  | P_stroke_miter_limit => Ok (stroke_miter_limit self)
  | P_stroke_dash_pattern => stroke_dash_pattern self
  | P_stroke_dash_phase => stroke_dash_phase self
  end.

(** [setattr(style, prop, value)] *)
Definition set_property (prop : Property) : Setter :=
  match prop with
  | P_paint_rule => set_paint_rule
  | P_auto_close => set_auto_close
  | P_intersection_rule => set_intersection_rule
  | P_fill_color => set_fill_color
  | P_fill_opacity => set_fill_opacity
  | P_stroke_color => set_stroke_color
  | P_stroke_opacity => set_stroke_opacity
  | P_blend_mode => set_blend_mode
  | P_stroke_width => set_stroke_width
  | P_stroke_cap_style => set_stroke_cap_style
  | P_stroke_join_style => set_stroke_join_style
  | P_stroke_miter_limit => set_stroke_miter_limit
  | P_stroke_dash_pattern => set_stroke_dash_pattern
  | P_stroke_dash_phase => set_stroke_dash_phase
  end.

(** *** merge *)

(** The body of the loop of [merge], for one property. *)
Definition merge_property (parent child : GraphicsStyle) (new : GraphicsStyle)
  (prop : Property) : result GraphicsStyle :=
  cval <- get_property child prop ;;
  v <- (if is_INHERIT cval then get_property parent prop else Ok cval) ;;
  match set_property prop new v with
  | (new, Ok _) => Ok new
  | (_, Raise e) => Raise e
  end.

Fixpoint merge_loop (parent child : GraphicsStyle) (props : list Property)
  (new : GraphicsStyle) : result GraphicsStyle :=
  match props with
  | [] => Ok new
  | prop :: rest =>
      new <- merge_property parent child new prop ;;
      merge_loop parent child rest new
  end.

(** [GraphicsStyle.merge(parent, child)]; [cls()] has no attribute set. *)
Definition merge (parent child : GraphicsStyle) : result GraphicsStyle :=
  merge_loop parent child MERGE_PROPERTIES ∅.

(** *** to_pdf_dict *)

Definition to_pdf_dict (self : GraphicsStyle) : result string :=
  let entries :=
    omap (fun key =>
            let value := getattr self (PDFStyleKeys.value key) in
            if negb (is_INHERIT value) && negb (is_None value)
            then Some (PyName (PDFStyleKeys.value key), value)
            else None)
         PDFStyleKeys.members in
  render_pdf_primitive (PyDict ((PyName "Type", PyName "ExtGState") :: entries)).

(** *** resolve_paint_rule *)

(** The members of a want-set are the strings "stroke" and "fill" and the
    style's intersection rule.  A key of [_PAINT_RULE_LOOKUP] holds strings
    and members of [IntersectionRule] only. *)
Inductive want_key := W_str (s : string) | W_rule (r : IntersectionRule.t).

(** [k == x] for an element [k] of a key and any value [x] *)
Definition want_eqb (k : want_key) (x : pyval) : bool :=
  match k, x with
  | W_str s, (PyStr s' | PyRaw s' | PyName s') => String.eqb s s'
  | W_rule r, PyEnum m => bool_decide (m = M_IntersectionRule r)
  | _, _ => false
  end.

(** [frozenset(want) == key] *)
Definition frozenset_eqb (key : list want_key) (want : list pyval) : bool :=
  forallb (fun k => existsb (want_eqb k) want) key &&
  forallb (fun x => existsb (fun k => want_eqb k x) key) want.

(** A dictionary for resolving [PathPaintRule.AUTO] *)
Definition _PAINT_RULE_LOOKUP : list (list want_key * PathPaintRule.t) :=
  [ ([], PathPaintRule.DONT_PAINT);
    ([W_str "stroke"], PathPaintRule.STROKE);
    ([W_str "fill"; W_rule IntersectionRule.NONZERO], PathPaintRule.FILL_NONZERO);
    ([W_str "fill"; W_rule IntersectionRule.EVENODD], PathPaintRule.FILL_EVENODD);
    ([W_str "stroke"; W_str "fill"; W_rule IntersectionRule.NONZERO],
     PathPaintRule.STROKE_FILL_NONZERO);
    ([W_str "stroke"; W_str "fill"; W_rule IntersectionRule.EVENODD],
     PathPaintRule.STROKE_FILL_EVENODD) ].

(** [_PAINT_RULE_LOOKUP[frozenset(want)]]; [None] stands for the KeyError *)
Definition paint_rule_lookup (want : list pyval) : option PathPaintRule.t :=
  option_map snd
    (List.find (fun kv => frozenset_eqb (fst kv) want) _PAINT_RULE_LOOKUP).

(** The want-set that [resolve_paint_rule] builds. *)
Definition want_set (self : GraphicsStyle) : result (list pyval) :=
  let want : list pyval := [] in
  let want :=
    if negb (is_None (stroke_width self)) && negb (is_None (stroke_color self))
    then (want ++ [PyStr "stroke"])%list else want in
  if negb (is_None (fill_color self)) then
    let want := (want ++ [PyStr "fill"])%list in
    if is_None (intersection_rule self) then Raise AssertionError
    else if hashable (intersection_rule self)
    then Ok (want ++ [intersection_rule self])%list
    else Raise TypeError
  else Ok want.

Definition AUTO : pyval := PyEnum (M_PathPaintRule PathPaintRule.AUTO).

Definition is_AUTO (v : pyval) : bool :=
  match v with
  | PyEnum (M_PathPaintRule PathPaintRule.AUTO) => true
  | _ => false
  end.

Definition resolve_paint_rule (self : GraphicsStyle) : result pyval :=
  if is_AUTO (paint_rule self) then
    want <- want_set self ;;
    match paint_rule_lookup want with
    | Some rule => Ok (PyEnum (M_PathPaintRule rule))
    | None => Ok (PyEnum (M_PathPaintRule PathPaintRule.STROKE_FILL_NONZERO))
    end
  else Ok (paint_rule self).

(** ** Geometry *)

Record Point := mkPoint { Point_x : Number; Point_y : Number }.

Record Transform := mkTransform {
  Transform_a : Number; Transform_b : Number; Transform_c : Number;
  Transform_d : Number; Transform_e : Number; Transform_f : Number
}.

Definition int (z : Z) : Number := num_of_Z z.

(** [a * b + c * d] and [a * b + c * d + e], evaluated left to right *)
Definition mul_add2 (a b c d : Number) : result Number :=
  ab <- num_mul a b ;; cd <- num_mul c d ;; num_add ab cd.
Definition mul_add3 (a b c d e : Number) : result Number :=
  s <- mul_add2 a b c d ;; num_add s e.

Definition Point_render (self : Point) : string :=
  number_to_str (Point_x self) ++ " " ++ number_to_str (Point_y self).

Definition Point_dot (self other : Point) : result Number :=
  mul_add2 (Point_x self) (Point_x other) (Point_y self) (Point_y other).

Definition Point_mag (self : Point) : result Number :=
  x2 <- num_pow (Point_x self) (int 2) ;;
  y2 <- num_pow (Point_y self) (int 2) ;;
  s <- num_add x2 y2 ;;
  num_pow s float_0_5.

(** [(v >= 0) - (v < 0)] *)
Definition sign_of (v : Number) : Z :=
  Z.b2z (num_ge_Z v 0) - Z.b2z (num_lt_Z v 0).

Definition Point_angle (self other : Point) : result Number :=
  xy <- num_mul (Point_x self) (Point_y other) ;;
  yx <- num_mul (Point_y self) (Point_x other) ;;
  signifier <- num_sub xy yx ;;
  let sign := sign_of signifier in
  d <- Point_dot self other ;;
  m1 <- Point_mag self ;;
  m2 <- Point_mag other ;;
  m <- num_mul m1 m2 ;;
  q <- num_div d m ;;
  r <- num_round8 q ;;
  ac <- math_acos r ;;
  num_mul (int sign) ac.

Definition Point_add (self other : Point) : result Point :=
  x <- num_add (Point_x self) (Point_x other) ;;
  y <- num_add (Point_y self) (Point_y other) ;;
  Ok (mkPoint x y).

Definition Point_sub (self other : Point) : result Point :=
  x <- num_sub (Point_x self) (Point_x other) ;;
  y <- num_sub (Point_y self) (Point_y other) ;;
  Ok (mkPoint x y).

(** [point * scalar] and [scalar * point] ([__rmul__ = __mul__]) *)
Definition Point_mul (self : Point) (other : Number) : result Point :=
  x <- num_mul (Point_x self) other ;;
  y <- num_mul (Point_y self) other ;;
  Ok (mkPoint x y).

(** [point @ transform] *)
Definition Point_matmul (self : Point) (other : Transform) : result Point :=
  x <- mul_add3 (Transform_a other) (Point_x self)
                (Transform_c other) (Point_y self) (Transform_e other) ;;
  y <- mul_add3 (Transform_b other) (Point_x self)
                (Transform_d other) (Point_y self) (Transform_f other) ;;
  Ok (mkPoint x y).

Definition Transform_identity : Transform :=
  mkTransform (int 1) (int 0) (int 0) (int 1) (int 0) (int 0).

Definition Transform_translation (x y : Number) : Transform :=
  mkTransform (int 1) (int 0) (int 0) (int 1) x y.

Definition Transform_scaling (x : Number) (y : option Number) : Transform :=
  let y := match y with Some y => y | None => x end in
  mkTransform x (int 0) (int 0) y (int 0) (int 0).

Definition Transform_rotation (theta : Number) : result Transform :=
  c1 <- math_cos theta ;;
  s1 <- math_sin theta ;;
  s2 <- math_sin theta ;;
  c2 <- math_cos theta ;;
  Ok (mkTransform c1 s1 (num_neg s2) c2 (int 0) (int 0)).

(** [self @ other] *)
Definition Transform_matmul (self other : Transform) : result Transform :=
  a <- mul_add2 (Transform_a self) (Transform_a other)
                (Transform_b self) (Transform_c other) ;;
  b <- mul_add2 (Transform_a self) (Transform_b other)
                (Transform_b self) (Transform_d other) ;;
  c <- mul_add2 (Transform_c self) (Transform_a other)
                (Transform_d self) (Transform_c other) ;;
  d <- mul_add2 (Transform_c self) (Transform_b other)
                (Transform_d self) (Transform_d other) ;;
  e <- (s <- mul_add2 (Transform_e self) (Transform_a other)
                      (Transform_f self) (Transform_c other) ;;
        num_add s (Transform_e other)) ;;
  f <- (s <- mul_add2 (Transform_e self) (Transform_b other)
                      (Transform_f self) (Transform_d other) ;;
        num_add s (Transform_f other)) ;;
  Ok (mkTransform a b c d e f).

Definition Transform_translate (self : Transform) (x y : Number)
  : result Transform :=
  Transform_matmul self (Transform_translation x y).

Definition Transform_scale (self : Transform) (x : Number) (y : option Number)
  : result Transform :=
  Transform_matmul self (Transform_scaling x y).

Definition Transform_rotate (self : Transform) (theta : Number)
  : result Transform :=
  r <- Transform_rotation theta ;; Transform_matmul self r.

Definition Transform_about (self : Transform) (x y : Number)
  : result Transform :=
  t <- Transform_matmul (Transform_translation (num_neg x) (num_neg y)) self ;;
  Transform_matmul t (Transform_translation x y).

(** [transform.render(last_item)[0]] *)
Definition Transform_render (self : Transform) : string :=
  number_to_str (Transform_a self) ++ " " ++ number_to_str (Transform_b self)
  ++ " " ++ number_to_str (Transform_c self) ++ " "
  ++ number_to_str (Transform_d self) ++ " "
  ++ number_to_str (Transform_e self) ++ " "
  ++ number_to_str (Transform_f self) ++ " cm".

(** ** Path elements *)

Inductive PathElement :=
| Move (pt : Point)
| RelativeMove (pt : Point)
| Line (pt : Point)
| RelativeLine (pt : Point)
| HorizontalLine (x : Number)
| RelativeHorizontalLine (x : Number)
| VerticalLine (y : Number)
| RelativeVerticalLine (y : Number)
| BezierCurve (c1 c2 end_ : Point)
| RelativeBezierCurve (c1 c2 end_ : Point)
| QuadraticBezierCurve (ctrl end_ : Point)
| RelativeQuadraticBezierCurve (ctrl end_ : Point)
| Arc (radii : Point) (rotation : Number) (large sweep : bool) (end_ : Point)
| RelativeArc (radii : Point) (rotation : Number) (large sweep : bool)
    (end_ : Point)
| Rectangle (org size : Point)
| ImplicitClose
| Close.

(** [item.end_point]: a property of four of the classes only *)
Definition end_point (item : PathElement) : result Point :=
  match item with
  | Move pt | Line pt => Ok pt
  | BezierCurve _ _ e | QuadraticBezierCurve _ e => Ok e
  | _ => Raise AttributeError
  end.

Definition _render_move (pt : Point) : string := Point_render pt ++ " m".
Definition _render_line (pt : Point) : string := Point_render pt ++ " l".
Definition _render_curve (ctrl1 ctrl2 end_ : Point) : string :=
  Point_render ctrl1 ++ " " ++ Point_render ctrl2 ++ " "
  ++ Point_render end_ ++ " c".

(** [QuadraticBezierCurve.to_cubic_curve] *)
Definition to_cubic_curve (ctrl end_ start_point : Point)
  : result PathElement :=
  let third (s c : Number) :=
    (* s + 2 * (c - s) / 3 *)
    d <- num_sub c s ;; m <- num_mul (int 2) d ;; q <- num_div m (int 3) ;;
    num_add s q in
  x1 <- third (Point_x start_point) (Point_x ctrl) ;;
  y1 <- third (Point_y start_point) (Point_y ctrl) ;;
  x2 <- third (Point_x end_) (Point_x ctrl) ;;
  y2 <- third (Point_y end_) (Point_y ctrl) ;;
  Ok (BezierCurve (mkPoint x1 y1) (mkPoint x2 y2) end_).

(** *** Arcs *)

(** What a generator produced before it returned or raised. *)
Record generated (A : Type) := mkGenerated {
  yielded : list A;
  raised : option exn
}.
Arguments mkGenerated {A} yielded raised.
Arguments yielded {A} g.
Arguments raised {A} g.

Definition Segment : Type := Point * Point * Point.

(** The loop of [Arc.subdivde_sweep], with [n] iterations left. *)
Fixpoint subdivde_sweep_loop (n : nat)
  (sweep_angle sweep_left sweep_segment : Number) (ctrl1 ctrl2 end_ : Point)
  : generated Segment :=
  match n with
  | O => mkGenerated [] None
  | S n' =>
      let item :=
        offset <- num_sub sweep_angle sweep_left ;;
        transform <- Transform_rotation offset ;;
        p1 <- Point_matmul ctrl1 transform ;;
        p2 <- Point_matmul ctrl2 transform ;;
        p3 <- Point_matmul end_ transform ;;
        Ok (p1, p2, p3) in
      match item with
      | Raise e => mkGenerated [] (Some e)
      | Ok seg =>
          match num_sub sweep_left sweep_segment with
          | Raise e => mkGenerated [seg] (Some e)
          | Ok sweep_left =>
              let rest :=
                subdivde_sweep_loop n' sweep_angle sweep_left sweep_segment
                  ctrl1 ctrl2 end_ in
              mkGenerated (seg :: yielded rest) (raised rest)
          end
      end
  end.

(** [math.ceil(sweep_angle / quarterturn)] of [Arc.subdivde_sweep] *)
Definition sweep_chunks (sweep_angle : Number) : result Z :=
  let sweep_angle := num_abs sweep_angle in
  quarterturn <- num_div math_pi (int 2) ;;
  q <- num_div sweep_angle quarterturn ;;
  math_ceil q.

Definition subdivde_sweep (sweep_angle : Number) : generated Segment :=
  let sweep_angle := num_abs sweep_angle in
  let sweep_left := sweep_angle in
  let head :=
    quarterturn <- num_div math_pi (int 2) ;;
    q <- num_div sweep_angle quarterturn ;;
    chunks <- math_ceil q ;;
    sweep_segment <- num_div sweep_angle (int chunks) ;;
    cos_t <- math_cos sweep_segment ;;
    sin_t <- math_sin sweep_segment ;;
    four_thirds <- num_div (int 4) (int 3) ;;
    quarter <- num_div sweep_segment (int 4) ;;
    t <- math_tan quarter ;;
    kappa <- num_mul four_thirds t ;;
    let ctrl1 := mkPoint (int 1) kappa in
    ks <- num_mul kappa sin_t ;;
    c2x <- num_add cos_t ks ;;
    kc <- num_mul kappa cos_t ;;
    c2y <- num_sub sin_t kc ;;
    let ctrl2 := mkPoint c2x c2y in
    let end_ := mkPoint cos_t sin_t in
    Ok (chunks, sweep_segment, ctrl1, ctrl2, end_) in
  match head with
  | Raise e => mkGenerated [] (Some e)
  | Ok (chunks, sweep_segment, ctrl1, ctrl2, end_) =>
      subdivde_sweep_loop (Z.to_nat chunks) sweep_angle sweep_left
        sweep_segment ctrl1 ctrl2 end_
  end.

Definition BezierCurve_of (s : Segment) : PathElement :=
  let '(c1, c2, e) := s in BezierCurve c1 c2 e.

(** [Arc._approximate_arc]; the fields of the arc are the first five
    arguments. *)
Definition _approximate_arc (radii : Point) (rotation : Number)
  (large sweep : bool) (end_ : Point) (last_item : PathElement)
  : result (list PathElement) :=
  reverse <- Transform_rotation (num_neg rotation) ;;
  forward <- Transform_rotation rotation ;;
  (* prime = ((last_item.end_point - self.end) * 0.5) @ reverse *)
  lp <- end_point last_item ;;
  d <- Point_sub lp end_ ;;
  h <- Point_mul d float_0_5 ;;
  prime <- Point_matmul h reverse ;;
  (* lam_da = (prime.x / radii.x) ** 2 + (prime.y / radii.y) ** 2 *)
  qx <- num_div (Point_x prime) (Point_x radii) ;;
  qx2 <- num_pow qx (int 2) ;;
  qy <- num_div (Point_y prime) (Point_y radii) ;;
  qy2 <- num_pow qy (int 2) ;;
  lam_da <- num_add qx2 qy2 ;;
  radii <- (if num_gt_Z lam_da 1 then
              rx <- (r <- num_pow lam_da float_0_5 ;; num_mul r (Point_x radii)) ;;
              ry <- (r <- num_pow lam_da float_0_5 ;; num_mul r (Point_y radii)) ;;
              Ok (mkPoint rx ry)
            else Ok radii) ;;
  (* sign = (self.large != self.sweep) - (self.large == self.sweep) *)
  let sign := Z.b2z (xorb large sweep) - Z.b2z (Bool.eqb large sweep) in
  rxry2 <- (m <- num_mul (Point_x radii) (Point_y radii) ;; num_pow m (int 2)) ;;
  rxpy2 <- (m <- num_mul (Point_x radii) (Point_y prime) ;; num_pow m (int 2)) ;;
  rypx2 <- (m <- num_mul (Point_y radii) (Point_x prime) ;; num_pow m (int 2)) ;;
  (* centerprime *)
  n1 <- num_sub rxry2 rxpy2 ;;
  n2 <- num_sub n1 rypx2 ;;
  rounded <- num_round8 n2 ;;
  den <- num_add rxpy2 rypx2 ;;
  quo <- num_div rounded den ;;
  root <- math_sqrt quo ;;
  coef <- num_mul (int sign) root ;;
  px <- (m <- num_mul (Point_x radii) (Point_y prime) ;; num_div m (Point_y radii)) ;;
  py <- (m <- num_mul (num_neg (Point_y radii)) (Point_x prime) ;;
         num_div m (Point_x radii)) ;;
  centerprime <- Point_mul (mkPoint px py) coef ;;
  (* center = (centerprime @ forward) + ((last_item.end_point + self.end) * 0.5) *)
  cf <- Point_matmul centerprime forward ;;
  lp <- end_point last_item ;;
  mid <- (s <- Point_add lp end_ ;; Point_mul s float_0_5) ;;
  center <- Point_add cf mid ;;
  arcstart <-
    (x <- (d <- num_sub (Point_x prime) (Point_x centerprime) ;;
           num_div d (Point_x radii)) ;;
     y <- (d <- num_sub (Point_y prime) (Point_y centerprime) ;;
           num_div d (Point_y radii)) ;;
     Ok (mkPoint x y)) ;;
  arcend <-
    (x <- (d <- num_sub (num_neg (Point_x prime)) (Point_x centerprime) ;;
           num_div d (Point_x radii)) ;;
     y <- (d <- num_sub (num_neg (Point_y prime)) (Point_y centerprime) ;;
           num_div d (Point_y radii)) ;;
     Ok (mkPoint x y)) ;;
  theta <- Point_angle (mkPoint (int 1) (int 0)) arcstart ;;
  deltatheta <- Point_angle arcstart arcend ;;
  deltatheta <-
    (if negb sweep && num_gt_Z deltatheta 0 then num_sub deltatheta math_tau
     else if sweep && num_lt_Z deltatheta 0 then num_add deltatheta math_tau
     else Ok deltatheta) ;;
  let sweep_sign := sign_of deltatheta in
  final_tf <-
    (t <- Transform_rotate (Transform_scaling (int 1) (Some (int sweep_sign))) theta ;;
     t <- Transform_scale t (Point_x radii) (Some (Point_y radii)) ;;
     t <- Transform_rotate t rotation ;;
     Transform_translate t (Point_x center) (Point_y center)) ;;
  let g := subdivde_sweep deltatheta in
  curves <-
    mapM (fun seg : Segment =>
            let '(ctrl1, ctrl2, e) := seg in
            c1 <- Point_matmul ctrl1 final_tf ;;
            c2 <- Point_matmul ctrl2 final_tf ;;
            e <- Point_matmul e final_tf ;;
            Ok (BezierCurve c1 c2 e))
         (yielded g) ;;
  match raised g with
  | Some e => Raise e
  | None => Ok curves
  end.

(** [BezierCurve.render(...)[0]], as [Arc.render] calls it on its curves *)
Definition curve_text (curve : PathElement) : string :=
  match curve with
  | BezierCurve c1 c2 e => _render_curve c1 c2 e
  | _ => EmptyString
  end.

(** [Arc.render] *)
Definition Arc_render (radii : Point) (rotation : Number) (large sweep : bool)
  (end_ : Point) (last_item : PathElement) : result (string * PathElement) :=
  curves <- _approximate_arc radii rotation large sweep end_ last_item ;;
  match List.last (map Some curves) None with
  | None => Ok (EmptyString, last_item)
  | Some final => Ok (join " " (map curve_text curves), final)
  end.

(** [element.render(path_gsds, style, last_item)] for the primitive path
    elements; none of them uses [path_gsds]. *)
Definition render_element (self : PathElement) (style : GraphicsStyle)
  (last_item : PathElement) : result (string * PathElement) :=
  match self with
  | Move pt => Ok (_render_move pt, self)
  | RelativeMove pt =>
      lp <- end_point last_item ;;
      point <- Point_add lp pt ;;
      Ok (_render_move point, Move point)
  | Line pt => Ok (_render_line pt, self)
  | RelativeLine pt =>
      lp <- end_point last_item ;;
      point <- Point_add lp pt ;;
      Ok (_render_line point, Line point)
  | HorizontalLine x =>
      lp <- end_point last_item ;;
      let end_point := mkPoint x (Point_y lp) in
      Ok (_render_line end_point, Line end_point)
  | RelativeHorizontalLine x =>
      lp <- end_point last_item ;;
      nx <- num_add (Point_x lp) x ;;
      let end_point := mkPoint nx (Point_y lp) in
      Ok (_render_line end_point, Line end_point)
  | VerticalLine y =>
      lp <- end_point last_item ;;
      let end_point := mkPoint (Point_x lp) y in
      Ok (_render_line end_point, Line end_point)
  | RelativeVerticalLine y =>
      lp <- end_point last_item ;;
      ny <- num_add (Point_y lp) y ;;
      let end_point := mkPoint (Point_x lp) ny in
      Ok (_render_line end_point, Line end_point)
  | BezierCurve c1 c2 e => Ok (_render_curve c1 c2 e, self)
  | RelativeBezierCurve c1 c2 e =>
      last_point <- end_point last_item ;;
      c1 <- Point_add last_point c1 ;;
      c2 <- Point_add last_point c2 ;;
      e <- Point_add last_point e ;;
      Ok (_render_curve c1 c2 e, BezierCurve c1 c2 e)
  | QuadraticBezierCurve ctrl e =>
      lp <- end_point last_item ;;
      cubic <- to_cubic_curve ctrl e lp ;;
      Ok (curve_text cubic, self)
  | RelativeQuadraticBezierCurve ctrl e =>
      last_point <- end_point last_item ;;
      ctrl <- Point_add last_point ctrl ;;
      e <- Point_add last_point e ;;
      (* absolute.render(path_gsds, style, last_item) *)
      lp <- end_point last_item ;;
      cubic <- to_cubic_curve ctrl e lp ;;
      Ok (curve_text cubic, QuadraticBezierCurve ctrl e)
  | Arc radii rotation large sweep e =>
      Arc_render radii rotation large sweep e last_item
  | RelativeArc radii rotation large sweep e =>
      lp <- end_point last_item ;;
      e <- Point_add lp e ;;
      Arc_render radii rotation large sweep e last_item
  | Rectangle org size =>
      Ok (Point_render org ++ " " ++ Point_render size ++ " re", Line org)
  | ImplicitClose =>
      if truthy (auto_close style) then Ok ("h", last_item)
      else Ok (EmptyString, last_item)
  | Close => Ok ("h", last_item)
  end.

(** ** The style registry

    [_global_style_registry] maps a serialized style dictionary to its name
    or to None; [_global_style_name_lookup] is the reverse mapping. *)

Record Registry := mkRegistry {
  _global_style_registry : gmap string (option string);
  _global_style_name_lookup : gmap string string
}.

(** The module's state after import: the dictionary that holds the type
    only is registered with no name. *)
Definition initial_registry : Registry :=
  match render_pdf_primitive (PyDict [(PyName "Type", PyName "ExtGState")]) with
  | Ok key => mkRegistry {[ key := None ]} ∅
  | Raise _ => mkRegistry ∅ ∅
  end.

Definition get_style_dict_by_name (G : Registry) (name : string)
  : result string :=
  match _global_style_name_lookup G !! name with
  | Some sdict => Ok sdict
  | None => Raise KeyError
  end.

(** [Name(f"GS{len(_global_style_registry)}")] *)
Definition _new_global_style_name (G : Registry) : string :=
  "GS" ++ pretty (size (_global_style_registry G)).

(** The name is [None] when the function returns None. *)
Definition _get_or_set_style_dict (style : GraphicsStyle) (G : Registry)
  : Registry * result (option string) :=
  match to_pdf_dict style with
  | Raise e => (G, Raise e)
  | Ok sdict =>
      if negb (truthy (PyRaw sdict)) then (G, Ok None)
      else
        match _global_style_registry G !! sdict with
        | Some name => (G, Ok name)
        | None =>
            let name := _new_global_style_name G in
            (mkRegistry (<[sdict := Some name]> (_global_style_registry G))
                        (<[name := sdict]> (_global_style_name_lookup G)),
             Ok (Some name))
        end
  end.

(** ** The scene graph

    A context owns its items, a path owns its contexts.  Of a path under
    construction, [_open_contexts] are the contexts entered by
    [_new_graphics_context] and not left yet, innermost first:
    [_graphics_context] is the first of them, or the root context when there
    is none. *)

(** Which of a path's contexts a reference such as [_close_context] names:
    the context [depth] levels above the root in the chain of open contexts
    (0 is the root), then the child contexts at the given item indices.
    Items are only ever appended, so an index names the same item for good. *)
Definition ContextRef : Type := nat * list nat.

Inductive Item :=
| IElement (e : PathElement)
| IContext (g : GraphicsContext)
| IPath (p : PaintedPath)
with GraphicsContext :=
| mkGraphicsContext (style : GraphicsStyle) (path_items : list Item)
    (_transform : option Transform) (_clipping_path : option Item)
with PaintedPath :=
| mkPaintedPath (is_clipping_path : bool)
    (_root_graphics_context : GraphicsContext)
    (_open_contexts : list GraphicsContext)
    (_closed : bool)
    (_close_context : option ContextRef)   (* None: a context that was dropped *)
    (_starter_move : option PathElement).

Definition style (g : GraphicsContext) : GraphicsStyle :=
  let 'mkGraphicsContext s _ _ _ := g in s.
Definition path_items (g : GraphicsContext) : list Item :=
  let 'mkGraphicsContext _ l _ _ := g in l.
Definition transform (g : GraphicsContext) : option Transform :=
  let 'mkGraphicsContext _ _ t _ := g in t.
Definition clipping_path (g : GraphicsContext) : option Item :=
  let 'mkGraphicsContext _ _ _ c := g in c.

Definition is_clipping_path (p : PaintedPath) : bool :=
  let 'mkPaintedPath b _ _ _ _ _ := p in b.
Definition _root_graphics_context (p : PaintedPath) : GraphicsContext :=
  let 'mkPaintedPath _ r _ _ _ _ := p in r.
Definition _open_contexts (p : PaintedPath) : list GraphicsContext :=
  let 'mkPaintedPath _ _ o _ _ _ := p in o.
Definition _closed (p : PaintedPath) : bool :=
  let 'mkPaintedPath _ _ _ c _ _ := p in c.
Definition _close_context (p : PaintedPath) : option ContextRef :=
  let 'mkPaintedPath _ _ _ _ r _ := p in r.
Definition _starter_move (p : PaintedPath) : option PathElement :=
  let 'mkPaintedPath _ _ _ _ _ s := p in s.

(** [GraphicsContext()] *)
Definition GraphicsContext_new : GraphicsContext :=
  mkGraphicsContext ∅ [] None None.

(** [GraphicsContext.add_item] *)
Definition add_item (self : GraphicsContext) (item : Item) : GraphicsContext :=
  mkGraphicsContext (style self) (path_items self ++ [item])%list
    (transform self) (clipping_path self).

Definition set_transform (self : GraphicsContext) (tf : option Transform)
  : GraphicsContext :=
  mkGraphicsContext (style self) (path_items self) tf (clipping_path self).

Definition set_clipping_path (self : GraphicsContext) (new_clipath : option Item)
  : GraphicsContext :=
  mkGraphicsContext (style self) (path_items self) (transform self) new_clipath.

Definition set_style (self : GraphicsContext) (s : GraphicsStyle)
  : GraphicsContext :=
  mkGraphicsContext s (path_items self) (transform self) (clipping_path self).

Definition set_path_items (self : GraphicsContext) (items : list Item)
  : GraphicsContext :=
  mkGraphicsContext (style self) items (transform self) (clipping_path self).

(** [add_item] on the context found below [self] along the item indices. *)
Fixpoint add_item_below (self : GraphicsContext) (path : list nat)
  (item : Item) : GraphicsContext :=
  match path with
  | [] => add_item self item
  | i :: path =>
      match path_items self !! i with
      | Some (IContext g) =>
          set_path_items self
            (<[i := IContext (add_item_below g path item)]> (path_items self))
      | _ => self
      end
  end.

(** *** PaintedPath: construction *)

(** [self._graphics_context] *)
Definition _graphics_context (self : PaintedPath) : GraphicsContext :=
  match _open_contexts self with
  | g :: _ => g
  | [] => _root_graphics_context self
  end.

(** The reference that names [self._graphics_context]. *)
Definition current_ref (self : PaintedPath) : ContextRef :=
  (length (_open_contexts self), []).

Definition with_contexts (self : PaintedPath) (root : GraphicsContext)
  (open : list GraphicsContext) : PaintedPath :=
  mkPaintedPath (is_clipping_path self) root open (_closed self)
    (_close_context self) (_starter_move self).

Definition with_root (self : PaintedPath) (root : GraphicsContext)
  : PaintedPath :=
  with_contexts self root (_open_contexts self).

Definition with_closed (self : PaintedPath) (closed : bool) : PaintedPath :=
  mkPaintedPath (is_clipping_path self) (_root_graphics_context self)
    (_open_contexts self) closed (_close_context self) (_starter_move self).

Definition with_close_context (self : PaintedPath) (r : option ContextRef)
  : PaintedPath :=
  mkPaintedPath (is_clipping_path self) (_root_graphics_context self)
    (_open_contexts self) (_closed self) r (_starter_move self).

Definition with_starter_move (self : PaintedPath) (m : option PathElement)
  : PaintedPath :=
  mkPaintedPath (is_clipping_path self) (_root_graphics_context self)
    (_open_contexts self) (_closed self) (_close_context self) m.

(** [ctx.add_item(item)] for the context that [r] names *)
Definition add_item_at (self : PaintedPath) (r : option ContextRef)
  (item : Item) : PaintedPath :=
  match r with
  | None => self
  | Some (O, path) =>
      with_root self (add_item_below (_root_graphics_context self) path item)
  | Some (S d, path) =>
      (* the open contexts are kept innermost first *)
      let open := _open_contexts self in
      let i := (length open - S d)%nat in
      match open !! i with
      | Some g =>
          if (S d <=? length open)%nat
          then with_contexts self (_root_graphics_context self)
                 (<[i := add_item_below g path item]> open)
          else self
      | None => self
      end
  end.

(** [self._graphics_context.add_item(item)] *)
Definition add_item_current (self : PaintedPath) (item : Item) : PaintedPath :=
  add_item_at self (Some (current_ref self)) item.

(** Entering [with self._new_graphics_context() as ctxt], with what the
    body assigns to [ctxt.transform] on entry. *)
Definition enter_graphics_context (self : PaintedPath)
  (tf : option Transform) : PaintedPath :=
  with_contexts self (_root_graphics_context self)
    (set_transform GraphicsContext_new tf :: _open_contexts self).

(** Leaving it: normally with [_attach] ([attach = true]), or by an
    exception or with [_attach=False], when the new context is dropped. *)
Definition exit_graphics_context (self : PaintedPath) (attach : bool)
  : PaintedPath :=
  match _open_contexts self with
  | [] => self
  | new_graphics_context :: outer =>
      let depth := length (_open_contexts self) in
      let old_graphics_context :=
        match outer with
        | g :: _ => g
        | [] => _root_graphics_context self
        end in
      let index := length (path_items old_graphics_context) in
      let self := with_contexts self (_root_graphics_context self) outer in
      let self :=
        if attach
        then add_item_current self (IContext new_graphics_context)
        else self in
      let r :=
        match _close_context self with
        | Some (d, path) =>
            if (d =? depth)%nat
            then (if attach then Some (pred depth, index :: path) else None)
            else Some (d, path)
        | None => None
        end in
      with_close_context self r
  end.

Definition _insert_implicit_close_if_open (self : PaintedPath) : PaintedPath :=
  if negb (_closed self) then
    let self := add_item_at self (_close_context self) (IElement ImplicitClose) in
    let self := with_close_context self (Some (current_ref self)) in
    with_closed self true
  else self.

Definition add_path_element (self : PaintedPath) (item : Item) : PaintedPath :=
  let self :=
    match _starter_move self with
    | Some starter =>
        let self := with_closed self false in
        let self := add_item_current self (IElement starter) in
        let self := with_close_context self (Some (current_ref self)) in
        with_starter_move self None
    | None => self
    end in
  add_item_current self item.

Definition move_to (self : PaintedPath) (x y : Number) : PaintedPath :=
  let self := _insert_implicit_close_if_open self in
  with_starter_move self (Some (Move (mkPoint x y))).

Definition move_relative (self : PaintedPath) (x y : Number) : PaintedPath :=
  let self := _insert_implicit_close_if_open self in
  with_starter_move self (Some (RelativeMove (mkPoint x y))).

Definition line_to (self : PaintedPath) (x y : Number) : PaintedPath :=
  add_path_element self (IElement (Line (mkPoint x y))).

Definition line_relative (self : PaintedPath) (dx dy : Number) : PaintedPath :=
  add_path_element self (IElement (RelativeLine (mkPoint dx dy))).

Definition horizontal_line_to (self : PaintedPath) (x : Number) : PaintedPath :=
  add_path_element self (IElement (HorizontalLine x)).

Definition vertical_line_to (self : PaintedPath) (y : Number) : PaintedPath :=
  add_path_element self (IElement (VerticalLine y)).

Definition curve_to (self : PaintedPath) (x1 y1 x2 y2 x3 y3 : Number)
  : PaintedPath :=
  add_path_element self
    (IElement (BezierCurve (mkPoint x1 y1) (mkPoint x2 y2) (mkPoint x3 y3))).

(** [arc_to]; [large_arc] and [positive_sweep] are any values, read
    through [bool(...)].  The path is returned, or [math.radians] raises. *)
Definition arc_to (self : PaintedPath) (rx ry rotation : Number)
  (large_arc positive_sweep : pyval) (x y : Number) : result PaintedPath :=
  if num_eq_Z rx 0 || num_eq_Z ry 0 then Ok (line_to self x y)
  else
    let radii := mkPoint (num_abs rx) (num_abs ry) in
    let large_arc := truthy large_arc in
    rotation <- math_radians rotation ;;
    let positive_sweep := truthy positive_sweep in
    let end_ := mkPoint x y in
    Ok (add_path_element self
          (IElement (Arc radii rotation large_arc positive_sweep end_))).

Definition arc_relative (self : PaintedPath) (rx ry rotation : Number)
  (large_arc positive_sweep : pyval) (dx dy : Number) : result PaintedPath :=
  if num_eq_Z rx 0 || num_eq_Z ry 0 then Ok (line_relative self dx dy)
  else
    let radii := mkPoint (num_abs rx) (num_abs ry) in
    let large_arc := truthy large_arc in
    rotation <- math_radians rotation ;;
    let positive_sweep := truthy positive_sweep in
    let end_ := mkPoint dx dy in
    Ok (add_path_element self
          (IElement (RelativeArc radii rotation large_arc positive_sweep end_))).


(** [PaintedPath(x, y)] *)
Definition PaintedPath_new (x y : Number) : PaintedPath :=
  let self :=
    mkPaintedPath false GraphicsContext_new [] true (Some (O, [])) None in
  move_to self x y.

(** [ClippingPath(x, y)]: [self.paint_rule = PathPaintRule.DONT_PAINT]
    goes through the style's setter. *)
Definition ClippingPath_new (x y : Number) : result PaintedPath :=
  let self :=
    mkPaintedPath true GraphicsContext_new [] true (Some (O, [])) None in
  let self := move_to self x y in
  let root := _root_graphics_context self in
  match set_paint_rule (style root)
          (PyEnum (M_PathPaintRule PathPaintRule.DONT_PAINT)) with
  | (s, Ok _) => Ok (with_root self (set_style root s))
  | (_, Raise e) => Raise e
  end.

(** [DrawingContext]: its [_subitems] *)
Record DrawingContext := mkDrawingContext { _subitems : list Item }.

Definition DrawingContext_add_item (self : DrawingContext) (item : Item)
  : result DrawingContext :=
  match item with
  | IContext _ | IPath _ => Ok (mkDrawingContext (_subitems self ++ [item])%list)
  | IElement _ => Raise TypeError
  end.

(** ** Rendering

    Rendering reads and extends the registry, fills [path_gsds] (the keys of
    an OrderedDict, in insertion order) and closes the open subpaths of the
    paths it meets: each function returns the object it was called on as it
    is afterwards, the state, and what the call returned or raised. *)

Record RenderState := mkRenderState {
  registry : Registry;
  path_gsds : list string
}.

(** [path_gsds[sdict] = None] *)
Definition gsds_set (gsds : list string) (name : string) : list string :=
  if existsb (String.eqb name) gsds then gsds else (gsds ++ [name])%list.

(** [if rendered: render_list.append(rendered)] *)
Definition append_rendered (render_list : list string) (rendered : string)
  : list string :=
  if truthy (PyStr rendered) then (render_list ++ [rendered])%list
  else render_list.

(** [member.value] as an item of [" ".join(...)] *)
Definition member_value (m : EnumMember) : result string :=
  match m with
  | M_IntersectionRule r => Ok (IntersectionRule.value r)
  | M_PathPaintRule r => Ok (PathPaintRule.value r)
  | M_ClippingPathIntersectionRule r => Ok (ClippingPathIntersectionRule.value r)
  | M_BlendMode b => Ok (BlendMode.value b)
  | M_PDFStyleKeys k => Ok (PDFStyleKeys.value k)
  | M_StrokeCapStyle _ | M_StrokeJoinStyle _ => Raise TypeError
  end.

Definition member_name (m : EnumMember) : string :=
  match m with
  | M_IntersectionRule r => IntersectionRule.name r
  | M_PathPaintRule r => PathPaintRule.name r
  | M_ClippingPathIntersectionRule r => ClippingPathIntersectionRule.name r
  | M_BlendMode b => BlendMode.name b
  | M_StrokeCapStyle c => StrokeCapStyle.name c
  | M_StrokeJoinStyle j => StrokeJoinStyle.name j
  | M_PDFStyleKeys k =>
      match k with
      | PDFStyleKeys.FILL_ALPHA => "FILL_ALPHA"
      | PDFStyleKeys.BLEND_MODE => "BLEND_MODE"
      | PDFStyleKeys.STROKE_ALPHA => "STROKE_ALPHA"
      | PDFStyleKeys.STROKE_ADJUSTMENT => "STROKE_ADJUSTMENT"
      | PDFStyleKeys.STROKE_WIDTH => "STROKE_WIDTH"
      | PDFStyleKeys.STROKE_CAP_STYLE => "STROKE_CAP_STYLE"
      | PDFStyleKeys.STROKE_JOIN_STYLE => "STROKE_JOIN_STYLE"
      | PDFStyleKeys.STROKE_MITER_LIMIT => "STROKE_MITER_LIMIT"
      | PDFStyleKeys.STROKE_DASH_PATTERN => "STROKE_DASH_PATTERN"
      end
  end.

(** [paint_rule.value] *)
Definition value_of (v : pyval) : result string :=
  match v with
  | PyEnum m => member_value m
  | _ => Raise AttributeError
  end.

(** The operator that sets a colour: [case] is [str.lower] for the fill
    colour and [str.upper] for the stroke colour. *)
Definition color_operator (case : string -> string) (color : pyval)
  : result string :=
  match color with
  | PyColor c =>
      Ok (join " " (map number_to_str (colors c)) ++ " " ++ case (OPERATOR c))
  | _ => Raise AttributeError
  end.

(** [number_to_str(v)] for any value: ["%.4f" % v] needs a number. *)
Definition number_to_str_py (v : pyval) : result string :=
  match py_as_number v with
  | Some n => Ok (number_to_str n)
  | None => Raise TypeError
  end.

(** The operators for the colours and the dash pattern of [build_render_list],
    appended to [render_list]. *)
Definition emit_colors_and_dash (self_style : GraphicsStyle)
  (render_list : list string) : result (list string) :=
  let fill_color := fill_color self_style in
  let stroke_color := stroke_color self_style in
  dash_pattern <- stroke_dash_pattern self_style ;;
  skip <- in_None_INHERIT fill_color ;;
  render_list <-
    (if skip then Ok render_list
     else op <- color_operator str_lower fill_color ;;
          Ok (render_list ++ [op])%list) ;;
  skip <- in_None_INHERIT stroke_color ;;
  render_list <-
    (if skip then Ok render_list
     else op <- color_operator str_upper stroke_color ;;
          Ok (render_list ++ [op])%list) ;;
  skip <- in_None_INHERIT dash_pattern ;;
  (if skip then Ok render_list
   else pattern <- render_pdf_primitive dash_pattern ;;
        phase <- stroke_dash_phase self_style ;;
        phase <- number_to_str_py phase ;;
        Ok (render_list ++ [(pattern ++ " " ++ phase ++ " d")%string])%list).

(** The part of [build_render_list] between the merge and the rendering of
    the clipping path: the style dictionary is registered and named, the
    colours and the dash pattern are emitted. *)
Definition emit_style (self_style : GraphicsStyle) (st : RenderState)
  : RenderState * result (list string) :=
  match _get_or_set_style_dict self_style (registry st) with
  | (G, Raise e) => (mkRenderState G (path_gsds st), Raise e)
  | (G, Ok sdict) =>
      match sdict with
      | Some name =>
          let st := mkRenderState G (gsds_set (path_gsds st) name) in
          match render_pdf_primitive (PyName name) with
          | Ok s => (st, emit_colors_and_dash self_style [s ++ " gs"])
          | Raise e => (st, Raise e)
          end
      | None =>
          (mkRenderState G (path_gsds st), emit_colors_and_dash self_style [])
      end
  end.

(** What [item.render(path_gsds, style, last_item)] gives: the item as it
    is left, the state, and the returned pair or the exception. *)
Definition Rendered (T A : Type) : Type := T * RenderState * result A.

Definition ItemRenderer : Type :=
  Item -> RenderState -> GraphicsStyle -> PathElement ->
  Rendered Item (string * PathElement).

Section RenderOver.
(** [render] is how the items below the object at hand render. *)
Variable render : ItemRenderer.

(** [for item in items: rendered, last_item = item.render(...); ...] *)
Fixpoint render_items (items : list Item) (st : RenderState)
  (style : GraphicsStyle) (last_item : PathElement) (render_list : list string)
  : Rendered (list Item) (list string * PathElement) :=
  match items with
  | [] => ([], st, Ok (render_list, last_item))
  | item :: rest =>
      match render item st style last_item with
      | (item, st, Raise e) => (item :: rest, st, Raise e)
      | (item, st, Ok (rendered, last_item)) =>
          let '(rest, st, r) :=
            render_items rest st style last_item
              (append_rendered render_list rendered) in
          (item :: rest, st, r)
      end
  end.

(** [GraphicsContext.build_render_list], with no debug stream *)
Definition build_render_list (self : GraphicsContext) (st : RenderState)
  (style_ : GraphicsStyle) (last_item : PathElement) (_push_stack : bool)
  : Rendered GraphicsContext (list string * PathElement) :=
  match path_items self with
  | [] => (self, st, Ok ([], last_item))
  | _ :: _ =>
      match merge style_ (style self) with
      | Raise e => (self, st, Raise e)
      | Ok merged_style =>
          match emit_style (style self) st with
          | (st, Raise e) => (self, st, Raise e)
          | (st, Ok render_list) =>
              (* the clipping path first *)
              let '(clip, st, r) :=
                match clipping_path self with
                | None => (None, st, Ok render_list)
                | Some cp =>
                    match render cp st merged_style last_item with
                    | (cp, st, Raise e) => (Some cp, st, Raise e)
                    | (cp, st, Ok (rendered_cpath, _)) =>
                        (Some cp, st, Ok (append_rendered render_list rendered_cpath))
                    end
                end in
              let self := set_clipping_path self clip in
              match r with
              | Raise e => (self, st, Raise e)
              | Ok render_list =>
                  let '(items, st, r) :=
                    render_items (path_items self) st merged_style last_item
                      render_list in
                  let self := set_path_items self items in
                  match r with
                  | Raise e => (self, st, Raise e)
                  | Ok (render_list, last_item) =>
                      let render_list :=
                        match transform self with
                        | Some tf => Transform_render tf :: render_list
                        | None => render_list
                        end in
                      let render_list :=
                        if _push_stack
                        then ("q" :: render_list ++ ["Q"])%list
                        else render_list in
                      (self, st, Ok (render_list, last_item))
                  end
              end
          end
      end
  end.

(** [GraphicsContext.render] *)
Definition GraphicsContext_render (self : GraphicsContext) (st : RenderState)
  (style_ : GraphicsStyle) (last_item : PathElement)
  : Rendered GraphicsContext (string * PathElement) :=
  match build_render_list self st style_ last_item true with
  | (self, st, Ok (render_list, last_item)) =>
      (self, st, Ok (join " " render_list, last_item))
  | (self, st, Raise e) => (self, st, Raise e)
  end.

(** [render_list.insert(-1, x)] *)
Definition insert_before_last (render_list : list string) (x : string)
  : list string :=
  match render_list with
  | [] => [x]
  | _ => (removelast render_list ++ [x; List.last render_list x])%list
  end.

(** [PaintedPath.render] *)
Definition PaintedPath_render (self : PaintedPath) (st : RenderState)
  (style_ : GraphicsStyle) (last_item : PathElement)
  : Rendered PaintedPath (string * PathElement) :=
  let self := _insert_implicit_close_if_open self in
  match build_render_list (_root_graphics_context self) st style_ last_item true with
  | (root, st, Raise e) => (with_root self root, st, Raise e)
  | (root, st, Ok (render_list, last_item)) =>
      let self := with_root self root in
      (self, st,
       merged <- merge style_ (style (_root_graphics_context self)) ;;
       paint_rule <- resolve_paint_rule merged ;;
       v <- value_of paint_rule ;;
       Ok (join " " (insert_before_last render_list v), last_item))
  end.

(** [ClippingPath.render] *)
Definition ClippingPath_render (self : PaintedPath) (st : RenderState)
  (style_ : GraphicsStyle) (last_item : PathElement)
  : Rendered PaintedPath (string * PathElement) :=
  match build_render_list (_root_graphics_context self) st style_ last_item false with
  | (root, st, Raise e) => (with_root self root, st, Raise e)
  | (root, st, Ok (render_list, last_item)) =>
      let self := with_root self root in
      (self, st,
       merged_style <- merge style_ (style (_root_graphics_context self)) ;;
       intersection_rule <-
         (match intersection_rule merged_style with
          | PyEllipsis => Ok ClippingPathIntersectionRule.NONZERO
          | PyEnum m => ClippingPathIntersectionRule.by_name (member_name m)
          | _ => Raise AttributeError
          end) ;;
       paint_rule <- resolve_paint_rule merged_style ;;
       v <- value_of paint_rule ;;
       Ok (join " " (render_list
                     ++ [ClippingPathIntersectionRule.value intersection_rule; v])%list,
           last_item))
  end.

(** [item.render(path_gsds, style, last_item)], by the class of [item] *)
Definition render_dispatch (item : Item) (st : RenderState)
  (style_ : GraphicsStyle) (last_item : PathElement)
  : Rendered Item (string * PathElement) :=
  match item with
  | IElement e => (item, st, render_element e style_ last_item)
  | IContext g =>
      let '(g, st, r) := GraphicsContext_render g st style_ last_item in
      (IContext g, st, r)
  | IPath p =>
      let '(p, st, r) :=
        if is_clipping_path p
        then ClippingPath_render p st style_ last_item
        else PaintedPath_render p st style_ last_item in
      (IPath p, st, r)
  end.

End RenderOver.

(** The interpreter's recursion limit bounds the nesting: [render_item depth]
    renders an item at most [depth] items deep and raises RecursionError
    below. *)
Fixpoint render_item (depth : nat) : ItemRenderer :=
  fun item st style_ last_item =>
  match depth with
  | O => (item, st, Raise RecursionError)
  | S depth => render_dispatch (render_item depth) item st style_ last_item
  end.

(** [DrawingContext._setup_render_prereqs], without the empty [path_gsds] *)
Definition _setup_render_prereqs (first_point : Point) (scale height : Number)
  : result (list string * GraphicsStyle * PathElement) :=
  let style_ : GraphicsStyle := ∅ in
  style_ <- (match set_auto_close style_ (PyBool true) with
             | (s, Ok _) => Ok s | (_, Raise e) => Raise e end) ;;
  style_ <- (match set_paint_rule style_ AUTO with
             | (s, Ok _) => Ok s | (_, Raise e) => Raise e end) ;;
  style_ <- (match set_intersection_rule style_
                     (PyEnum (M_IntersectionRule IntersectionRule.NONZERO)) with
             | (s, Ok _) => Ok s | (_, Raise e) => Raise e end) ;;
  let last_item := Move first_point in
  half <- num_div height (int 2) ;;
  t <- Transform_about (Transform_scaling (int 1) (Some (int (-1)))) (int 0) half ;;
  t <- Transform_scale t scale None ;;
  let scale := Transform_render t in
  Ok (["q"; scale], style_, last_item).

(** [DrawingContext.render(first_point, scale, height)]: the drawing context
    and the registry as they are left, and the operator string with the
    names of the style dictionaries. *)
Definition DrawingContext_render (depth : nat) (self : DrawingContext)
  (first_point : Point) (scale height : Number) (G : Registry)
  : DrawingContext * Registry * result (string * list string) :=
  match _subitems self with
  | [] => (self, G, Ok (EmptyString, []))
  | _ :: _ =>
      match _setup_render_prereqs first_point scale height with
      | Raise e => (self, G, Raise e)
      | Ok (render_list, style_, last_item) =>
          let '(items, st, r) :=
            render_items (render_item depth) (_subitems self)
              (mkRenderState G []) style_ last_item render_list in
          (mkDrawingContext items, registry st,
           match r with
           | Ok (render_list, _) =>
               Ok (join " " (render_list ++ ["Q"])%list, path_gsds st)
           | Raise e => Raise e
           end)
      end
  end.

End WithPython.

Arguments pyval Number : clear implicits.
Arguments Color Number : clear implicits.
Arguments Point Number : clear implicits.
Arguments Transform Number : clear implicits.
Arguments PathElement Number : clear implicits.
Arguments Item Number : clear implicits.
Arguments GraphicsContext Number : clear implicits.
Arguments PaintedPath Number : clear implicits.
Arguments DrawingContext Number : clear implicits.
Arguments ItemRenderer Number : clear implicits.
Arguments mkGenerated {A} yielded raised.
Arguments yielded {A} g.
Arguments raised {A} g.

Abbreviation GraphicsStyle Number := (gmap string (pyval Number)).

(** ** An interpreter: binary64 floats

    Every number is a Python [float], that is an IEEE 754 binary64 value with
    the operations rounded to nearest even; an int literal of the module is
    the float equal to it (exact below 2^53, and then of the same text and
    arithmetic).  The functions of the C library that IEEE 754 does not fix
    are parameters. *)

Module Binary64.

Definition of_Z (z : Z) : float := SF2Prim (binary_normalize 53 1024 z 0 false).

(** [math.pi] and [math.tau] *)
Definition pi : float := 0x1.921fb54442d18p+1%float.
Definition tau : float := 0x1.921fb54442d18p+2%float.

Definition is_nan (x : float) : bool := negb (PrimFloat.eqb x x).
Definition is_inf (x : float) : bool :=
  PrimFloat.eqb x infinity || PrimFloat.eqb x neg_infinity.

(** [math.ceil(x)]: the exact ceiling, as an int *)
Definition ceil (x : float) : result Z :=
  match Prim2SF x with
  | S754_nan => Raise ValueError
  | S754_infinity _ => Raise OverflowError
  | S754_zero _ => Ok 0
  | S754_finite s m e =>
      let m := Z.pos m in
      Ok (if s
          then - (if 0 <=? e then m * 2 ^ e else m / 2 ^ (- e))
          else (if 0 <=? e then m * 2 ^ e
                else (m + 2 ^ (- e) - 1) / 2 ^ (- e)))
  end.

(** Four digits, with the leading zeros. *)
Definition pad4 (n : Z) : string :=
  match pretty (Z.to_N (10000 + n)) with
  | String _ digits => digits
  | EmptyString => EmptyString
  end.

(** ["%.4f" % x]: the exact value rounded to four decimals, ties to even *)
Definition format_4f (x : float) : string :=
  match Prim2SF x with
  | S754_nan => "nan"
  | S754_infinity s => if s then "-inf" else "inf"
  | S754_zero s => if s then "-0.0000" else "0.0000"
  | S754_finite s m e =>
      let num := Z.pos m * 10000 in
      let n :=
        if 0 <=? e then num * 2 ^ e
        else
          let den := 2 ^ (- e) in
          let q := num / den in
          let r := num mod den in
          if (den <? 2 * r) || ((den =? 2 * r) && Z.odd q) then q + 1 else q in
      (if s then "-" else EmptyString)
      ++ pretty (Z.to_N (n / 10000)) ++ "." ++ pad4 (n mod 10000)
  end.

Definition upper_char (c : ascii) : ascii :=
  let n := nat_of_ascii c in
  if (97 <=? n)%nat && (n <=? 122)%nat then ascii_of_nat (n - 32) else c.
Definition lower_char (c : ascii) : ascii :=
  let n := nat_of_ascii c in
  if (65 <=? n)%nat && (n <=? 90)%nat then ascii_of_nat (n + 32) else c.

Fixpoint map_string (f : ascii -> ascii) (s : string) : string :=
  match s with
  | EmptyString => EmptyString
  | String c t => String (f c) (map_string f t)
  end.

(** [str.upper] and [str.lower], on ASCII text *)
Definition upper : string -> string := map_string upper_char.
Definition lower : string -> string := map_string lower_char.

Definition hex_value (c : ascii) : option Z :=
  let n := Z.of_nat (nat_of_ascii c) in
  if (48 <=? n) && (n <=? 57) then Some (n - 48)
  else if (97 <=? n) && (n <=? 102) then Some (n - 87)
  else if (65 <=? n) && (n <=? 70) then Some (n - 55)
  else None.

Fixpoint hex_digits (acc : Z) (s : string) : result Z :=
  match s with
  | EmptyString => Ok acc
  | String c t =>
      match hex_value c with
      | Some d => hex_digits (16 * acc + d) t
      | None => Raise ValueError
      end
  end.

(** [int(s, base=16)] on a string of hexadecimal digits; a sign, blanks,
    underscores or a 0x prefix, which Python accepts too, are refused. *)
Definition int16 (s : string) : result Z :=
  match s with
  | EmptyString => Raise ValueError
  | _ => hex_digits 0 s
  end.

Section Libm.
Variables (libm_cos libm_sin libm_tan libm_acos : float -> float).
Variable (libm_pow : float -> float -> float).
Variable (round8 : float -> float).             (* round(x, 8) *)

(** [math.cos] and its like raise on an infinite argument. *)
Definition trig (f : float -> float) (x : float) : result float :=
  if is_inf x then Raise ValueError else Ok (f x).

Definition acos (x : float) : result float :=
  if is_nan x then Ok x
  else if PrimFloat.leb (-1) x && PrimFloat.leb x 1 then Ok (libm_acos x)
  else Raise ValueError.

Definition sqrt (x : float) : result float :=
  if PrimFloat.ltb x 0 then Raise ValueError else Ok (PrimFloat.sqrt x).

Definition div (x y : float) : result float :=
  if PrimFloat.eqb y 0 then Raise ZeroDivisionError else Ok (PrimFloat.div x y).

(** [x ** y]; a result that overflows raises; the complex results of a
    negative base are not modelled and raise too. *)
Definition pow (x y : float) : result float :=
  let r := libm_pow x y in
  if is_nan r && negb (is_nan x) && negb (is_nan y) then Raise ValueError
  else if is_inf r && negb (is_inf x) && negb (is_inf y)
  then Raise OverflowError
  else Ok r.

(** [math.radians(x)] is [x * (pi / 180)] *)
Definition radians (x : float) : result float :=
  Ok (PrimFloat.mul x (PrimFloat.div pi 180)).

#[local] Instance python : Python float := {
  num_of_Z := of_Z;
  float_0_5 := 0.5%float;
  float_255 := 255%float;
  math_pi := pi;
  math_tau := tau;
  num_is_decimal _ := false;
  num_as_int _ := None;
  num_eq_Z x z := PrimFloat.eqb x (of_Z z);
  num_lt_Z x z := PrimFloat.ltb x (of_Z z);
  num_gt_Z x z := PrimFloat.ltb (of_Z z) x;
  num_ge_Z x z := PrimFloat.leb (of_Z z) x;
  num_in_unit x := PrimFloat.leb 0 x && PrimFloat.leb x 1;
  num_add x y := Ok (PrimFloat.add x y);
  num_sub x y := Ok (PrimFloat.sub x y);
  num_mul x y := Ok (PrimFloat.mul x y);
  num_div := div;
  num_pow := pow;
  num_neg := PrimFloat.opp;
  num_abs := PrimFloat.abs;
  num_round8 x := Ok (round8 x);
  math_sqrt := sqrt;
  math_acos := acos;
  math_cos := trig libm_cos;
  math_sin := trig libm_sin;
  math_tan := trig libm_tan;
  math_radians := radians;
  math_ceil := ceil;
  format_4f := format_4f;
  str_upper := upper;
  str_lower := lower;
  int_base16 := int16;
  num_of_Z_not_decimal _ := eq_refl
}.

End Libm.

(** The interpreter with a C library that returns its argument: for the
    computations that call none of its functions. *)
Definition plain : Python float :=
  python (fun x => x) (fun x => x) (fun x => x) (fun x => x)
         (fun x _ => x) (fun x => x).

End Binary64.

(** * Specification vocabulary *)

Section Vocabulary.
Context {Number : Type} {py : Python Number}.

Definition member (r : PathPaintRule.t) : pyval Number :=
  PyEnum (M_PathPaintRule r).

(** The registry is changed by [_get_or_set_style_dict] only: the states it
    can be in, and those that can follow a given one. *)
Inductive reachable : Registry -> Prop :=
| reachable_initial : reachable initial_registry
| reachable_step G (style_ : GraphicsStyle Number) :
    reachable G -> reachable (fst (_get_or_set_style_dict style_ G)).

Inductive later (G : Registry) : Registry -> Prop :=
| later_now : later G G
| later_step G' (style_ : GraphicsStyle Number) :
    later G G' -> later G (fst (_get_or_set_style_dict style_ G')).

(** The serialized dictionary of a style that sets no key of PDFStyleKeys. *)
Definition empty_style_dict : string := "<< /Type /ExtGState >>".

(** No key of PDFStyleKeys has a value in the style. *)
Definition no_style_key (s : GraphicsStyle Number) : Prop :=
  forall key,
    is_INHERIT (getattr s (PDFStyleKeys.value key))
    || is_None (getattr s (PDFStyleKeys.value key)) = true.

End Vocabulary.

Section StyleVocabulary.
Context {Number : Type} {py : Python Number}.
Implicit Types (s : GraphicsStyle Number) (v : pyval Number).

(** *** The values the setters store

    What each attribute of a style can hold once it was assigned through
    its property: the setters store nothing else (see
    [set_property_well_formed]). *)

Definition ok_paint_rule v : bool :=
  match v with
  | PyEllipsis | PyEnum (M_PathPaintRule _) => true
  | _ => false
  end.

Definition ok_auto_close v : bool :=
  match in_True_False_INHERIT v with Ok true => true | _ => false end.

Definition ok_intersection_rule v : bool :=
  match v with
  | PyEllipsis | PyEnum (M_IntersectionRule _) => true
  | _ => false
  end.

(** A colour object was checked by its constructor: alpha is within range. *)
Definition valid_color (c : Color Number) : bool :=
  match color_alpha c with
  | Some a => num_in_unit a
  | None => true
  end.

Definition ok_color v : bool :=
  match v with
  | PyEllipsis | PyNone => true
  | PyColor c => valid_color c
  | _ => false
  end.

Definition ok_opacity v : bool :=
  match in_None_INHERIT v with
  | Ok true => true
  | Ok false => match _check_range v with Ok _ => true | Raise _ => false end
  | Raise _ => false
  end.

Definition ok_blend_mode v : bool :=
  match v with
  | PyEllipsis => true
  | PyName n =>
      match member_by_value (E := BlendMode.t) n with
      | Some _ => true
      | None => false
      end
  | _ => false
  end.

Definition ok_stroke_width v : bool :=
  match py_as_number v with
  | Some _ => true
  | None => is_None v || is_INHERIT v
  end.

Definition ok_stroke_cap_style v : bool :=
  match v with
  | PyEllipsis | PyEnum (M_StrokeCapStyle _) => true
  | _ => false
  end.

Definition ok_stroke_join_style v : bool :=
  match v with
  | PyEllipsis | PyEnum (M_StrokeJoinStyle _) => true
  | _ => false
  end.

Definition ok_stroke_miter_limit v : bool :=
  is_INHERIT v || match py_as_number v with Some _ => true | None => false end.

(** The dash pattern and its phase are one attribute: the pair of them. *)
Definition ok_dash v : bool :=
  match v with
  | PyEllipsis => true
  | PyTuple [PyTuple _; phase] => is_float_or_int phase
  | _ => false
  end.

(** The thirteen attributes, with what each may hold. *)
Definition attribute_domains : list (string * (pyval Number -> bool)) :=
  [ ("_paint_rule", ok_paint_rule);
    ("_auto_close", ok_auto_close);
    ("_intersection_rule", ok_intersection_rule);
    ("_fill_color", ok_color);
    ("ca", ok_opacity);
    ("_stroke_color", ok_color);
    ("CA", ok_opacity);
    ("BM", ok_blend_mode);
    ("LW", ok_stroke_width);
    ("LC", ok_stroke_cap_style);
    ("LJ", ok_stroke_join_style);
    ("ML", ok_stroke_miter_limit);
    ("D", ok_dash) ].

(** A style whose attributes hold what the setters store. *)
Definition well_formed s : Prop :=
  Forall (fun d => snd d (getattr s (fst d)) = true) attribute_domains.

(** Every property of the style reads INHERIT. *)
Definition all_INHERIT s : Prop :=
  forall prop, get_property s prop = Ok INHERIT.

(** A value as a caller can pass it: a colour object is a checked one. *)
Definition valid_value v : Prop :=
  forall c, v = PyColor c -> valid_color c = true.

End StyleVocabulary.

Section MergeVocabulary.
Context {Number : Type} {py : Python Number}.
Implicit Types (s t new : GraphicsStyle Number) (v : pyval Number).

(** *** What merge computes *)

(** The value that [merge] assigns for a property. *)
Definition merged_value (parent child : GraphicsStyle Number) (prop : Property)
  : result (pyval Number) :=
  cval <- get_property child prop ;;
  (if is_INHERIT cval then get_property parent prop else Ok cval).

(** Assigning to [new] the properties of [s], in the order of
    MERGE_PROPERTIES. *)
Fixpoint copy_loop s (props : list Property) new
  : result (GraphicsStyle Number) :=
  match props with
  | [] => Ok new
  | prop :: rest =>
      v <- get_property s prop ;;
      match set_property prop new v with
      | (new, Ok _) => copy_loop s rest new
      | (_, Raise e) => Raise e
      end
  end.

(** A colour setter stores the colour, and its alpha as the opacity. *)
Definition color_stored (attr : string) (key : PDFStyleKeys.t) new v
  : GraphicsStyle Number :=
  match v with
  | PyColor c =>
      match color_alpha c with
      | Some a => setattr (setattr new attr v) (PDFStyleKeys.value key) (PyNum a)
      | None => setattr new attr v
      end
  | _ => setattr new attr v
  end.

(** The names of the attributes behind the properties. *)
Definition attribute_names : list string :=
  ["_paint_rule"; "_auto_close"; "_intersection_rule"; "_fill_color"; "ca";
   "_stroke_color"; "CA"; "BM"; "LW"; "LC"; "LJ"; "ML"; "D"].

End MergeVocabulary.

Section RenderVocabulary.
Context {Number : Type} {py : Python Number}.
Implicit Types (G : Registry) (st : RenderState) (s : GraphicsStyle Number).

(** *** The registry over time *)

(** The invariant of the reachable states. *)
Record registry_inv G : Prop := {
  inv_empty : _global_style_registry G !! empty_style_dict = Some None;
  inv_names : forall key name,
      _global_style_registry G !! key = Some (Some name) ->
      exists i : nat,
        name = "GS" ++ pretty i /\ (1 <= i < size (_global_style_registry G))%nat;
  inv_lookup : forall name key,
      _global_style_name_lookup G !! name = Some key ->
      _global_style_registry G !! key = Some (Some name);
  inv_inj : forall k1 k2 name,
      _global_style_registry G !! k1 = Some (Some name) ->
      _global_style_registry G !! k2 = Some (Some name) -> k1 = k2
}.

(** The entries of [G] are entries of [G']. *)
Definition registry_le G G' : Prop :=
  forall key name,
    _global_style_registry G !! key = Some name ->
    _global_style_registry G' !! key = Some name.

(** *** Rendering again *)

(** [f], called on an object in a state, is repeatable: it only adds to the
    registry, and called again on the object as it left it, in a registry
    that holds what it left and with [path_gsds] as it was at first, it
    returns the same, fills [path_gsds] the same and changes nothing. *)
Definition repeatable {T A : Type} (f : T -> RenderState -> Rendered T A)
  : Prop :=
  forall x st x' st' r,
    f x st = (x', st', r) ->
    registry_le (registry st) (registry st')
    /\ forall G2, registry_le (registry st') G2 ->
         f x' (mkRenderState G2 (path_gsds st))
         = (x', mkRenderState G2 (path_gsds st'), r).

Definition repeatable_renderer (render : ItemRenderer Number) : Prop :=
  forall style_ last_item,
    repeatable (fun item st => render item st style_ last_item).

(** [f], called on an object of the same content in a registry that holds
    what the first call left, returns the same and leaves the object as the
    first call left its own. *)
Definition stable {T A : Type} (f : T -> RenderState -> Rendered T A) : Prop :=
  forall x st x' st' r,
    f x st = (x', st', r) ->
    forall G2, registry_le (registry st') G2 ->
      f x (mkRenderState G2 (path_gsds st))
      = (x', mkRenderState G2 (path_gsds st'), r).

Definition stable_renderer (render : ItemRenderer Number) : Prop :=
  forall style_ last_item,
    stable (fun item st => render item st style_ last_item).

(** The clipping path of [build_render_list]: the clipping path as it is
    left, the state, and the render list or the exception. *)
Definition render_clip (render : ItemRenderer Number)
  (clip : option (Item Number)) st
  (merged_style : GraphicsStyle Number) (last_item : PathElement Number)
  (render_list : list string) : Rendered (option (Item Number)) (list string) :=
  match clip with
  | None => (None, st, Ok render_list)
  | Some cp =>
      match render cp st merged_style last_item with
      | (cp, st, Raise e) => (Some cp, st, Raise e)
      | (cp, st, Ok (rendered_cpath, _)) =>
          (Some cp, st, Ok (append_rendered render_list rendered_cpath))
      end
  end.

(** *** The recursion limit *)

Definition is_RecursionError {A : Type} (r : result A) : bool :=
  match r with
  | Raise RecursionError => true
  | _ => false
  end.

(** The call did not run into the recursion limit. *)
Definition within_depth {T S A : Type} (out : T * S * result A) : Prop :=
  is_RecursionError (snd out) = false.

(** [render'] renders as [render] does wherever [render] stays within its
    depth. *)
Definition deepens (render render' : ItemRenderer Number) : Prop :=
  forall item st style_ last_item,
    within_depth (render item st style_ last_item) ->
    render' item st style_ last_item = render item st style_ last_item.

End RenderVocabulary.

(** *** Sweeps on floats: 270 and 90 degrees in radians *)


(** ** Concrete inputs

    Styles, paths and drawings on binary64 floats, on which the definitions
    are evaluated. *)

Module Examples.
Import Binary64.
#[local] Existing Instance plain.
#[local] Open Scope float_scope.

(** [s = GraphicsStyle(); s.paint_rule = AUTO; s.stroke_width = 1;
    s.stroke_color = "#000000"; s.fill_color = None] *)
Definition stroked : GraphicsStyle float :=
  let s := fst (set_paint_rule ∅ AUTO) in
  let s := fst (set_stroke_width s (PyNum 1)) in
  let s := fst (set_stroke_color s (PyStr "#000000")) in
  fst (set_fill_color s PyNone).

(** [s = GraphicsStyle(); s.fill_color = "#ff000080"; s.stroke_width = 2;
    s.stroke_dash_pattern = (3, 1)] *)
Definition dashed : GraphicsStyle float :=
  let s := fst (set_fill_color ∅ (PyStr "#ff000080")) in
  let s := fst (set_stroke_width s (PyNum 2)) in
  fst (set_stroke_dash_pattern s (PyTuple [PyNum 3; PyNum 1])).

(** [PaintedPath(0, 0)] and two lines *)
Definition open_path : PaintedPath float :=
  line_to (line_to (PaintedPath_new 0 0) 1 2) 3 4.

(** The same path with [dashed] as its style. *)
Definition dashed_path : PaintedPath float :=
  with_root open_path (set_style (_root_graphics_context open_path) dashed).

Definition drawing : DrawingContext float :=
  mkDrawingContext [IPath dashed_path; IPath open_path].

(** The registry after one style was registered. *)
Definition one_style : Registry :=
  fst (_get_or_set_style_dict dashed initial_registry).

End Examples.

(** ** More vocabulary: styles *)

Section StyleVocabulary2.
Context {Number : Type} {py : Python Number}.
Implicit Types (s t parent child : GraphicsStyle Number) (v : pyval Number).

(** The attribute that [merge] leaves: the child's unless it is INHERIT. *)
Definition inherited_attribute parent child (key : string) : pyval Number :=
  if is_INHERIT (getattr child key) then getattr parent key
  else getattr child key.

(** The child's attributes over the parent's. *)
Definition overlay parent child : GraphicsStyle Number :=
  foldr (fun key acc => setattr acc key (inherited_attribute parent child key))
        ∅ attribute_names.

(** The styles that property assignments build from [GraphicsStyle()],
    whether the assignments return or raise. *)
Inductive assigned : GraphicsStyle Number -> Prop :=
| assigned_new : assigned ∅
| assigned_set prop s v :
    assigned s -> valid_value v -> assigned (fst (set_property prop s v)).


End StyleVocabulary2.

(** ** More vocabulary: the registry *)

Section RegistryVocabulary2.
Context {Number : Type} {py : Python Number}.
Implicit Types (G : Registry).

(** The two mappings of a reachable registry, read from the names. *)
Record registry_book G : Prop := {
  book_reverse : forall key name,
      _global_style_registry G !! key = Some (Some name) ->
      _global_style_name_lookup G !! name = Some key;
  book_names : forall i : nat,
      (1 <= i < size (_global_style_registry G))%nat ->
      is_Some (_global_style_name_lookup G !! ("GS" ++ pretty i));
  book_none : forall key,
      _global_style_registry G !! key = Some None -> key = empty_style_dict
}.

End RegistryVocabulary2.

(** ** More vocabulary: coercion *)

Section CoercionVocabulary.
Context {Number : Type} {py : Python Number}.

(** [coerce] gives back every member from the member itself, from its
    value, and from its name in any case. *)
Definition coerce_round_trip (E : Type) `{CoerciveEnum E} : Prop :=
  forall m : E,
    CoerciveEnum_coerce (PyEnum (enum_inject m) : pyval Number) = Ok m
    /\ CoerciveEnum_coerce (PyStr (enum_value m) : pyval Number) = Ok m
    /\ forall s, str_upper s = enum_name m ->
         CoerciveEnum_coerce (PyStr s : pyval Number) = Ok m.

(** The same for an IntEnum, whose members are ints: a bool and a member of
    another IntEnum convert by their int value. *)
Definition coerce_int_round_trip (E : Type) `{CoerciveIntEnum E} : Prop :=
  forall m : E,
    CoerciveIntEnum_coerce (PyEnum (enum_inject m) : pyval Number) = Ok m
    /\ (forall s, str_upper s = enum_name m ->
          CoerciveIntEnum_coerce (PyStr s : pyval Number) = Ok m)
    /\ (forall other : EnumMember,
          member_as_int other = Some (enum_int_value m) ->
          CoerciveIntEnum_coerce (PyEnum other : pyval Number) = Ok m)
    /\ (forall b : bool, Z.b2z b = enum_int_value m ->
          CoerciveIntEnum_coerce (PyBool b : pyval Number) = Ok m).

(** [hexstr.startswith("#")] *)
Definition starts_with_hash (hexstr : string) : bool :=
  match hexstr with
  | String "#" _ => true
  | _ => false
  end.

End CoercionVocabulary.

(** ** More vocabulary: rendering *)

Section RenderVocabulary2.
Context {Number : Type} {py : Python Number}.
Implicit Types (G : Registry) (st : RenderState) (s : GraphicsStyle Number).

(** The element has an [end_point]: it is a Move, a Line or a curve. *)
Definition has_end_point (item : PathElement Number) : bool :=
  match end_point item with
  | Ok _ => true
  | Raise _ => false
  end.

(** The absolute element that a relative element stands for, after an
    element that ends at [last_point]; [None] for an element that is not
    relative. *)
Definition absolute_of (item : PathElement Number) (last_point : Point Number)
  : option (result (PathElement Number)) :=
  match item with
  | RelativeMove pt => Some (p <- Point_add last_point pt ;; Ok (Move p))
  | RelativeLine pt => Some (p <- Point_add last_point pt ;; Ok (Line p))
  | RelativeHorizontalLine x =>
      Some (nx <- num_add (Point_x last_point) x ;; Ok (HorizontalLine nx))
  | RelativeVerticalLine y =>
      Some (ny <- num_add (Point_y last_point) y ;; Ok (VerticalLine ny))
  | RelativeBezierCurve c1 c2 e =>
      Some (c1 <- Point_add last_point c1 ;;
            c2 <- Point_add last_point c2 ;;
            e <- Point_add last_point e ;;
            Ok (BezierCurve c1 c2 e))
  | RelativeQuadraticBezierCurve ctrl e =>
      Some (ctrl <- Point_add last_point ctrl ;;
            e <- Point_add last_point e ;;
            Ok (QuadraticBezierCurve ctrl e))
  | RelativeArc radii rotation large sweep e =>
      Some (e <- Point_add last_point e ;;
            Ok (Arc radii rotation large sweep e))
  | _ => None
  end.

(** What a rendering keeps: [I] of the state, whatever the outcome, and [L]
    of the previous element that it returns. *)
Definition keeps {T A : Type} (I : RenderState -> Prop)
  (L : PathElement Number -> Prop) (st : RenderState)
  (last_item : PathElement Number)
  (out : Rendered T (A * PathElement Number)) : Prop :=
  I st -> L last_item ->
  I (snd (fst out))
  /\ match snd out with
     | Ok (_, last_item) => L last_item
     | Raise _ => True
     end.

Definition keeping (I : RenderState -> Prop) (L : PathElement Number -> Prop)
  (render : ItemRenderer Number) : Prop :=
  forall item st style_ last_item,
    keeps I L st last_item (render item st style_ last_item).

(** The names in [path_gsds] are distinct and registered. *)
Definition names_registered st : Prop :=
  reachable (registry st)
  /\ NoDup (path_gsds st)
  /\ forall name, In name (path_gsds st) ->
       is_Some (_global_style_name_lookup (registry st) !! name).

End RenderVocabulary2.

(** ** More vocabulary: paths *)

Section PathVocabulary.
Context {Number : Type} {py : Python Number}.
Implicit Types (p : PaintedPath Number).

(** No [transform_group] is open, and the subpath is to be closed in the
    root context: the path is built by the drawing methods alone. *)
Definition flat p : Prop :=
  _open_contexts p = [] /\ _close_context p = Some (O, []).

(** The items of the path's root context. *)
Definition root_items p : list (Item Number) :=
  path_items (_root_graphics_context p).


(** The style that [DrawingContext._setup_render_prereqs] builds. *)
Definition root_style : GraphicsStyle Number :=
  let s := fst (set_auto_close ∅ (PyBool true)) in
  let s := fst (set_paint_rule s AUTO) in
  fst (set_intersection_rule s
         (PyEnum (M_IntersectionRule IntersectionRule.NONZERO))).

(** The last character of a string, if it has one. *)
Fixpoint last_char (s : string) : option ascii :=
  match s with
  | EmptyString => None
  | String a EmptyString => Some a
  | String _ t => last_char t
  end.

(** The values that [render_pdf_primitive] has a representation for. *)
Fixpoint renderable (v : pyval Number) : bool :=
  match v with
  | PyRaw _ | PyName _ | PyStr _ | PyBytes _ | PyBool _ | PyNum _ | PyNone
  | PyColor _ => true
  | PyCustom pdf_repr =>
      match pdf_repr with Ok _ => true | Raise _ => false end
  | PyEnum m => match member_as_int m with Some _ => true | None => false end
  | PyList l | PyTuple l => forallb renderable l
  | PyDict items =>
      forallb (fun kv : pyval Number * pyval Number =>
                 let '(key, val) := kv in
                 match key with
                 | PyName _ => renderable val
                 | _ => false
                 end) items
  | PyEllipsis | PyObject => false
  end.

End PathVocabulary.

(** ** More concrete inputs *)

Module MoreExamples.
Import Binary64.
#[local] Existing Instance plain.
#[local] Open Scope float_scope.

(** [c = ClippingPath(0, 0); c.line_to(1, 0); c.line_to(1, 1)] *)
Definition clip : PaintedPath float :=
  match ClippingPath_new 0 0 with
  | Ok p => line_to (line_to p 1 0) 1 1
  | Raise _ => PaintedPath_new 0 0
  end.

(** A group with a style and no item. *)
Definition empty_group : GraphicsContext float :=
  set_style GraphicsContext_new Examples.dashed.

(** [DeviceGray(0.5, 0.25)] *)
Definition gray : Color float := DeviceGray 0.5 (Some 0.25).

End MoreExamples.

(** ** More vocabulary: sweeps *)

Section SweepVocabulary.
Context {Number : Type} {py : Python Number}.


End SweepVocabulary.



(** * Properties *)

Section Properties.
Context {Number : Type} {py : Python Number}.

Implicit Types (s : GraphicsStyle Number) (v : pyval Number).

(** ** Paint-rule resolution *)

Lemma resolve_paint_rule_auto s :
  paint_rule s = AUTO ->
  resolve_paint_rule s =
    (want <- want_set s ;;
     Ok (member (default PathPaintRule.STROKE_FILL_NONZERO
                         (paint_rule_lookup want)))).
Proof.
  intros H. unfold resolve_paint_rule. rewrite H. simpl.
  destruct (want_set s) as [want|e]; simpl; [|reflexivity].
  destruct (paint_rule_lookup want); reflexivity.
Qed.

(** C1. With [paint_rule] AUTO, a style resolves to STROKE when the stroke
    width and the stroke colour are set (not None) and the fill colour is
    unset (None); to FILL_NONZERO when the fill colour is set, the stroke is
    not (its width or its colour is None) and the intersection rule is
    NONZERO; to DONT_PAINT when neither is set; and to STROKE_FILL_NONZERO
    whenever the want-set it builds is no key of [_PAINT_RULE_LOOKUP]. *)
Theorem C1_resolve_paint_rule_auto s :
  paint_rule s = AUTO ->
  (is_None (stroke_width s) = false -> is_None (stroke_color s) = false ->
   is_None (fill_color s) = true ->
   resolve_paint_rule s = Ok (member PathPaintRule.STROKE))
  /\ (is_None (fill_color s) = false ->
      is_None (stroke_width s) || is_None (stroke_color s) = true ->
      intersection_rule s = PyEnum (M_IntersectionRule IntersectionRule.NONZERO) ->
      resolve_paint_rule s = Ok (member PathPaintRule.FILL_NONZERO))
  /\ (is_None (fill_color s) = true ->
      is_None (stroke_width s) || is_None (stroke_color s) = true ->
      resolve_paint_rule s = Ok (member PathPaintRule.DONT_PAINT))
  /\ (forall want, want_set s = Ok want -> paint_rule_lookup want = None ->
      resolve_paint_rule s = Ok (member PathPaintRule.STROKE_FILL_NONZERO)).
Proof.
  intros Hauto. rewrite (resolve_paint_rule_auto s Hauto).
  repeat split.
  - intros Hw Hc Hf. unfold want_set. rewrite Hw, Hc, Hf. reflexivity.
  - intros Hf Hs Hi. unfold want_set. rewrite Hf, Hi.
    apply orb_true_iff in Hs.
    assert (negb (is_None (stroke_width s)) && negb (is_None (stroke_color s))
            = false) as ->.
    { destruct Hs as [-> | ->]; simpl; [reflexivity | apply andb_false_r]. }
    reflexivity.
  - intros Hf Hs. unfold want_set. rewrite Hf.
    apply orb_true_iff in Hs.
    assert (negb (is_None (stroke_width s)) && negb (is_None (stroke_color s))
            = false) as ->.
    { destruct Hs as [-> | ->]; simpl; [reflexivity | apply andb_false_r]. }
    reflexivity.
  - intros want Hw Hl. rewrite Hw. simpl. rewrite Hl. reflexivity.
Qed.

(** A style that sets nothing but the paint rule inherits its colours and
    its stroke width: they are not None, the want-set holds INHERIT and is
    no key of the table. *)
Lemma resolve_paint_rule_all_inherited :
  resolve_paint_rule (setattr (∅ : GraphicsStyle Number) "_paint_rule" AUTO)
  = Ok (member PathPaintRule.STROKE_FILL_NONZERO).
Proof. reflexivity. Qed.

(** ** Close and ImplicitClose *)

(** C7. [Close.render] always emits "h"; [ImplicitClose.render] emits "h"
    when the style's [auto_close] is true and the empty string when it is
    false (for any value, by its truth value); both return [last_item]
    unchanged. *)
Theorem C7_close_render s (last_item : PathElement Number) :
  render_element Close s last_item = Ok ("h", last_item)
  /\ render_element ImplicitClose s last_item
     = Ok (if truthy (auto_close s) then "h" else EmptyString, last_item)
  /\ (forall b : bool, auto_close s = PyBool b ->
      render_element ImplicitClose s last_item
      = Ok (if b then "h" else EmptyString, last_item)).
Proof.
  split; [reflexivity|]. split.
  - simpl. destruct (truthy (auto_close s)); reflexivity.
  - intros b Hb. simpl. rewrite Hb. simpl. destruct b; reflexivity.
Qed.

(** ** The empty drawing *)

(** C8. A DrawingContext with no sub-items renders to the empty operator
    string and no resource name, whatever the first point, the scale and the
    page height; nothing is changed. *)
Theorem C8_render_empty (depth : nat) (first_point : Point Number)
  (scale height : Number) (G : Registry) :
  DrawingContext_render depth (mkDrawingContext []) first_point scale height G
  = (mkDrawingContext [], G, Ok (EmptyString, [])).
Proof. reflexivity. Qed.

(** ** Assigning None to paint_rule *)

Lemma PathPaintRule_coerce_None :
  CoerciveEnum_coerce (E := PathPaintRule.t) (PyNone : pyval Number)
  = Raise TypeError.
Proof. reflexivity. Qed.


(** What the failed assignment leaves behind. *)
Lemma paint_rule_after_None s :
  paint_rule (fst (set_paint_rule s PyNone)) = member PathPaintRule.DONT_PAINT.
Proof.
  unfold set_paint_rule, paint_rule, getattr, setattr. simpl.
  rewrite lookup_insert_eq. reflexivity.
Qed.

(** ** Plain strings as primitives *)

(** C10. Every plain str renders to the text of the builtin [str] type in
    parentheses, whatever its characters. *)
Theorem C10_render_str_constant (text : string) :
  render_pdf_primitive (PyStr text : pyval Number) = Ok "(<class 'str'>)".
Proof. reflexivity. Qed.

(** ** Degenerate arcs *)

(** C3. With [rx == 0] or [ry == 0], [arc_to] returns what [line_to] to the
    same end point returns, and [arc_relative] what [line_relative] returns:
    the same path object state, hence the same items appended and the same
    rendering. *)
Theorem C3_degenerate_arc_is_line (p : PaintedPath Number)
  (rx ry rotation : Number) (large_arc positive_sweep : pyval Number)
  (x y : Number) :
  num_eq_Z rx 0 = true \/ num_eq_Z ry 0 = true ->
  arc_to p rx ry rotation large_arc positive_sweep x y = Ok (line_to p x y)
  /\ arc_relative p rx ry rotation large_arc positive_sweep x y
     = Ok (line_relative p x y)
  /\ (forall q, arc_to p rx ry rotation large_arc positive_sweep x y = Ok q ->
      forall depth st style_ last_item,
        render_item depth (IPath q) st style_ last_item
        = render_item depth (IPath (line_to p x y)) st style_ last_item).
Proof.
  intros H.
  assert (num_eq_Z rx 0 || num_eq_Z ry 0 = true) as Hz.
  { apply orb_true_iff. exact H. }
  unfold arc_to, arc_relative. rewrite Hz. repeat split.
  intros q [= <-]. reflexivity.
Qed.

End Properties.

(** ** The style registry *)

Section RegistryProperties.
Context {Number : Type} {py : Python Number}.
Implicit Types (s : GraphicsStyle Number) (G : Registry).

(** The cases of [_get_or_set_style_dict]. *)
Ltac get_or_set_cases s G sdict E :=
  unfold _get_or_set_style_dict;
  destruct (to_pdf_dict s) as [sdict|?];
  [ destruct (negb (truthy (PyRaw sdict)));
    [ | destruct (_global_style_registry G !! sdict) eqn:E ] | ];
  cbn [fst snd _global_style_registry _global_style_name_lookup].

Lemma to_pdf_dict_empty s : no_style_key s -> to_pdf_dict s = Ok empty_style_dict.
Proof.
  intros H. unfold to_pdf_dict.
  assert (forall key,
            negb (is_INHERIT (getattr s (PDFStyleKeys.value key)))
            && negb (is_None (getattr s (PDFStyleKeys.value key))) = false) as E.
  { intros key. specialize (H key). apply orb_true_iff in H.
    destruct H as [-> | ->]; simpl; [reflexivity | apply andb_false_r]. }
  unfold PDFStyleKeys.members. cbn [omap list_omap].
  rewrite !E. reflexivity.
Qed.

Lemma initial_registry_eq :
  initial_registry (Number := Number) = mkRegistry {[ empty_style_dict := None ]} ∅.
Proof. reflexivity. Qed.

(** An entry of the registry stays as it is. *)
Lemma registry_kept s G key name :
  _global_style_registry G !! key = Some name ->
  _global_style_registry (fst (_get_or_set_style_dict s G)) !! key = Some name.
Proof.
  intros H. get_or_set_cases s G sdict E; try exact H.
  rewrite lookup_insert_ne; [exact H|]. intros ->. congruence.
Qed.

Lemma later_registry_kept G G' key name :
  later G G' ->
  _global_style_registry G !! key = Some name ->
  _global_style_registry G' !! key = Some name.
Proof.
  induction 1 as [|G' s _ IH]; intros H; [exact H|].
  apply registry_kept, IH, H.
Qed.

(** What a call returned, it returns at any later time, and adds nothing. *)
Lemma same_name_later s1 s2 G G1 G' name :
  _get_or_set_style_dict s1 G = (G1, Ok name) ->
  later G1 G' ->
  to_pdf_dict s2 = to_pdf_dict s1 ->
  _get_or_set_style_dict s2 G' = (G', Ok name).
Proof.
  unfold _get_or_set_style_dict. intros H HL ->.
  destruct (to_pdf_dict s1) as [sdict|e]; [|discriminate].
  destruct (negb (truthy (PyRaw sdict))); [congruence|].
  assert (_global_style_registry G1 !! sdict = Some name) as E1.
  { destruct (_global_style_registry G !! sdict) eqn:E.
    - injection H as <- <-. exact E.
    - injection H as <- <-. simpl. apply lookup_insert_eq. }
  rewrite (later_registry_kept _ _ _ _ HL E1). reflexivity.
Qed.

Lemma GS_inj (i j : nat) : "GS" ++ pretty i = "GS" ++ pretty j -> i = j.
Proof. intros [= H]. exact (inj pretty _ _ H). Qed.

Lemma registry_inv_initial : registry_inv (initial_registry (Number := Number)).
Proof.
  rewrite initial_registry_eq. split; simpl.
  - apply lookup_singleton_eq.
  - intros key name H. apply lookup_singleton_Some in H as [_ [=]].
  - intros name key H. rewrite lookup_empty in H. discriminate.
  - intros k1 k2 name H. apply lookup_singleton_Some in H as [_ [=]].
Qed.

Lemma registry_inv_step s G :
  registry_inv G -> registry_inv (fst (_get_or_set_style_dict s G)).
Proof.
  intros I. get_or_set_cases s G sdict E; try exact I.
  assert (size (_global_style_registry G) >= 1)%nat as Hsize.
  { destruct (decide (size (_global_style_registry G) = 0%nat)) as [Hz|]; [|lia].
    apply map_size_empty_iff in Hz. pose proof (inv_empty G I) as H0.
    rewrite Hz, lookup_empty in H0. discriminate. }
  assert (forall key, _global_style_registry G !! key
                      <> Some (Some (_new_global_style_name G))) as Hfresh.
  { intros key Hk. destruct (inv_names G I _ _ Hk) as (i & Hi & Hlt).
    apply GS_inj in Hi. lia. }
  split; cbn [_global_style_registry _global_style_name_lookup].
  - rewrite lookup_insert_ne; [apply (inv_empty G I)|].
    intros Heq. rewrite Heq, (inv_empty G I) in E. discriminate.
  - intros key name. rewrite map_size_insert_None by exact E.
    rewrite lookup_insert. case_decide as Hk.
    + intros [= <-]. exists (size (_global_style_registry G)).
      split; [reflexivity | lia].
    + intros H. destruct (inv_names G I _ _ H) as (i & Hi & Hlt).
      exists i. split; [exact Hi | lia].
  - intros name key. rewrite lookup_insert. case_decide as Hn.
    + intros [= <-]. subst name. apply lookup_insert_eq.
    + intros H. pose proof (inv_lookup G I _ _ H) as Hr.
      rewrite lookup_insert_ne; [exact Hr|]. intros <-. congruence.
  - intros k1 k2 name H1 H2. rewrite lookup_insert in H1, H2.
    destruct (decide (sdict = k1)) as [E1|N1], (decide (sdict = k2)) as [E2|N2].
    + congruence.
    + injection H1 as <-. exfalso. exact (Hfresh _ H2).
    + injection H2 as <-. exfalso. exact (Hfresh _ H1).
    + exact (inv_inj G I _ _ _ H1 H2).
Qed.

Lemma reachable_inv G : reachable G -> registry_inv G.
Proof.
  induction 1; [apply registry_inv_initial | apply registry_inv_step; assumption].
Qed.

(** An entry of the reverse mapping stays as it is, in a reachable state. *)
Lemma name_lookup_kept s G name key :
  registry_inv G ->
  _global_style_name_lookup G !! name = Some key ->
  _global_style_name_lookup (fst (_get_or_set_style_dict s G)) !! name = Some key.
Proof.
  intros I H. get_or_set_cases s G sdict E; try exact H.
  rewrite lookup_insert_ne; [exact H|]. intros Hn.
  pose proof (inv_lookup G I _ _ H) as Hr. rewrite <- Hn in Hr.
  destruct (inv_names G I _ _ Hr) as (i & Hi & Hlt).
  apply GS_inj in Hi. lia.
Qed.

Lemma registry_book_initial :
  registry_book (initial_registry (Number := Number)).
Proof.
  rewrite initial_registry_eq. split; simpl.
  - intros key name H. apply lookup_singleton_Some in H as [_ [=]].
  - intros i. rewrite map_size_singleton. lia.
  - intros key H. apply lookup_singleton_Some in H as [<- _]. reflexivity.
Qed.

Lemma registry_book_step s G :
  registry_inv G -> registry_book G ->
  registry_book (fst (_get_or_set_style_dict s G)).
Proof.
  intros I B. get_or_set_cases s G sdict E; try exact B.
  assert (forall key, _global_style_registry G !! key
                      <> Some (Some (_new_global_style_name G))) as Hfresh.
  { intros key Hk. destruct (inv_names G I _ _ Hk) as (i & Hi & Hlt).
    apply GS_inj in Hi. lia. }
  split; cbn [_global_style_registry _global_style_name_lookup].
  - intros key name. rewrite lookup_insert. case_decide as Hk.
    + intros [= <-]. subst key. apply lookup_insert_eq.
    + intros H. rewrite lookup_insert_ne.
      * apply (book_reverse G B), H.
      * intros Hn. apply (Hfresh key). rewrite Hn. exact H.
  - intros i. rewrite map_size_insert_None by exact E. intros Hi.
    destruct (decide (i = size (_global_style_registry G))) as [->|Hne].
    + unfold _new_global_style_name. rewrite lookup_insert_eq. eauto.
    + rewrite lookup_insert_ne.
      * apply (book_names G B). lia.
      * unfold _new_global_style_name. intros Hn. apply GS_inj in Hn. lia.
  - intros key. rewrite lookup_insert. case_decide as Hk; [discriminate|].
    apply (book_none G B).
Qed.

Lemma reachable_book G : reachable G -> registry_book G.
Proof.
  induction 1 as [|G s HR IH]; [apply registry_book_initial|].
  apply registry_book_step; [apply reachable_inv, HR | exact IH].
Qed.

Lemma later_reachable G G' : reachable G -> later G G' -> reachable G'.
Proof.
  intros HR. induction 1 as [|G' s _ IH]; [exact HR|].
  apply reachable_step, IH.
Qed.

(** The serialized dictionary is never the empty string. *)
Lemma to_pdf_dict_truthy s sdict :
  to_pdf_dict s = Ok sdict -> truthy (PyRaw sdict : pyval Number) = true.
Proof.
  unfold to_pdf_dict. cbn [render_pdf_primitive bind]. intros E.
  match type of E with
  | context [bind (?go (omap ?f ?l)) _] =>
      destruct (go (omap f l)) as [rest|]; [|discriminate]
  end.
  cbn [bind] in E. injection E as <-. reflexivity.
Qed.

(** What a call that returns a name leaves in the two mappings. *)
Lemma get_or_set_interned s G G1 name sdict :
  reachable G ->
  _get_or_set_style_dict s G = (G1, Ok (Some name)) ->
  to_pdf_dict s = Ok sdict ->
  _global_style_registry G1 !! sdict = Some (Some name)
  /\ _global_style_name_lookup G1 !! name = Some sdict.
Proof.
  intros HR H Hs.
  assert (reachable G1) as HR1.
  { replace G1 with (fst (_get_or_set_style_dict s G)) by (rewrite H; reflexivity).
    apply reachable_step, HR. }
  pose proof (reachable_book G1 HR1) as B1.
  unfold _get_or_set_style_dict in H. rewrite Hs in H.
  destruct (negb (truthy (PyRaw sdict))); [discriminate|].
  assert (_global_style_registry G1 !! sdict = Some (Some name)) as E1.
  { destruct (_global_style_registry G !! sdict) eqn:E.
    - injection H as <- ->. exact E.
    - injection H as <- <-. simpl. apply lookup_insert_eq. }
  split; [exact E1 | exact (book_reverse G1 B1 _ _ E1)].
Qed.

(** C6. In every state the registry can be in: a call keeps every entry of
    the registry and of the reverse mapping as it is; the name it returns
    for a serialized content is returned for that content at any later time,
    without a new entry; a name it generates is GS followed by the number of
    entries, and is looked up to the content; two contents never share a
    name; and a style that sets no key of the dictionary gets no name and
    no entry.  A content that is not registered yet is interned by the
    call: it is entered in both mappings under the new name, one entry
    more; whatever name a call returns, the content is registered under it
    afterwards; and styles of different contents get different names,
    whenever they are registered. *)
Theorem C6_registry_interning G :
  reachable G ->
  (forall s key name,
      _global_style_registry G !! key = Some name ->
      _global_style_registry (fst (_get_or_set_style_dict s G)) !! key = Some name)
  /\ (forall s name key,
      _global_style_name_lookup G !! name = Some key ->
      _global_style_name_lookup (fst (_get_or_set_style_dict s G)) !! name
      = Some key)
  /\ (forall s1 s2 G1 G' name,
      _get_or_set_style_dict s1 G = (G1, Ok name) ->
      later G1 G' ->
      to_pdf_dict s2 = to_pdf_dict s1 ->
      _get_or_set_style_dict s2 G' = (G', Ok name))
  /\ (forall s G1 name,
      _get_or_set_style_dict s G = (G1, Ok (Some name)) ->
      (exists i : nat, name = "GS" ++ pretty i)
      /\ (G1 = G \/ name = "GS" ++ pretty (size (_global_style_registry G)))
      /\ (G1 <> G -> Ok (A := string) <$> _global_style_name_lookup G1 !! name
                     = Some (to_pdf_dict s)))
  /\ (forall k1 k2 name,
      _global_style_registry G !! k1 = Some (Some name) ->
      _global_style_registry G !! k2 = Some (Some name) -> k1 = k2)
  /\ (forall s, no_style_key s -> _get_or_set_style_dict s G = (G, Ok None))
  /\ (forall s sdict,
      to_pdf_dict s = Ok sdict ->
      _global_style_registry G !! sdict = None ->
      let name := "GS" ++ pretty (size (_global_style_registry G)) in
      _get_or_set_style_dict s G
      = (mkRegistry (<[sdict := Some name]> (_global_style_registry G))
                    (<[name := sdict]> (_global_style_name_lookup G)),
         Ok (Some name))
      /\ size (_global_style_registry (fst (_get_or_set_style_dict s G)))
         = S (size (_global_style_registry G))
      /\ _global_style_name_lookup G !! name = None)
  /\ (forall s G1 name sdict,
      _get_or_set_style_dict s G = (G1, Ok (Some name)) ->
      to_pdf_dict s = Ok sdict ->
      _global_style_registry G1 !! sdict = Some (Some name)
      /\ _global_style_name_lookup G1 !! name = Some sdict)
  /\ (forall s1 s2 G1 G' G2 name1 name2,
      _get_or_set_style_dict s1 G = (G1, Ok (Some name1)) ->
      later G1 G' ->
      _get_or_set_style_dict s2 G' = (G2, Ok (Some name2)) ->
      to_pdf_dict s1 <> to_pdf_dict s2 ->
      name1 <> name2).
Proof.
  intros HR. pose proof (reachable_inv G HR) as I.
  split; [intros; apply registry_kept; assumption|].
  split; [intros; apply name_lookup_kept; assumption|].
  split; [intros; eapply same_name_later; eassumption|].
  split; [|split; [apply (inv_inj G I)|]].
  - intros s G1 name. unfold _get_or_set_style_dict.
    destruct (to_pdf_dict s) as [sdict|e]; [|discriminate].
    destruct (negb (truthy (PyRaw sdict))); [discriminate|].
    destruct (_global_style_registry G !! sdict) as [old|] eqn:E.
    + intros [= <- ->]. split; [|split; [left; reflexivity | congruence]].
      destruct (inv_names G I _ _ E) as (i & Hi & _). exists i. exact Hi.
    + intros [= <- <-]. split; [eexists; reflexivity|].
      split; [right; reflexivity|]. intros _. simpl.
      rewrite lookup_insert_eq. reflexivity.
  - split; [|split; [|split]].
    + intros s Hs. unfold _get_or_set_style_dict.
      rewrite (to_pdf_dict_empty s Hs). simpl.
      rewrite (inv_empty G I). reflexivity.
    + intros s sdict Hs Hnone. cbv zeta.
      assert (_get_or_set_style_dict s G
              = (mkRegistry
                   (<[sdict := Some (_new_global_style_name G)]>
                      (_global_style_registry G))
                   (<[_new_global_style_name G := sdict]>
                      (_global_style_name_lookup G)),
                 Ok (Some (_new_global_style_name G)))) as E.
      { unfold _get_or_set_style_dict. rewrite Hs.
        rewrite (to_pdf_dict_truthy s sdict Hs). cbn [negb].
        rewrite Hnone. reflexivity. }
      split; [exact E|]. split.
      * rewrite E. cbn [fst _global_style_registry].
        apply map_size_insert_None, Hnone.
      * destruct (_global_style_name_lookup G
                    !! ("GS" ++ pretty (size (_global_style_registry G))))
          as [key|] eqn:El; [|reflexivity].
        exfalso. apply (inv_lookup G I) in El.
        destruct (inv_names G I _ _ El) as (i & Hi & Hlt).
        apply GS_inj in Hi. lia.
    + intros s G1 name sdict H Hs.
      exact (get_or_set_interned s G G1 name sdict HR H Hs).
    + intros s1 s2 G1 G' G2 name1 name2 H1 HL H2 Hne Heq. subst name2.
      assert (reachable G1) as HR1.
      { replace G1 with (fst (_get_or_set_style_dict s1 G))
          by (rewrite H1; reflexivity).
        apply reachable_step, HR. }
      pose proof (later_reachable G1 G' HR1 HL) as HR'.
      assert (reachable G2) as HR2.
      { replace G2 with (fst (_get_or_set_style_dict s2 G'))
          by (rewrite H2; reflexivity).
        apply reachable_step, HR'. }
      destruct (to_pdf_dict s1) as [d1|e1] eqn:E1.
      2:{ unfold _get_or_set_style_dict in H1. rewrite E1 in H1. discriminate. }
      destruct (to_pdf_dict s2) as [d2|e2] eqn:E2.
      2:{ unfold _get_or_set_style_dict in H2. rewrite E2 in H2. discriminate. }
      destruct (get_or_set_interned s1 G G1 name1 d1 HR H1 E1) as [R1 _].
      destruct (get_or_set_interned s2 G' G2 name1 d2 HR' H2 E2) as [R2 _].
      assert (later G1 G2) as HL2.
      { replace G2 with (fst (_get_or_set_style_dict s2 G'))
          by (rewrite H2; reflexivity).
        apply later_step, HL. }
      pose proof (later_registry_kept _ _ _ _ HL2 R1) as R1'.
      pose proof (inv_inj G2 (reachable_inv G2 HR2) _ _ _ R1' R2) as Hd.
      apply Hne. rewrite Hd. reflexivity.
Qed.

(** From the module's initial state the first name is GS1: the entry of the
    empty dictionary counts. *)
Lemma first_name_is_GS1 s sdict :
  to_pdf_dict s = Ok sdict -> sdict <> empty_style_dict -> sdict <> EmptyString ->
  snd (_get_or_set_style_dict s initial_registry) = Ok (Some "GS1").
Proof.
  intros H Hne Hnz. unfold _get_or_set_style_dict. rewrite H.
  assert (truthy (PyRaw sdict : pyval Number) = true) as ->.
  { simpl. destruct sdict; [congruence | reflexivity]. }
  cbn [negb]. rewrite initial_registry_eq.
  cbn [_global_style_registry _global_style_name_lookup].
  rewrite lookup_singleton_ne; [reflexivity|].
  intros Heq. apply Hne. symmetry. exact Heq.
Qed.

End RegistryProperties.

(** ** Merging styles *)

Section MergeProperties.
Context {Number : Type} {py : Python Number}.
Implicit Types (s t new : GraphicsStyle Number) (v : pyval Number).

Lemma merged_value_child s t prop :
  all_INHERIT t -> merged_value t s prop = get_property s prop.
Proof.
  intros Ht. unfold merged_value.
  destruct (get_property s prop) as [cval|e]; simpl; [|reflexivity].
  destruct cval; simpl; try reflexivity. apply Ht.
Qed.

Lemma merged_value_parent s t prop :
  all_INHERIT t -> merged_value s t prop = get_property s prop.
Proof. intros Ht. unfold merged_value. rewrite Ht. reflexivity. Qed.

Lemma merge_loop_copy parent child s props new :
  (forall prop, merged_value parent child prop = get_property s prop) ->
  merge_loop parent child props new = copy_loop s props new.
Proof.
  intros H. revert new. induction props as [|prop rest IH]; intros new.
  - reflexivity.
  - simpl. unfold merge_property. specialize (H prop).
    unfold merged_value in H.
    destruct (get_property child prop) as [cval|e]; simpl in *.
    + rewrite H. destruct (get_property s prop) as [v|e]; simpl; [|reflexivity].
      destruct (set_property prop new v) as [new' [u|e]]; simpl; [apply IH|reflexivity].
    + rewrite <- H. reflexivity.
Qed.

(** What the setters do with the values they store. *)

Lemma set_paint_rule_ok new v :
  ok_paint_rule v = true ->
  set_paint_rule new v = (setattr new "_paint_rule" v, Ok tt).
Proof. destruct v as [| | | | | | | | | | |[]| | |]; try discriminate; reflexivity. Qed.

Lemma set_auto_close_ok new v :
  ok_auto_close v = true ->
  set_auto_close new v = (setattr new "_auto_close" v, Ok tt).
Proof.
  unfold ok_auto_close, set_auto_close.
  destruct (in_True_False_INHERIT v) as [[]|]; try discriminate; reflexivity.
Qed.

Lemma set_intersection_rule_ok new v :
  ok_intersection_rule v = true ->
  set_intersection_rule new v = (setattr new "_intersection_rule" v, Ok tt).
Proof. destruct v as [| | | | | | | | | | |[]| | |]; try discriminate; reflexivity. Qed.

Lemma set_opacity_ok key new v :
  ok_opacity v = true ->
  set_opacity key new v = (setattr new (PDFStyleKeys.value key) v, Ok tt).
Proof.
  unfold ok_opacity, set_opacity.
  destruct (in_None_INHERIT v) as [[]|]; try discriminate; [reflexivity|].
  destruct (_check_range v); [reflexivity | discriminate].
Qed.

Lemma ok_opacity_alpha (a : Number) :
  num_in_unit a = true -> ok_opacity (PyNum a) = true.
Proof. intros H. unfold ok_opacity. simpl. rewrite H. reflexivity. Qed.

Lemma set_color_ok attr key new v :
  ok_color v = true ->
  set_color attr (set_opacity key) new v = (color_stored attr key new v, Ok tt).
Proof.
  destruct v; try discriminate; try reflexivity.
  simpl. unfold set_color, valid_color, color_stored. simpl.
  destruct (color_alpha c) as [a|]; [|reflexivity].
  intros H. apply set_opacity_ok, ok_opacity_alpha, H.
Qed.

Lemma member_by_value_sound (n : string) (m : BlendMode.t) :
  member_by_value n = Some m -> BlendMode.value m = n.
Proof.
  unfold member_by_value. intros H. apply List.find_some in H as [_ H].
  apply String.eqb_eq in H. exact H.
Qed.

Lemma set_blend_mode_ok new v :
  ok_blend_mode v = true ->
  set_blend_mode new v = (setattr new "BM" v, Ok tt).
Proof.
  destruct v; try discriminate; [reflexivity|].
  unfold ok_blend_mode, set_blend_mode, CoerciveEnum_coerce. simpl.
  destruct (member_by_value s) as [m|] eqn:E; [|discriminate].
  intros _. rewrite (member_by_value_sound _ _ E). reflexivity.
Qed.

Lemma set_stroke_width_ok new v :
  ok_stroke_width v = true ->
  set_stroke_width new v = (setattr new "LW" v, Ok tt).
Proof.
  unfold ok_stroke_width, set_stroke_width. intros ->. reflexivity.
Qed.

Lemma set_stroke_cap_style_ok new v :
  ok_stroke_cap_style v = true ->
  set_stroke_cap_style new v = (setattr new "LC" v, Ok tt).
Proof. destruct v as [| | | | | | | | | | |[]| | |]; try discriminate; reflexivity. Qed.

Lemma set_stroke_join_style_ok new v :
  ok_stroke_join_style v = true ->
  set_stroke_join_style new v = (setattr new "LJ" v, Ok tt).
Proof. destruct v as [| | | | | | | | | | |[]| | |]; try discriminate; reflexivity. Qed.

Lemma set_stroke_miter_limit_ok new v :
  ok_stroke_miter_limit v = true ->
  set_stroke_miter_limit new v = (setattr new "ML" v, Ok tt).
Proof.
  unfold ok_stroke_miter_limit, set_stroke_miter_limit. intros ->. reflexivity.
Qed.

End MergeProperties.

Section MergeIdentity.
Context {Number : Type} {py : Python Number}.
Implicit Types (s t new : GraphicsStyle Number) (v : pyval Number).

Lemma getattr_setattr_eq new key v : getattr (setattr new key v) key = v.
Proof. unfold getattr, setattr. rewrite lookup_insert_eq. reflexivity. Qed.

Lemma getattr_setattr_ne new key key' v :
  key <> key' -> getattr (setattr new key v) key' = getattr new key'.
Proof. intros H. unfold getattr, setattr. rewrite lookup_insert_ne by exact H. reflexivity. Qed.

Lemma getattr_color_stored_eq attr key new v :
  attr <> PDFStyleKeys.value key ->
  getattr (color_stored attr key new v) attr = v.
Proof.
  intros H. unfold color_stored.
  destruct v; try apply getattr_setattr_eq.
  destruct (color_alpha c); [|apply getattr_setattr_eq].
  rewrite getattr_setattr_ne by congruence. apply getattr_setattr_eq.
Qed.

Lemma getattr_color_stored_ne attr key new v key' :
  attr <> key' -> PDFStyleKeys.value key <> key' ->
  getattr (color_stored attr key new v) key' = getattr new key'.
Proof.
  intros H1 H2. unfold color_stored.
  destruct v; try (apply getattr_setattr_ne; exact H1).
  destruct (color_alpha c); [|apply getattr_setattr_ne; exact H1].
  rewrite !getattr_setattr_ne by assumption. reflexivity.
Qed.

Lemma getattr_empty key : getattr (∅ : GraphicsStyle Number) key = INHERIT.
Proof. unfold getattr. rewrite lookup_empty. reflexivity. Qed.

Ltac attr_simpl :=
  repeat first
    [ rewrite getattr_setattr_eq
    | rewrite getattr_setattr_ne by discriminate
    | rewrite getattr_color_stored_eq by discriminate
    | rewrite getattr_color_stored_ne by discriminate
    | rewrite getattr_empty ].

(** Copying a well-formed style property by property succeeds and gives a
    style with the same attributes. *)
Lemma copy_loop_well_formed s :
  well_formed s ->
  exists m, copy_loop s MERGE_PROPERTIES ∅ = Ok m
            /\ Forall (fun key => getattr m key = getattr s key) attribute_names.
Proof.
  unfold well_formed, attribute_domains. intros H.
  repeat (apply Forall_cons in H as [? H]). clear H.
  cbn [fst snd] in *.
  unfold MERGE_PROPERTIES.
  cbn [copy_loop get_property set_property bind].
  unfold paint_rule, auto_close, intersection_rule, fill_color, fill_opacity,
    stroke_color, stroke_opacity, blend_mode, stroke_width, stroke_cap_style,
    stroke_join_style, stroke_miter_limit, stroke_dash_pattern,
    stroke_dash_phase.
  unfold set_fill_color, set_stroke_color, set_fill_opacity, set_stroke_opacity.
  cbn [PDFStyleKeys.value].
  rewrite set_paint_rule_ok by assumption.
  rewrite set_auto_close_ok by assumption.
  rewrite set_intersection_rule_ok by assumption.
  rewrite (set_color_ok "_fill_color" PDFStyleKeys.FILL_ALPHA) by assumption.
  rewrite (set_opacity_ok PDFStyleKeys.FILL_ALPHA) by assumption.
  rewrite (set_color_ok "_stroke_color" PDFStyleKeys.STROKE_ALPHA) by assumption.
  rewrite (set_opacity_ok PDFStyleKeys.STROKE_ALPHA) by assumption.
  rewrite set_blend_mode_ok by assumption.
  rewrite set_stroke_width_ok by assumption.
  rewrite set_stroke_cap_style_ok by assumption.
  rewrite set_stroke_join_style_ok by assumption.
  rewrite set_stroke_miter_limit_ok by assumption.
  cbn [PDFStyleKeys.value].
  match goal with
  | |- context [set_stroke_dash_pattern ?n _] => set (new := n)
  end.
  assert (getattr new "D" = INHERIT) as HD.
  { subst new. attr_simpl. reflexivity. }
  destruct (getattr s "D") as [| | | | | | | | |l| | | | |] eqn:ED; try discriminate.
  - (* the dash pattern is inherited *)
    cbn [py_as_tuple bind].
    eexists. split; [reflexivity|].
    unfold attribute_names. repeat apply Forall_cons_2; try apply Forall_nil_2;
      subst new; attr_simpl; try reflexivity; symmetry; assumption.
  - (* a pattern and a phase *)
    destruct l as [|[| | | | | | | | |pattern| | | | |] [|phase [|]]];
      try discriminate.
    cbn [bind py_as_tuple tuple_item nth_error].
    unfold set_stroke_dash_pattern. cbn [PDFStyleKeys.value is_float_or_int py_as_seq].
    rewrite HD. cbn [py_as_tuple INHERIT].
    unfold set_stroke_dash_phase. cbn [PDFStyleKeys.value].
    match goal with H : ok_dash _ = true |- _ => cbn [ok_dash] in H; rewrite H end.
    rewrite getattr_setattr_eq. cbn [py_as_tuple tuple_item nth_error].
    eexists. split; [reflexivity|].
    unfold attribute_names. repeat apply Forall_cons_2; try apply Forall_nil_2;
      subst new; attr_simpl; try reflexivity; symmetry; assumption.
Qed.

(** ** The setters store well-formed values *)

Lemma well_formed_setattr s key ok v :
  well_formed s -> In (key, ok) attribute_domains -> ok v = true ->
  well_formed (setattr s key v).
Proof.
  unfold well_formed, attribute_domains. intros H Hin Hv.
  repeat (apply Forall_cons in H as [? H]). clear H. cbn [fst snd] in *.
  repeat (destruct Hin as [[= <- <-]|Hin];
          [repeat apply Forall_cons_2; try apply Forall_nil_2; cbn [fst snd];
           attr_simpl; assumption|]).
  destruct Hin.
Qed.

Ltac stored key :=
  eapply (well_formed_setattr _ key);
  [ assumption
  | cbn [In attribute_domains]; repeat first [left; reflexivity | right]
  | ].

Lemma set_paint_rule_well_formed s v :
  well_formed s -> well_formed (fst (set_paint_rule s v)).
Proof.
  intros H. unfold set_paint_rule.
  assert (well_formed (if is_None v
                       then setattr s "_paint_rule"
                              (PyEnum (M_PathPaintRule PathPaintRule.DONT_PAINT))
                       else s)) as H'.
  { destruct (is_None v); [|exact H]. stored "_paint_rule". reflexivity. }
  destruct (is_INHERIT v) eqn:E.
  - cbn [fst]. destruct v; try discriminate.
    apply (well_formed_setattr _ "_paint_rule" ok_paint_rule);
      [exact H' | cbn [In attribute_domains]; tauto | reflexivity].
  - destruct (CoerciveEnum_coerce v) as [m|e]; cbn [fst]; [|exact H'].
    apply (well_formed_setattr _ "_paint_rule" ok_paint_rule);
      [exact H' | cbn [In attribute_domains]; tauto | reflexivity].
Qed.

Lemma set_auto_close_well_formed s v :
  well_formed s -> well_formed (fst (set_auto_close s v)).
Proof.
  intros H. unfold set_auto_close.
  destruct (in_True_False_INHERIT v) as [[]|e] eqn:E; cbn [fst]; try exact H.
  stored "_auto_close". unfold ok_auto_close. rewrite E. reflexivity.
Qed.

Lemma set_intersection_rule_well_formed s v :
  well_formed s -> well_formed (fst (set_intersection_rule s v)).
Proof.
  intros H. unfold set_intersection_rule.
  destruct (is_INHERIT v) eqn:E.
  - cbn [fst]. destruct v; try discriminate. stored "_intersection_rule".
    reflexivity.
  - destruct (CoerciveEnum_coerce v) as [m|e]; cbn [fst]; [|exact H].
    stored "_intersection_rule". reflexivity.
Qed.

Lemma set_opacity_well_formed key s v :
  key = PDFStyleKeys.FILL_ALPHA \/ key = PDFStyleKeys.STROKE_ALPHA ->
  well_formed s -> well_formed (fst (set_opacity key s v)).
Proof.
  intros Hkey H. unfold set_opacity.
  destruct (in_None_INHERIT v) as [skip|e] eqn:E; cbn [fst]; [|exact H].
  destruct (if skip then Ok v else _check_range v) as [x|e] eqn:Ec;
    cbn [fst]; [|exact H].
  assert (ok_opacity v = true) as Hok.
  { unfold ok_opacity. rewrite E. destruct skip; [reflexivity|].
    rewrite Ec. reflexivity. }
  destruct Hkey as [-> | ->]; cbn [PDFStyleKeys.value].
  - stored "ca". exact Hok.
  - stored "CA". exact Hok.
Qed.

Lemma check_alpha_valid (a : option Number) x :
  check_alpha a = Ok x ->
  match a with Some n => num_in_unit n | None => true end = true.
Proof.
  unfold check_alpha, check_range_num. destruct a as [n|]; [|reflexivity].
  destruct (num_in_unit n); [reflexivity | discriminate].
Qed.

Lemma DeviceRGB_new_valid (r g b : Number) a c :
  DeviceRGB_new r g b a = Ok c -> valid_color c = true.
Proof.
  unfold DeviceRGB_new. destruct (check_alpha a) as [x|e] eqn:E; [|discriminate].
  cbn [bind]. unfold check_range_num.
  destruct (num_in_unit r); [|discriminate]. cbn [bind].
  destruct (num_in_unit g); [|discriminate]. cbn [bind].
  destruct (num_in_unit b); [|discriminate]. cbn [bind].
  intros [= <-]. unfold valid_color. cbn [color_alpha].
  exact (check_alpha_valid _ _ E).
Qed.

Lemma rgb8_valid (r g b : Number) a c :
  rgb8 r g b a = Ok c -> valid_color c = true.
Proof.
  unfold rgb8.
  destruct (match a with Some x => _ | None => _ end) as [a'|]; [|discriminate].
  cbn [bind].
  destruct (num_div r float_255); [|discriminate]. cbn [bind].
  destruct (num_div g float_255); [|discriminate]. cbn [bind].
  destruct (num_div b float_255); [|discriminate]. cbn [bind].
  apply DeviceRGB_new_valid.
Qed.

Lemma rgb8_of_ints_valid l with_alpha c :
  rgb8_of_ints l with_alpha = Ok c -> valid_color c = true.
Proof.
  unfold rgb8_of_ints.
  destruct l as [|r [|g [|b [|a [|]]]]], with_alpha; try discriminate;
    apply rgb8_valid.
Qed.

Lemma color_from_hex_string_valid hexstr c :
  color_from_hex_string hexstr = Ok c -> valid_color c = true.
Proof.
  unfold color_from_hex_string.
  destruct hexstr as [|ch rest]; [discriminate|].
  destruct (Ascii.eqb_spec ch "#"%char) as [->|Hne].
  2:{ destruct ch as [[] [] [] [] [] [] [] []]; try discriminate.
      exfalso. apply Hne. reflexivity. }
  repeat match goal with
  | |- (if ?b then _ else _) = _ -> _ => destruct b
  | |- bind ?m _ = _ -> _ => destruct m; [cbn [bind]|discriminate]
  end; try discriminate; apply rgb8_of_ints_valid.
Qed.

Lemma set_color_well_formed attr key s v :
  (attr = "_fill_color" /\ key = PDFStyleKeys.FILL_ALPHA)
  \/ (attr = "_stroke_color" /\ key = PDFStyleKeys.STROKE_ALPHA) ->
  valid_value v ->
  well_formed s -> well_formed (fst (set_color attr (set_opacity key) s v)).
Proof.
  intros Hattr Hv H. unfold set_color.
  assert (forall c, well_formed (setattr s attr c) -> ok_color c = true ->
                    well_formed (setattr s attr c)) as _ by auto.
  assert (forall c, ok_color c = true -> well_formed (setattr s attr c)) as Hset.
  { intros c Hc. destruct Hattr as [[-> _]|[-> _]].
    - stored "_fill_color". exact Hc.
    - stored "_stroke_color". exact Hc. }
  assert (key = PDFStyleKeys.FILL_ALPHA \/ key = PDFStyleKeys.STROKE_ALPHA) as Hkey.
  { destruct Hattr as [[_ ->]|[_ ->]]; auto. }
  destruct (match py_as_str v with Some _ => _ | None => _ end)
    as [color|e] eqn:Ecolor; cbn [fst]; [|exact H].
  assert (forall c, color = PyColor c -> valid_color c = true) as Hvalid.
  { intros c ->. destruct (py_as_str v) as [text|] eqn:Es.
    - destruct (color_from_hex_string text) as [c'|] eqn:Ehex; [|discriminate].
      injection Ecolor as <-. exact (color_from_hex_string_valid _ _ Ehex).
    - injection Ecolor as ->. apply Hv. reflexivity. }
  destruct color; cbn [fst]; try exact H; try (apply Hset; reflexivity).
  specialize (Hvalid c eq_refl).
  assert (well_formed (setattr s attr (PyColor c))) as Hc.
  { apply Hset. exact Hvalid. }
  destruct (color_alpha c); [|exact Hc].
  apply set_opacity_well_formed; assumption.
Qed.

Lemma member_by_value_complete (m : BlendMode.t) :
  member_by_value (BlendMode.value m) = Some m.
Proof. destruct m; reflexivity. Qed.

Lemma set_blend_mode_well_formed s v :
  well_formed s -> well_formed (fst (set_blend_mode s v)).
Proof.
  intros H. unfold set_blend_mode. cbn [PDFStyleKeys.value].
  destruct (is_INHERIT v) eqn:E.
  - cbn [fst]. destruct v; try discriminate. stored "BM". reflexivity.
  - destruct (CoerciveEnum_coerce v) as [m|e]; cbn [fst]; [|exact H].
    stored "BM". unfold ok_blend_mode. rewrite member_by_value_complete.
    reflexivity.
Qed.

Lemma set_stroke_width_well_formed s v :
  well_formed s -> well_formed (fst (set_stroke_width s v)).
Proof.
  intros H. unfold set_stroke_width. cbn [PDFStyleKeys.value].
  destruct (match py_as_number v with Some _ => true | None => _ end) eqn:E;
    cbn [fst]; [|exact H].
  stored "LW". exact E.
Qed.

Lemma set_stroke_cap_style_well_formed s v :
  well_formed s -> well_formed (fst (set_stroke_cap_style s v)).
Proof.
  intros H. unfold set_stroke_cap_style. cbn [PDFStyleKeys.value].
  destruct (is_INHERIT v) eqn:E.
  - cbn [fst]. destruct v; try discriminate. stored "LC". reflexivity.
  - destruct (CoerciveIntEnum_coerce v) as [m|e]; cbn [fst]; [|exact H].
    stored "LC". reflexivity.
Qed.

Lemma set_stroke_join_style_well_formed s v :
  well_formed s -> well_formed (fst (set_stroke_join_style s v)).
Proof.
  intros H. unfold set_stroke_join_style. cbn [PDFStyleKeys.value].
  destruct (is_INHERIT v) eqn:E.
  - cbn [fst]. destruct v; try discriminate. stored "LJ". reflexivity.
  - destruct (CoerciveIntEnum_coerce v) as [m|e]; cbn [fst]; [|exact H].
    stored "LJ". reflexivity.
Qed.

Lemma set_stroke_miter_limit_well_formed s v :
  well_formed s -> well_formed (fst (set_stroke_miter_limit s v)).
Proof.
  intros H. unfold set_stroke_miter_limit. cbn [PDFStyleKeys.value].
  destruct (is_INHERIT v || _) eqn:E; cbn [fst]; [|exact H].
  stored "ML". exact E.
Qed.

Lemma well_formed_dash s : well_formed s -> ok_dash (getattr s "D") = true.
Proof.
  unfold well_formed, attribute_domains. intros H.
  repeat (apply Forall_cons in H as [? H]). assumption.
Qed.

Lemma int_is_float_or_int (z : Z) :
  is_float_or_int (PyNum (num_of_Z z) : pyval Number) = true.
Proof. cbn. rewrite num_of_Z_not_decimal. reflexivity. Qed.

Lemma set_stroke_dash_pattern_well_formed s v :
  well_formed s -> well_formed (fst (set_stroke_dash_pattern s v)).
Proof.
  intros H. pose proof (well_formed_dash s H) as HD.
  unfold set_stroke_dash_pattern. cbn [PDFStyleKeys.value].
  destruct (py_as_seq (if is_float_or_int v then PyTuple [v] else v))
    as [elems|].
  - destruct (getattr s "D") as [| | | | | | | | |l| | | | |];
      try discriminate; cbn [py_as_tuple].
    + cbn [fst]. stored "D". apply int_is_float_or_int.
    + destruct l as [|[| | | | | | | | |pattern| | | | |] [|phase [|]]];
        try discriminate.
      cbn [tuple_item nth_error fst]. stored "D". exact HD.
  - destruct (is_None _).
    + cbn [fst]. stored "D". apply int_is_float_or_int.
    + destruct (is_INHERIT _) eqn:E; cbn [fst]; [|exact H].
      destruct (is_float_or_int v); [discriminate|].
      destruct v; try discriminate. stored "D". reflexivity.
Qed.

Lemma set_stroke_dash_phase_well_formed s v :
  well_formed s -> well_formed (fst (set_stroke_dash_phase s v)).
Proof.
  intros H. pose proof (well_formed_dash s H) as HD.
  unfold set_stroke_dash_phase. cbn [PDFStyleKeys.value].
  destruct (is_float_or_int v) eqn:E.
  - destruct (getattr s "D") as [| | | | | | | | |l| | | | |];
      try discriminate; cbn [py_as_tuple fst]; [exact H|].
    destruct l as [|[| | | | | | | | |pattern| | | | |] [|phase [|]]];
      try discriminate.
    cbn [tuple_item nth_error fst]. stored "D". exact E.
  - destruct (is_INHERIT v); exact H.
Qed.

(** Whatever is assigned to whichever property, with whatever outcome, a
    style that holds what the setters store still does. *)
Lemma set_property_well_formed prop s v :
  valid_value v -> well_formed s -> well_formed (fst (set_property prop s v)).
Proof.
  intros Hv H. destruct prop; cbn [set_property].
  - apply set_paint_rule_well_formed, H.
  - apply set_auto_close_well_formed, H.
  - apply set_intersection_rule_well_formed, H.
  - apply set_color_well_formed; auto.
  - apply set_opacity_well_formed; auto.
  - apply set_color_well_formed; auto.
  - apply set_opacity_well_formed; auto.
  - apply set_blend_mode_well_formed, H.
  - apply set_stroke_width_well_formed, H.
  - apply set_stroke_cap_style_well_formed, H.
  - apply set_stroke_join_style_well_formed, H.
  - apply set_stroke_miter_limit_well_formed, H.
  - apply set_stroke_dash_pattern_well_formed, H.
  - apply set_stroke_dash_phase_well_formed, H.
Qed.

End MergeIdentity.

Section MergeTheorem.
Context {Number : Type} {py : Python Number}.
Implicit Types (s t new m : GraphicsStyle Number) (v : pyval Number).

Lemma same_attributes_same_properties m s :
  Forall (fun key => getattr m key = getattr s key) attribute_names ->
  forall prop, get_property m prop = get_property s prop.
Proof.
  unfold attribute_names. intros H.
  repeat (apply Forall_cons in H as [? H]). clear H.
  intros []; cbn [get_property];
    unfold paint_rule, auto_close, intersection_rule, fill_color, fill_opacity,
      stroke_color, stroke_opacity, blend_mode, stroke_width, stroke_cap_style,
      stroke_join_style, stroke_miter_limit, stroke_dash_pattern,
      stroke_dash_phase; cbn [PDFStyleKeys.value];
    repeat match goal with E : getattr m _ = _ |- _ => rewrite ?E; clear E end;
    reflexivity.
Qed.

Lemma all_INHERIT_empty : all_INHERIT (∅ : GraphicsStyle Number).
Proof. intros []; reflexivity. Qed.

Lemma well_formed_empty : well_formed (∅ : GraphicsStyle Number).
Proof.
  unfold well_formed, attribute_domains.
  repeat apply Forall_cons_2; try apply Forall_nil_2; reflexivity.
Qed.

(** C2. For every style [s] that holds what the setters store, and every
    style [t] whose properties all read INHERIT: merging [s] as the child of
    [t], and merging [t] as the child of [s], both return a style that equals
    [s] property by property over MERGE_PROPERTIES. *)
Theorem C2_merge_identity s t :
  well_formed s -> all_INHERIT t ->
  (exists m, merge t s = Ok m
             /\ forall prop, In prop MERGE_PROPERTIES ->
                             get_property m prop = get_property s prop)
  /\ (exists m, merge s t = Ok m
                /\ forall prop, In prop MERGE_PROPERTIES ->
                                get_property m prop = get_property s prop).
Proof.
  intros Hs Ht.
  destruct (copy_loop_well_formed s Hs) as (m & Hm & Hattrs).
  pose proof (same_attributes_same_properties m s Hattrs) as Hprops.
  split; exists m; (split; [|intros prop _; apply Hprops]); unfold merge.
  - rewrite (merge_loop_copy t s s); [exact Hm|].
    intros prop. apply merged_value_child, Ht.
  - rewrite (merge_loop_copy s t s); [exact Hm|].
    intros prop. apply merged_value_parent, Ht.
Qed.

(** MERGE_PROPERTIES names every property. *)
Lemma MERGE_PROPERTIES_complete (prop : Property) : In prop MERGE_PROPERTIES.
Proof. destruct prop; simpl; tauto. Qed.

End MergeTheorem.

(** ** Arc sweeps *)

Section SweepProperties.
Context {Number : Type} {py : Python Number}.

(** A loop that finishes normally yields one segment per iteration. *)
Lemma subdivde_sweep_loop_length (n : nat) (a l seg : Number) (c1 c2 e : Point Number) :
  raised (subdivde_sweep_loop n a l seg c1 c2 e) = None ->
  length (yielded (subdivde_sweep_loop n a l seg c1 c2 e)) = n.
Proof.
  revert l. induction n as [|n IH]; intros l; [reflexivity|].
  cbn [subdivde_sweep_loop].
  match goal with |- context [match ?item with Ok _ => _ | Raise _ => _ end] =>
    destruct item as [seg'|err] end; [|discriminate].
  destruct (num_sub l seg) as [l'|err]; [|discriminate].
  cbn [raised yielded length]. intros H. rewrite (IH l' H). reflexivity.
Qed.

(** A sweep that is subdivided without an exception gives as many segments
    as [math.ceil(abs(sweep_angle) / (math.pi / 2))]. *)
Lemma subdivde_sweep_length (sweep_angle : Number) :
  raised (subdivde_sweep sweep_angle) = None ->
  exists chunks,
    sweep_chunks sweep_angle = Ok chunks
    /\ length (yielded (subdivde_sweep sweep_angle)) = Z.to_nat chunks.
Proof.
  unfold subdivde_sweep, sweep_chunks.
  destruct (num_div math_pi (int 2)) as [q|]; [|discriminate].
  cbn [bind].
  destruct (num_div (num_abs sweep_angle) q) as [r|]; [|discriminate].
  cbn [bind].
  destruct (math_ceil r) as [chunks|]; [|discriminate].
  cbn [bind].
  match goal with |- context [match ?h with Ok _ => _ | Raise _ => _ end] =>
    destruct h as [[[[[ch seg] c1] c2] e]|] eqn:E end; [|discriminate].
  intros H. exists chunks. split; [reflexivity|].
  assert (ch = chunks) as ->.
  { revert E. repeat (match goal with
      |- context [bind ?x _] => destruct x; cbn [bind]; [|discriminate] end).
    congruence. }
  apply subdivde_sweep_loop_length, H.
Qed.

End SweepProperties.

Section SweepSegments.
Context {Number : Type} {py : Python Number}.



End SweepSegments.

Section Ceiling.



End Ceiling.

Section SweepOnFloats.
Variables (libm_cos libm_sin libm_tan libm_acos : float -> float).
Variable (libm_pow : float -> float -> float).
Variable (round8 : float -> float).

Local Abbreviation binary64 :=
  (Binary64.python libm_cos libm_sin libm_tan libm_acos libm_pow round8).





End SweepOnFloats.

(** ** Rendering again

    Rendering changes the registry and closes open subpaths.  A second
    rendering finds both as the first left them. *)

Section Repeatable.
Context {Number : Type} {py : Python Number}.
Implicit Types (G : Registry) (st : RenderState) (s : GraphicsStyle Number).

Lemma registry_le_refl G : registry_le G G.
Proof. intros key name H. exact H. Qed.

Lemma registry_le_trans G1 G2 G3 :
  registry_le G1 G2 -> registry_le G2 G3 -> registry_le G1 G3.
Proof. intros H1 H2 key name H. apply H2, H1, H. Qed.

Lemma registry_le_lookup G G' key name :
  registry_le G G' ->
  _global_style_registry G !! key = Some name ->
  _global_style_registry G' !! key = Some name.
Proof. intros H. apply H. Qed.

Lemma get_or_set_le s G : registry_le G (fst (_get_or_set_style_dict s G)).
Proof. intros key name. apply registry_kept. Qed.

Lemma later_le G G' : later G G' -> registry_le G G'.
Proof.
  induction 1 as [|G' s _ IH]; [apply registry_le_refl|].
  eapply registry_le_trans; [exact IH | apply get_or_set_le].
Qed.

(** A call repeated in a registry that holds the entries the first call
    left returns the same and changes nothing. *)
Lemma get_or_set_again s G G' G2 r :
  _get_or_set_style_dict s G = (G', r) ->
  registry_le G' G2 ->
  _get_or_set_style_dict s G2 = (G2, r).
Proof.
  unfold _get_or_set_style_dict. intros H HL.
  destruct (to_pdf_dict s) as [sdict|e]; [|congruence].
  destruct (negb (truthy (PyRaw sdict))); [congruence|].
  assert (exists name, r = Ok name
                       /\ _global_style_registry G' !! sdict = Some name)
    as (name & -> & E1).
  { destruct (_global_style_registry G !! sdict) eqn:E.
    - injection H as <- <-. eauto.
    - injection H as <- <-. eexists. split; [reflexivity|].
      apply lookup_insert_eq. }
  rewrite (registry_le_lookup _ _ _ _ HL E1). reflexivity.
Qed.

Lemma emit_style_le s st :
  registry_le (registry st) (registry (fst (emit_style s st))).
Proof.
  unfold emit_style. pose proof (get_or_set_le s (registry st)) as H.
  destruct (_get_or_set_style_dict s (registry st)) as [G [[name|]|e]];
    cbn [fst] in H; exact H.
Qed.

Lemma emit_style_again s st st' r G2 :
  emit_style s st = (st', r) ->
  registry_le (registry st') G2 ->
  emit_style s (mkRenderState G2 (path_gsds st))
  = (mkRenderState G2 (path_gsds st'), r).
Proof.
  unfold emit_style. intros H HL. cbn [registry path_gsds].
  destruct (_get_or_set_style_dict s (registry st)) as [G r0] eqn:E.
  assert (registry st' = G) as HG.
  { destruct r0 as [[name|]|e]; injection H as <- <-; reflexivity. }
  rewrite <- HG in E. rewrite (get_or_set_again _ _ _ _ _ E HL).
  destruct r0 as [[name|]|e]; injection H as <- <-; reflexivity.
Qed.

Section Over.
Variable render : ItemRenderer Number.
Hypothesis render_repeatable : repeatable_renderer render.

Lemma render_items_repeatable style_ :
  forall last_item render_list,
    repeatable (fun items st =>
                  render_items render items st style_ last_item render_list).
Proof.
  intros last_item render_list items. revert last_item render_list.
  induction items as [|item rest IH]; intros last_item render_list st x' st' r.
  - cbn [render_items]. intros [= <- <- <-]. split; [apply registry_le_refl|].
    intros G2 _. reflexivity.
  - cbn [render_items].
    destruct (render item st style_ last_item) as [[item1 st1] r1] eqn:E1.
    destruct (render_repeatable style_ last_item _ _ _ _ _ E1) as [L1 A1].
    destruct r1 as [[rendered last1]|e].
    + destruct (render_items render rest st1 style_ last1
                  (append_rendered render_list rendered))
        as [[rest2 st2] r2] eqn:E2.
      destruct (IH _ _ _ _ _ _ E2) as [L2 A2].
      intros [= <- <- <-]. split; [eapply registry_le_trans; eassumption|].
      intros G2 HG. cbn [render_items].
      rewrite (A1 G2) by (eapply registry_le_trans; eassumption).
      specialize (A2 G2 HG). cbn [path_gsds] in A2.
      rewrite A2. reflexivity.
    + intros [= <- <- <-]. split; [exact L1|].
      intros G2 HG. cbn [render_items]. rewrite (A1 G2 HG). reflexivity.
Qed.

Lemma render_items_cons item rest st style_ last_item render_list :
  exists item' rest',
    fst (fst (render_items render (item :: rest) st style_ last_item render_list))
    = item' :: rest'.
Proof.
  cbn [render_items].
  destruct (render item st style_ last_item) as [[item1 st1] [[rendered last1]|e]].
  - destruct (render_items render rest st1 style_ last1
                (append_rendered render_list rendered)) as [[rest2 st2] r2].
    eauto.
  - eauto.
Qed.

End Over.
End Repeatable.

Section RepeatableContext.
Context {Number : Type} {py : Python Number}.
Implicit Types (G : Registry) (st : RenderState) (s : GraphicsStyle Number)
  (g : GraphicsContext Number) (p : PaintedPath Number).

Lemma set_clipping_path_items g clip items :
  let g' := set_path_items (set_clipping_path g clip) items in
  style g' = style g /\ transform g' = transform g
  /\ path_items g' = items /\ clipping_path g' = clip.
Proof. destruct g. cbn. auto. Qed.

Lemma set_clipping_path_items_again g clip items :
  let g' := set_path_items (set_clipping_path g clip) items in
  set_path_items (set_clipping_path g' clip) items = g'.
Proof. destruct g. reflexivity. Qed.

Lemma set_clipping_path_again g clip :
  set_clipping_path (set_clipping_path g clip) clip = set_clipping_path g clip.
Proof. destruct g. reflexivity. Qed.

Lemma set_clipping_path_same g : set_clipping_path g (clipping_path g) = g.
Proof. destruct g. reflexivity. Qed.

Section Over.
Variable render : ItemRenderer Number.
Hypothesis render_repeatable : repeatable_renderer render.

Lemma render_clip_repeatable merged_style last_item render_list :
  repeatable (fun clip st => render_clip render clip st merged_style last_item
                               render_list).
Proof.
  intros clip st clip' st' r. unfold render_clip.
  destruct clip as [cp|].
  - destruct (render cp st merged_style last_item) as [[cp1 st1] r1] eqn:E1.
    destruct (render_repeatable merged_style last_item _ _ _ _ _ E1) as [L1 A1].
    destruct r1 as [[rendered last1]|e]; intros [= <- <- <-];
      (split; [exact L1|]); intros G2 HG; rewrite (A1 G2 HG); reflexivity.
  - intros [= <- <- <-]. split; [apply registry_le_refl|]. reflexivity.
Qed.

(** [build_render_list], with the clipping path factored out. *)
Lemma build_render_list_eq g st style_ last_item push :
  build_render_list render g st style_ last_item push =
  match path_items g with
  | [] => (g, st, Ok ([], last_item))
  | _ :: _ =>
      match merge style_ (style g) with
      | Raise e => (g, st, Raise e)
      | Ok merged_style =>
          match emit_style (style g) st with
          | (st, Raise e) => (g, st, Raise e)
          | (st, Ok render_list) =>
              let '(clip, st, r) :=
                render_clip render (clipping_path g) st merged_style last_item
                  render_list in
              let g := set_clipping_path g clip in
              match r with
              | Raise e => (g, st, Raise e)
              | Ok render_list =>
                  let '(items, st, r) :=
                    render_items render (path_items g) st merged_style
                      last_item render_list in
                  let g := set_path_items g items in
                  match r with
                  | Raise e => (g, st, Raise e)
                  | Ok (render_list, last_item) =>
                      let render_list :=
                        match transform g with
                        | Some tf => Transform_render tf :: render_list
                        | None => render_list
                        end in
                      let render_list :=
                        if push
                        then ("q" :: render_list ++ ["Q"])%list
                        else render_list in
                      (g, st, Ok (render_list, last_item))
                  end
              end
          end
      end
  end.
Proof. reflexivity. Qed.

Lemma build_render_list_repeatable style_ last_item push :
  repeatable (fun g st => build_render_list render g st style_ last_item push).
Proof.
  intros g st g' st' r. rewrite build_render_list_eq.
  destruct (path_items g) as [|item rest] eqn:Eitems.
  { intros [= <- <- <-]. split; [apply registry_le_refl|].
    intros G2 _. rewrite build_render_list_eq, Eitems. reflexivity. }
  destruct (merge style_ (style g)) as [merged_style|e] eqn:Emerge.
  2:{ intros [= <- <- <-]. split; [apply registry_le_refl|].
      intros G2 _. rewrite build_render_list_eq, Eitems, Emerge. reflexivity. }
  destruct (emit_style (style g) st) as [st1 r1] eqn:Eemit.
  pose proof (emit_style_le (style g) st) as L1. rewrite Eemit in L1.
  cbn [fst] in L1.
  destruct r1 as [render_list|e].
  2:{ intros [= <- <- <-]. split; [exact L1|].
      intros G2 HG. rewrite build_render_list_eq, Eitems, Emerge.
      rewrite (emit_style_again _ _ _ _ _ Eemit HG). reflexivity. }
  destruct (render_clip render (clipping_path g) st1 merged_style last_item
              render_list)
    as [[clip st2] r2] eqn:Eclip.
  destruct (render_clip_repeatable _ _ _ _ _ _ _ _ Eclip) as [L2 A2].
  destruct (set_clipping_path_items g clip (path_items g)) as (Hs0 & Ht0 & Hi0 & Hc0).
  destruct r2 as [render_list2|e].
  2:{ intros [= <- <- <-]. split; [eapply registry_le_trans; eassumption|].
      intros G2 HG. rewrite build_render_list_eq.
      destruct g as [gs gi gt gc]. cbn [set_clipping_path path_items style
        transform clipping_path] in *. rewrite Eitems, Emerge.
      rewrite (emit_style_again _ _ _ _ G2 Eemit)
        by (eapply registry_le_trans; eassumption).
      specialize (A2 G2 HG). cbn [path_gsds] in A2. rewrite A2. reflexivity. }
  assert (path_items (set_clipping_path g clip) = item :: rest) as Eitems'.
  { destruct g. exact Eitems. }
  cbv zeta. rewrite Eitems'.
  destruct (render_items render (item :: rest) st2 merged_style last_item
              render_list2) as [[items st3] r3] eqn:Eloop.
  destruct (render_items_repeatable render render_repeatable _ _ _ _ _ _ _ _ Eloop)
    as [L3 A3].
  destruct (render_items_cons render item rest st2 merged_style last_item
              render_list2) as (item' & rest' & Hcons).
  rewrite Eloop in Hcons. cbn [fst] in Hcons. subst items.
  assert (forall G2, registry_le (registry st3) G2 ->
            build_render_list render
              (set_path_items (set_clipping_path g clip) (item' :: rest'))
              (mkRenderState G2 (path_gsds st)) style_ last_item push
            = (let g := set_path_items (set_clipping_path g clip) (item' :: rest') in
               match r3 with
               | Raise e => (g, mkRenderState G2 (path_gsds st3), Raise e)
               | Ok (render_list, last_item) =>
                   let render_list :=
                     match transform g with
                     | Some tf => Transform_render tf :: render_list
                     | None => render_list
                     end in
                   let render_list :=
                     if push then ("q" :: render_list ++ ["Q"])%list
                     else render_list in
                   (g, mkRenderState G2 (path_gsds st3), Ok (render_list, last_item))
               end)) as Again.
  { intros G2 HG. rewrite build_render_list_eq.
    destruct g as [gs gi gt gc]. cbn [set_clipping_path set_path_items path_items
      style transform clipping_path] in *. rewrite Emerge.
    rewrite (emit_style_again _ _ _ _ G2 Eemit)
      by (eapply registry_le_trans; [exact L2 | eapply registry_le_trans; eassumption]).
    rewrite (A2 G2) by (eapply registry_le_trans; eassumption).
    cbn [path_gsds].
    specialize (A3 G2 HG). cbn [path_gsds] in A3. rewrite A3.
    destruct r3 as [[rl last3]|e]; reflexivity. }
  assert (registry_le (registry st) (registry st3)) as L.
  { eapply registry_le_trans; [exact L1|].
    eapply registry_le_trans; eassumption. }
  destruct r3 as [[rl last3]|e]; intros [= <- <- <-]; (split; [exact L|]);
    intros G2 HG; rewrite (Again G2 HG); reflexivity.
Qed.

Lemma build_render_list_style g st style_ last_item push :
  style (fst (fst (build_render_list render g st style_ last_item push)))
  = style g.
Proof.
  rewrite build_render_list_eq.
  destruct (path_items g); [reflexivity|].
  destruct (merge style_ (style g)); [|reflexivity].
  destruct (emit_style (style g) st) as [st1 [render_list|e]]; [|reflexivity].
  destruct (render_clip _ _ _ _ _) as [[clip st2] [render_list2|e]];
    [|destruct g; reflexivity].
  cbv zeta.
  destruct (render_items render _ _ _ _ _) as [[items st3] [[rl last3]|e]];
    destruct g; reflexivity.
Qed.

End Over.
End RepeatableContext.

Section RepeatablePaths.
Context {Number : Type} {py : Python Number}.
Implicit Types (G : Registry) (st : RenderState) (s : GraphicsStyle Number)
  (g : GraphicsContext Number) (p : PaintedPath Number).

Lemma closed_after_implicit_close p :
  _closed (_insert_implicit_close_if_open p) = true.
Proof.
  unfold _insert_implicit_close_if_open.
  destruct (_closed p) eqn:E; [exact E | reflexivity].
Qed.

Lemma implicit_close_when_closed p :
  _closed p = true -> _insert_implicit_close_if_open p = p.
Proof. unfold _insert_implicit_close_if_open. intros ->. reflexivity. Qed.

Lemma with_root_facts p g :
  _closed (with_root p g) = _closed p
  /\ _root_graphics_context (with_root p g) = g
  /\ is_clipping_path (with_root p g) = is_clipping_path p
  /\ with_root (with_root p g) g = with_root p g.
Proof. destruct p. cbn. auto. Qed.

Lemma is_clipping_path_add_item_at p r (item : Item Number) :
  is_clipping_path (add_item_at p r item) = is_clipping_path p.
Proof.
  destruct p as [b root open c cc sm]. unfold add_item_at.
  destruct r as [[[|d] path]|]; try reflexivity.
  cbn [_open_contexts _root_graphics_context].
  destruct (open !! _); [|reflexivity].
  destruct (S d <=? length open)%nat; reflexivity.
Qed.

Lemma is_clipping_path_implicit_close p :
  is_clipping_path (_insert_implicit_close_if_open p) = is_clipping_path p.
Proof.
  unfold _insert_implicit_close_if_open.
  destruct (_closed p); cbn [negb]; [reflexivity|].
  pose proof (is_clipping_path_add_item_at p (_close_context p)
                (IElement ImplicitClose)) as H.
  destruct (add_item_at p (_close_context p) (IElement ImplicitClose)).
  exact H.
Qed.

(** Closing the open subpath twice is closing it once. *)
Lemma implicit_close_idempotent p :
  _insert_implicit_close_if_open (_insert_implicit_close_if_open p)
  = _insert_implicit_close_if_open p.
Proof. apply implicit_close_when_closed, closed_after_implicit_close. Qed.

Section Over.
Variable render : ItemRenderer Number.
Hypothesis render_repeatable : repeatable_renderer render.

Lemma GraphicsContext_render_repeatable style_ last_item :
  repeatable (fun g st => GraphicsContext_render render g st style_ last_item).
Proof.
  intros g st g' st' r. unfold GraphicsContext_render.
  destruct (build_render_list render g st style_ last_item true)
    as [[g1 st1] r1] eqn:E.
  destruct (build_render_list_repeatable render render_repeatable _ _ _ _ _ _ _ _ E)
    as [L A].
  destruct r1 as [[render_list last1]|e]; intros [= <- <- <-];
    (split; [exact L|]); intros G2 HG; rewrite (A G2 HG); reflexivity.
Qed.

Lemma PaintedPath_render_repeatable style_ last_item :
  repeatable (fun p st => PaintedPath_render render p st style_ last_item).
Proof.
  intros p st p' st' r. unfold PaintedPath_render.
  set (p1 := _insert_implicit_close_if_open p).
  destruct (build_render_list render (_root_graphics_context p1) st style_
              last_item true) as [[root1 st1] r1] eqn:E.
  destruct (build_render_list_repeatable render render_repeatable _ _ _ _ _ _ _ _ E)
    as [L A].
  destruct (with_root_facts p1 root1) as (Hc & Hr & _ & Hw).
  assert (_insert_implicit_close_if_open (with_root p1 root1) = with_root p1 root1)
    as Hclosed.
  { apply implicit_close_when_closed. rewrite Hc.
    apply closed_after_implicit_close. }
  destruct r1 as [[render_list last1]|e]; intros [= <- <- <-];
    (split; [exact L|]); intros G2 HG;
    rewrite Hclosed, Hr, (A G2 HG), Hw; reflexivity.
Qed.

Lemma ClippingPath_render_repeatable style_ last_item :
  repeatable (fun p st => ClippingPath_render render p st style_ last_item).
Proof.
  intros p st p' st' r. unfold ClippingPath_render.
  destruct (build_render_list render (_root_graphics_context p) st style_
              last_item false) as [[root1 st1] r1] eqn:E.
  destruct (build_render_list_repeatable render render_repeatable _ _ _ _ _ _ _ _ E)
    as [L A].
  destruct (with_root_facts p root1) as (_ & Hr & _ & Hw).
  destruct r1 as [[render_list last1]|e]; intros [= <- <- <-];
    (split; [exact L|]); intros G2 HG;
    rewrite Hr, (A G2 HG), Hw; reflexivity.
Qed.

Lemma render_dispatch_repeatable :
  repeatable_renderer (render_dispatch render).
Proof.
  intros style_ last_item item st item' st' r. unfold render_dispatch.
  destruct item as [e|g|p].
  - intros [= <- <- <-]. split; [apply registry_le_refl|]. reflexivity.
  - destruct (GraphicsContext_render render g st style_ last_item)
      as [[g1 st1] r1] eqn:E.
    destruct (GraphicsContext_render_repeatable _ _ _ _ _ _ _ E) as [L A].
    intros [= <- <- <-]. split; [exact L|].
    intros G2 HG. rewrite (A G2 HG). reflexivity.
  - destruct (is_clipping_path p) eqn:Eclip.
    + destruct (ClippingPath_render render p st style_ last_item)
        as [[p1 st1] r1] eqn:E.
      destruct (ClippingPath_render_repeatable _ _ _ _ _ _ _ E) as [L A].
      assert (is_clipping_path p1 = true) as Eclip1.
      { unfold ClippingPath_render in E.
        destruct (build_render_list _ _ _ _ _ _) as [[root1 st2] [[rl l1]|e]];
          injection E as <- _ _; destruct p; exact Eclip. }
      intros [= <- <- <-]. split; [exact L|].
      intros G2 HG. rewrite Eclip1, (A G2 HG). reflexivity.
    + destruct (PaintedPath_render render p st style_ last_item)
        as [[p1 st1] r1] eqn:E.
      destruct (PaintedPath_render_repeatable _ _ _ _ _ _ _ E) as [L A].
      assert (is_clipping_path p1 = false) as Eclip1.
      { unfold PaintedPath_render in E.
        destruct (build_render_list _ _ _ _ _ _) as [[root1 st2] [[rl l1]|e]];
          injection E as <- _ _;
          destruct (with_root_facts (_insert_implicit_close_if_open p) root1)
            as (_ & _ & -> & _);
          rewrite is_clipping_path_implicit_close; exact Eclip. }
      intros [= <- <- <-]. split; [exact L|].
      intros G2 HG. rewrite Eclip1, (A G2 HG). reflexivity.
Qed.

End Over.

Lemma render_item_repeatable (depth : nat) :
  repeatable_renderer (render_item depth).
Proof.
  induction depth as [|depth IH].
  - intros style_ last_item item st item' st' r. cbn [render_item].
    intros [= <- <- <-]. split; [apply registry_le_refl|]. reflexivity.
  - cbn [render_item]. intros style_ last_item.
    exact (render_dispatch_repeatable (render_item depth) IH style_ last_item).
Qed.

(** Rendering a drawing again, in a registry that holds what the first
    rendering left, returns what the first rendering returned and changes
    neither the drawing nor the registry. *)
Lemma DrawingContext_render_again (depth : nat) (dc : DrawingContext Number)
  (first_point : Point Number) (scale height : Number) G dc1 G1 r G2 :
  DrawingContext_render depth dc first_point scale height G = (dc1, G1, r) ->
  registry_le G1 G2 ->
  DrawingContext_render depth dc1 first_point scale height G2 = (dc1, G2, r).
Proof.
  unfold DrawingContext_render. destruct dc as [items]. cbn [_subitems].
  destruct items as [|item rest].
  { intros [= <- <- <-] _. reflexivity. }
  destruct (_setup_render_prereqs first_point scale height)
    as [[[render_list style_] last_item]|e].
  2:{ intros [= <- <- <-] _. reflexivity. }
  destruct (render_items (render_item depth) (item :: rest)
              (mkRenderState G []) style_ last_item render_list)
    as [[items1 st1] r1] eqn:E.
  destruct (render_items_repeatable _ (render_item_repeatable depth)
              _ _ _ _ _ _ _ _ E) as [_ A].
  destruct (render_items_cons (render_item depth) item rest (mkRenderState G [])
              style_ last_item render_list) as (item' & rest' & Hcons).
  rewrite E in Hcons. cbn [fst] in Hcons. subst items1.
  intros [= <- <- <-] HG. cbn [_subitems].
  specialize (A G2 HG). cbn [path_gsds] in A. rewrite A. reflexivity.
Qed.

End RepeatablePaths.

(** ** Rendering a drawing of the same content *)

Section Stable.
Context {Number : Type} {py : Python Number}.
Implicit Types (G : Registry) (st : RenderState) (s : GraphicsStyle Number)
  (g : GraphicsContext Number) (p : PaintedPath Number).

Section Over.
Variable render : ItemRenderer Number.
Hypothesis render_repeatable : repeatable_renderer render.
Hypothesis render_stable : stable_renderer render.

Lemma render_items_stable style_ :
  forall last_item render_list,
    stable (fun items st =>
              render_items render items st style_ last_item render_list).
Proof.
  intros last_item render_list items. revert last_item render_list.
  induction items as [|item rest IH]; intros last_item render_list st x' st' r.
  - cbn [render_items]. intros [= <- <- <-] G2 _. reflexivity.
  - cbn [render_items].
    destruct (render item st style_ last_item) as [[item1 st1] r1] eqn:E1.
    pose proof (render_stable style_ last_item _ _ _ _ _ E1) as A1.
    destruct r1 as [[rendered last1]|e].
    + destruct (render_items render rest st1 style_ last1
                  (append_rendered render_list rendered))
        as [[rest2 st2] r2] eqn:E2.
      destruct (render_items_repeatable render render_repeatable _ _ _ _ _ _ _ _ E2)
        as [L2 _].
      pose proof (IH _ _ _ _ _ _ E2) as A2.
      intros [= <- <- <-] G2 HG. cbn [render_items].
      rewrite (A1 G2) by (eapply registry_le_trans; eassumption).
      specialize (A2 G2 HG). cbn [path_gsds] in A2.
      rewrite A2. reflexivity.
    + intros [= <- <- <-] G2 HG. cbn [render_items]. rewrite (A1 G2 HG).
      reflexivity.
Qed.

Lemma render_clip_stable merged_style last_item render_list :
  stable (fun clip st => render_clip render clip st merged_style last_item
                           render_list).
Proof.
  intros clip st clip' st' r. unfold render_clip.
  destruct clip as [cp|].
  - destruct (render cp st merged_style last_item) as [[cp1 st1] r1] eqn:E1.
    pose proof (render_stable merged_style last_item _ _ _ _ _ E1) as A1.
    destruct r1 as [[rendered last1]|e]; intros [= <- <- <-] G2 HG;
      rewrite (A1 G2 HG); reflexivity.
  - intros [= <- <- <-] G2 _. reflexivity.
Qed.

Lemma build_render_list_stable style_ last_item push :
  stable (fun g st => build_render_list render g st style_ last_item push).
Proof.
  intros g st g' st' r. rewrite build_render_list_eq.
  destruct (path_items g) as [|item rest] eqn:Eitems.
  { intros [= <- <- <-] G2 _. rewrite build_render_list_eq, Eitems.
    reflexivity. }
  destruct (merge style_ (style g)) as [merged_style|e] eqn:Emerge.
  2:{ intros [= <- <- <-] G2 _. rewrite build_render_list_eq, Eitems, Emerge.
      reflexivity. }
  destruct (emit_style (style g) st) as [st1 r1] eqn:Eemit.
  destruct r1 as [render_list|e].
  2:{ intros [= <- <- <-] G2 HG. rewrite build_render_list_eq, Eitems, Emerge.
      rewrite (emit_style_again _ _ _ _ _ Eemit HG). reflexivity. }
  destruct (render_clip render (clipping_path g) st1 merged_style last_item
              render_list) as [[clip st2] r2] eqn:Eclip.
  destruct (render_clip_repeatable render render_repeatable _ _ _ _ _ _ _ _ Eclip)
    as [L2 _].
  pose proof (render_clip_stable _ _ _ _ _ _ _ _ Eclip) as A2.
  destruct r2 as [render_list2|e].
  2:{ intros [= <- <- <-] G2 HG. rewrite build_render_list_eq, Eitems, Emerge.
      rewrite (emit_style_again _ _ _ _ G2 Eemit)
        by (eapply registry_le_trans; eassumption).
      specialize (A2 G2 HG). cbn [path_gsds] in A2. rewrite A2. reflexivity. }
  assert (path_items (set_clipping_path g clip) = item :: rest) as Eitems'.
  { destruct g. exact Eitems. }
  cbv zeta. rewrite Eitems'.
  destruct (render_items render (item :: rest) st2 merged_style last_item
              render_list2) as [[items st3] r3] eqn:Eloop.
  destruct (render_items_repeatable render render_repeatable _ _ _ _ _ _ _ _ Eloop)
    as [L3 _].
  pose proof (render_items_stable _ _ _ _ _ _ _ _ Eloop) as A3.
  intros Hout G2 HG. rewrite build_render_list_eq, Eitems, Emerge.
  assert (registry_le (registry st3) G2) as HG3.
  { destruct r3 as [[rl last3]|e]; injection Hout as <- <- <-; exact HG. }
  rewrite (emit_style_again _ _ _ _ G2 Eemit)
    by (eapply registry_le_trans; [exact L2 | eapply registry_le_trans; eassumption]).
  rewrite (A2 G2) by (eapply registry_le_trans; eassumption).
  cbn [path_gsds]. cbv zeta. rewrite Eitems'.
  specialize (A3 G2 HG3). cbn [path_gsds] in A3. rewrite A3.
  destruct r3 as [[rl last3]|e]; injection Hout as <- <- <-; reflexivity.
Qed.

Lemma GraphicsContext_render_stable style_ last_item :
  stable (fun g st => GraphicsContext_render render g st style_ last_item).
Proof.
  intros g st g' st' r. unfold GraphicsContext_render.
  destruct (build_render_list render g st style_ last_item true)
    as [[g1 st1] r1] eqn:E.
  pose proof (build_render_list_stable _ _ _ _ _ _ _ _ E) as A.
  destruct r1 as [[render_list last1]|e]; intros [= <- <- <-] G2 HG;
    rewrite (A G2 HG); reflexivity.
Qed.

Lemma PaintedPath_render_stable style_ last_item :
  stable (fun p st => PaintedPath_render render p st style_ last_item).
Proof.
  intros p st p' st' r. unfold PaintedPath_render.
  set (p1 := _insert_implicit_close_if_open p).
  destruct (build_render_list render (_root_graphics_context p1) st style_
              last_item true) as [[root1 st1] r1] eqn:E.
  pose proof (build_render_list_stable _ _ _ _ _ _ _ _ E) as A.
  destruct r1 as [[render_list last1]|e]; intros [= <- <- <-] G2 HG;
    rewrite (A G2 HG); reflexivity.
Qed.

Lemma ClippingPath_render_stable style_ last_item :
  stable (fun p st => ClippingPath_render render p st style_ last_item).
Proof.
  intros p st p' st' r. unfold ClippingPath_render.
  destruct (build_render_list render (_root_graphics_context p) st style_
              last_item false) as [[root1 st1] r1] eqn:E.
  pose proof (build_render_list_stable _ _ _ _ _ _ _ _ E) as A.
  destruct r1 as [[render_list last1]|e]; intros [= <- <- <-] G2 HG;
    rewrite (A G2 HG); reflexivity.
Qed.

Lemma render_dispatch_stable : stable_renderer (render_dispatch render).
Proof.
  intros style_ last_item item st item' st' r. unfold render_dispatch.
  destruct item as [e|g|p].
  - intros [= <- <- <-] G2 _. reflexivity.
  - destruct (GraphicsContext_render render g st style_ last_item)
      as [[g1 st1] r1] eqn:E.
    pose proof (GraphicsContext_render_stable _ _ _ _ _ _ _ E) as A.
    intros [= <- <- <-] G2 HG. rewrite (A G2 HG). reflexivity.
  - destruct (is_clipping_path p) eqn:Eclip.
    + destruct (ClippingPath_render render p st style_ last_item)
        as [[p1 st1] r1] eqn:E.
      pose proof (ClippingPath_render_stable _ _ _ _ _ _ _ E) as A.
      intros [= <- <- <-] G2 HG. rewrite (A G2 HG). reflexivity.
    + destruct (PaintedPath_render render p st style_ last_item)
        as [[p1 st1] r1] eqn:E.
      pose proof (PaintedPath_render_stable _ _ _ _ _ _ _ E) as A.
      intros [= <- <- <-] G2 HG. rewrite (A G2 HG). reflexivity.
Qed.

End Over.

Lemma render_item_stable (depth : nat) : stable_renderer (render_item depth).
Proof.
  induction depth as [|depth IH].
  - intros style_ last_item item st item' st' r. cbn [render_item].
    intros [= <- <- <-] G2 _. reflexivity.
  - cbn [render_item]. intros style_ last_item.
    exact (render_dispatch_stable (render_item depth)
             (render_item_repeatable depth) IH style_ last_item).
Qed.

(** Rendering a drawing of the same content, in a registry that holds what
    the first rendering left, returns what the first rendering returned,
    leaves the drawing as the first rendering left its own, and adds nothing
    to the registry. *)
Lemma DrawingContext_render_fresh (depth : nat) (dc : DrawingContext Number)
  (first_point : Point Number) (scale height : Number) G dc1 G1 r G2 :
  DrawingContext_render depth dc first_point scale height G = (dc1, G1, r) ->
  registry_le G1 G2 ->
  DrawingContext_render depth dc first_point scale height G2 = (dc1, G2, r).
Proof.
  unfold DrawingContext_render. destruct dc as [items]. cbn [_subitems].
  destruct items as [|item rest].
  { intros [= <- <- <-] _. reflexivity. }
  destruct (_setup_render_prereqs first_point scale height)
    as [[[render_list style_] last_item]|e].
  2:{ intros [= <- <- <-] _. reflexivity. }
  destruct (render_items (render_item depth) (item :: rest)
              (mkRenderState G []) style_ last_item render_list)
    as [[items1 st1] r1] eqn:E.
  pose proof (render_items_stable _ (render_item_repeatable depth)
                (render_item_stable depth) _ _ _ _ _ _ _ _ E) as A.
  intros [= <- <- <-] HG.
  specialize (A G2 HG). cbn [path_gsds] in A. rewrite A. reflexivity.
Qed.

End Stable.

(** ** The recursion limit *)

Section RecursionDepth.
Context {Number : Type} {py : Python Number}.
Implicit Types (G : Registry) (st : RenderState) (s : GraphicsStyle Number)
  (g : GraphicsContext Number) (p : PaintedPath Number).

Section Over.
Variables render render' : ItemRenderer Number.
Hypothesis render_deeper : deepens render render'.

Lemma render_items_deeper items st style_ last_item render_list :
  within_depth (render_items render items st style_ last_item render_list) ->
  render_items render' items st style_ last_item render_list
  = render_items render items st style_ last_item render_list.
Proof.
  unfold within_depth. revert st last_item render_list.
  induction items as [|item rest IH]; intros st last_item render_list;
    [reflexivity|].
  cbn [render_items].
  pose proof (render_deeper item st style_ last_item) as Hd.
  unfold within_depth in Hd.
  destruct (render item st style_ last_item) as [[item1 st1] [[rendered last1]|e]].
  - rewrite Hd by reflexivity.
    specialize (IH st1 last1 (append_rendered render_list rendered)).
    destruct (render_items render rest st1 style_ last1
                (append_rendered render_list rendered)) as [[rest1 st2] r].
    cbn [snd] in *. intros H. rewrite (IH H). reflexivity.
  - cbn [snd] in *. intros H. rewrite (Hd H). reflexivity.
Qed.

Lemma render_clip_deeper clip st merged_style last_item render_list :
  within_depth (render_clip render clip st merged_style last_item render_list) ->
  render_clip render' clip st merged_style last_item render_list
  = render_clip render clip st merged_style last_item render_list.
Proof.
  unfold within_depth, render_clip. destruct clip as [cp|]; [|reflexivity].
  pose proof (render_deeper cp st merged_style last_item) as Hd.
  unfold within_depth in Hd.
  destruct (render cp st merged_style last_item)
    as [[cp1 st1] [[rendered last1]|e]]; cbn [snd] in *.
  - rewrite Hd by reflexivity. reflexivity.
  - intros H. rewrite (Hd H). reflexivity.
Qed.

Lemma build_render_list_deeper g st style_ last_item push :
  within_depth (build_render_list render g st style_ last_item push) ->
  build_render_list render' g st style_ last_item push
  = build_render_list render g st style_ last_item push.
Proof.
  unfold within_depth. rewrite !build_render_list_eq.
  destruct (path_items g) as [|item rest]; [reflexivity|].
  destruct (merge style_ (style g)) as [merged_style|e]; [|reflexivity].
  destruct (emit_style (style g) st) as [st1 [render_list|e]]; [|reflexivity].
  pose proof (render_clip_deeper (clipping_path g) st1 merged_style last_item
                render_list) as Hclip.
  unfold within_depth in Hclip.
  destruct (render_clip render (clipping_path g) st1 merged_style last_item
              render_list) as [[clip st2] [render_list2|e]]; cbn [snd] in *.
  2:{ intros H. rewrite (Hclip H). reflexivity. }
  rewrite Hclip by reflexivity. cbv zeta.
  pose proof (render_items_deeper (path_items (set_clipping_path g clip)) st2
                merged_style last_item render_list2) as Hloop.
  unfold within_depth in Hloop.
  destruct (render_items render (path_items (set_clipping_path g clip)) st2
              merged_style last_item render_list2)
    as [[items st3] [[rl last3]|e]]; cbn [snd] in *.
  - rewrite Hloop by reflexivity. reflexivity.
  - intros H. rewrite (Hloop H). reflexivity.
Qed.

Lemma GraphicsContext_render_deeper g st style_ last_item :
  within_depth (GraphicsContext_render render g st style_ last_item) ->
  GraphicsContext_render render' g st style_ last_item
  = GraphicsContext_render render g st style_ last_item.
Proof.
  unfold within_depth, GraphicsContext_render.
  pose proof (build_render_list_deeper g st style_ last_item true) as Hb.
  unfold within_depth in Hb.
  destruct (build_render_list render g st style_ last_item true)
    as [[g1 st1] [[render_list last1]|e]]; cbn [snd] in *.
  - rewrite Hb by reflexivity. reflexivity.
  - intros H. rewrite (Hb H). reflexivity.
Qed.

Lemma PaintedPath_render_deeper p st style_ last_item :
  within_depth (PaintedPath_render render p st style_ last_item) ->
  PaintedPath_render render' p st style_ last_item
  = PaintedPath_render render p st style_ last_item.
Proof.
  unfold within_depth, PaintedPath_render. cbv zeta.
  pose proof (build_render_list_deeper
                (_root_graphics_context (_insert_implicit_close_if_open p))
                st style_ last_item true) as Hb.
  unfold within_depth in Hb.
  destruct (build_render_list render _ st style_ last_item true)
    as [[g1 st1] [[render_list last1]|e]]; cbn [snd] in *.
  - rewrite Hb by reflexivity. reflexivity.
  - intros H. rewrite (Hb H). reflexivity.
Qed.

Lemma ClippingPath_render_deeper p st style_ last_item :
  within_depth (ClippingPath_render render p st style_ last_item) ->
  ClippingPath_render render' p st style_ last_item
  = ClippingPath_render render p st style_ last_item.
Proof.
  unfold within_depth, ClippingPath_render. cbv zeta.
  pose proof (build_render_list_deeper (_root_graphics_context p)
                st style_ last_item false) as Hb.
  unfold within_depth in Hb.
  destruct (build_render_list render _ st style_ last_item false)
    as [[g1 st1] [[render_list last1]|e]]; cbn [snd] in *.
  - rewrite Hb by reflexivity. reflexivity.
  - intros H. rewrite (Hb H). reflexivity.
Qed.

Lemma render_dispatch_deeper :
  deepens (render_dispatch render) (render_dispatch render').
Proof.
  intros item st style_ last_item. unfold within_depth, render_dispatch.
  destruct item as [e|g|p]; [reflexivity| |].
  - pose proof (GraphicsContext_render_deeper g st style_ last_item) as Hg.
    unfold within_depth in Hg.
    destruct (GraphicsContext_render render g st style_ last_item)
      as [[g1 st1] r1]; cbn [snd] in *.
    intros H. rewrite (Hg H). reflexivity.
  - destruct (is_clipping_path p).
    + pose proof (ClippingPath_render_deeper p st style_ last_item) as Hp.
      unfold within_depth in Hp.
      destruct (ClippingPath_render render p st style_ last_item)
        as [[p1 st1] r1]; cbn [snd] in *.
      intros H. rewrite (Hp H). reflexivity.
    + pose proof (PaintedPath_render_deeper p st style_ last_item) as Hp.
      unfold within_depth in Hp.
      destruct (PaintedPath_render render p st style_ last_item)
        as [[p1 st1] r1]; cbn [snd] in *.
      intros H. rewrite (Hp H). reflexivity.
Qed.

End Over.

(** A rendering that did not run into the recursion limit is the same with
    more room on the stack. *)
Lemma render_item_deeper (depth : nat) :
  deepens (render_item depth) (render_item (S depth)).
Proof.
  induction depth as [|depth IH].
  - intros item st style_ last_item H. discriminate H.
  - change (deepens (render_dispatch (render_item depth))
                    (render_dispatch (render_item (S depth)))).
    apply render_dispatch_deeper, IH.
Qed.

Lemma DrawingContext_render_deeper (depth more : nat)
  (dc : DrawingContext Number) (first_point : Point Number)
  (scale height : Number) G :
  within_depth (DrawingContext_render depth dc first_point scale height G) ->
  DrawingContext_render (depth + more) dc first_point scale height G
  = DrawingContext_render depth dc first_point scale height G.
Proof.
  intros H. induction more as [|more IH].
  { rewrite Nat.add_0_r. reflexivity. }
  rewrite Nat.add_succ_r, <- IH. rewrite <- IH in H.
  revert H. generalize (depth + more)%nat as d. clear IH. intros d.
  unfold within_depth, DrawingContext_render.
  destruct (_subitems dc) as [|item rest]; [reflexivity|].
  destruct (_setup_render_prereqs first_point scale height)
    as [[[render_list style_] last_item]|e]; [|reflexivity].
  pose proof (render_items_deeper _ _ (render_item_deeper d) (item :: rest)
                (mkRenderState G []) style_ last_item render_list) as Hloop.
  unfold within_depth in Hloop.
  destruct (render_items (render_item d) (item :: rest) (mkRenderState G [])
              style_ last_item render_list) as [[items st1] [[rl last1]|e]];
    cbn [snd] in *.
  - rewrite Hloop by reflexivity. reflexivity.
  - intros H. rewrite (Hloop H). reflexivity.
Qed.

End RecursionDepth.

(** ** Determinism of rendering *)

Section RenderDeterministic.
Context {Number : Type} {py : Python Number}.

(** C5. Rendering is repeatable. Whatever a first call of
    [DrawingContext.render] returns (operator string and resource names, or
    the exception it raised), a second call with the same first point, scale
    and page height returns the same and changes neither the drawing nor the
    registry; so does any later call, whatever other styles were registered
    in between, and so does the rendering of another drawing of the same
    content; and unless the first call ran into the recursion limit, so
    they do with any more room on the stack. *)
Theorem C5_render_deterministic (depth : nat) (dc : DrawingContext Number)
  (first_point : Point Number) (scale height : Number) (G : Registry) :
  let '(dc1, G1, r) := DrawingContext_render depth dc first_point scale height G in
  DrawingContext_render depth dc1 first_point scale height G1 = (dc1, G1, r)
  /\ (forall G2, later G1 G2 ->
      DrawingContext_render depth dc1 first_point scale height G2 = (dc1, G2, r)
      /\ DrawingContext_render depth dc first_point scale height G2 = (dc1, G2, r))
  /\ (is_RecursionError r = false ->
      forall more G2, later G1 G2 ->
        DrawingContext_render (depth + more) dc1 first_point scale height G2
        = (dc1, G2, r)
        /\ DrawingContext_render (depth + more) dc first_point scale height G2
           = (dc1, G2, r)).
Proof.
  destruct (DrawingContext_render depth dc first_point scale height G)
    as [[dc1 G1] r] eqn:E.
  split; [|split].
  - exact (DrawingContext_render_again _ _ _ _ _ _ _ _ _ _ E (registry_le_refl G1)).
  - intros G2 HG. apply later_le in HG. split.
    + exact (DrawingContext_render_again _ _ _ _ _ _ _ _ _ _ E HG).
    + exact (DrawingContext_render_fresh _ _ _ _ _ _ _ _ _ _ E HG).
  - intros Hr more G2 HG. apply later_le in HG.
    assert (DrawingContext_render (depth + more) dc first_point scale height G
            = (dc1, G1, r)) as E'.
    { rewrite DrawingContext_render_deeper; [exact E|].
      unfold within_depth. rewrite E. exact Hr. }
    split.
    + exact (DrawingContext_render_again _ _ _ _ _ _ _ _ _ _ E' HG).
    + exact (DrawingContext_render_fresh _ _ _ _ _ _ _ _ _ _ E' HG).
Qed.

End RenderDeterministic.

(** * The theorems at concrete inputs *)

Section Evaluated.
Import Binary64.
#[local] Existing Instance plain.
#[local] Open Scope float_scope.

(** A stroked style with no fill resolves to STROKE. *)
Lemma C1_resolve_paint_rule_auto_witness :
  paint_rule Examples.stroked = AUTO
  /\ resolve_paint_rule Examples.stroked = Ok (member PathPaintRule.STROKE).
Proof.
  split; [reflexivity|].
  apply (proj1 (C1_resolve_paint_rule_auto Examples.stroked eq_refl));
    reflexivity.
Defined.

(** [dashed] is built by property assignments, so it is well-formed. *)
Lemma well_formed_dashed : well_formed Examples.dashed.
Proof.
  unfold Examples.dashed. cbv zeta.
  apply (set_property_well_formed P_stroke_dash_pattern); [discriminate|].
  apply (set_property_well_formed P_stroke_width); [discriminate|].
  apply (set_property_well_formed P_fill_color); [discriminate|].
  apply well_formed_empty.
Qed.

(** Merging [dashed] with the style that sets nothing, on either side. *)
Lemma C2_merge_identity_witness :
  well_formed Examples.dashed
  /\ all_INHERIT (∅ : GraphicsStyle float)
  /\ (exists m, merge ∅ Examples.dashed = Ok m
                /\ forall prop, In prop MERGE_PROPERTIES ->
                     get_property m prop = get_property Examples.dashed prop)
  /\ (exists m, merge Examples.dashed ∅ = Ok m
                /\ forall prop, In prop MERGE_PROPERTIES ->
                     get_property m prop = get_property Examples.dashed prop).
Proof.
  assert (well_formed Examples.dashed) as Hwf.
  { unfold well_formed, attribute_domains.
    repeat apply Forall_cons_2; try apply Forall_nil_2; vm_compute;
      reflexivity. }
  assert (all_INHERIT (∅ : GraphicsStyle float)) as Hin.
  { intros []; reflexivity. }
  exact (conj Hwf (conj Hin (C2_merge_identity Examples.dashed ∅ Hwf Hin))).
Defined.

(** An arc of radii (0, 5) from the end of [open_path] to (3, 4). *)
Lemma C3_degenerate_arc_is_line_witness :
  num_eq_Z 0 0 = true
  /\ arc_to Examples.open_path 0 5 0 (PyBool false) (PyBool true) 3 4
     = Ok (line_to Examples.open_path 3 4)
  /\ arc_relative Examples.open_path 0 5 0 (PyBool false) (PyBool true) 3 4
     = Ok (line_relative Examples.open_path 3 4).
Proof.
  split; [reflexivity|].
  pose proof (C3_degenerate_arc_is_line Examples.open_path 0 5 0
                (PyBool false) (PyBool true) 3 4 (or_introl eq_refl))
    as (Hto & Hrel & _).
  exact (conj Hto Hrel).
Defined.

(** From the module's initial state: [dashed] is interned as GS1, then
    [stroked], of another content, as GS2, one entry more; [dashed] keeps
    its name, without a new entry, and the style that sets no key gets no
    name. *)
Lemma C6_registry_interning_witness :
  reachable (initial_registry (Number := float))
  /\ reachable Examples.one_style
  /\ _get_or_set_style_dict Examples.dashed initial_registry
     = (Examples.one_style, Ok (Some "GS1"))
  /\ snd (_get_or_set_style_dict Examples.stroked Examples.one_style)
     = Ok (Some "GS2")
  /\ size (_global_style_registry
             (fst (_get_or_set_style_dict Examples.stroked Examples.one_style)))
     = 3%nat
  /\ _get_or_set_style_dict Examples.dashed Examples.one_style
     = (Examples.one_style, Ok (Some "GS1"))
  /\ _get_or_set_style_dict (∅ : GraphicsStyle float) Examples.one_style
     = (Examples.one_style, Ok None).
Proof.
  assert (reachable Examples.one_style) as Hone.
  { apply reachable_step, reachable_initial. }
  split; [apply reachable_initial|]. split; [exact Hone|].
  pose proof (C6_registry_interning initial_registry reachable_initial)
    as (_ & _ & Hsame & _ & _ & _ & Hnew0 & _).
  pose proof (C6_registry_interning Examples.one_style Hone)
    as (_ & _ & _ & _ & _ & Hempty & Hnew1 & _).
  assert (exists sdict,
            to_pdf_dict Examples.dashed = Ok sdict
            /\ _global_style_registry initial_registry !! sdict = None)
    as (d0 & Hd0 & Hn0) by (eexists; split; vm_compute; reflexivity).
  assert (exists sdict,
            to_pdf_dict Examples.stroked = Ok sdict
            /\ _global_style_registry Examples.one_style !! sdict = None)
    as (d1 & Hd1 & Hn1) by (eexists; split; vm_compute; reflexivity).
  destruct (Hnew0 Examples.dashed d0 Hd0 Hn0) as (E0 & _ & _).
  destruct (Hnew1 Examples.stroked d1 Hd1 Hn1) as (E1 & S1 & _).
  assert (_get_or_set_style_dict Examples.dashed initial_registry
          = (Examples.one_style, Ok (Some "GS1"))) as Hfirst.
  { rewrite E0. unfold Examples.one_style. rewrite E0. reflexivity. }
  split; [exact Hfirst|].
  split; [rewrite E1; reflexivity|].
  split; [rewrite S1; vm_compute; reflexivity|].
  split.
  - apply (Hsame Examples.dashed Examples.dashed Examples.one_style);
      [exact Hfirst | apply later_now | reflexivity].
  - apply Hempty. intros []; reflexivity.
Defined.

(** What the example drawing renders to, and that it renders to the same
    again. *)
Lemma drawing_rendered :
  snd (DrawingContext_render 2 Examples.drawing (mkPoint 0 0) 1 10
         initial_registry)
  = Ok ("q 1 0 0 -1 0 10 cm q /GS1 gs 1 0 0 rg [3 1] 0 d 0 0 m 1 2 l 3 4 l h B Q q 0 0 m 1 2 l 3 4 l h B Q Q"%string,
        ["GS1"%string]).
Proof. vm_compute. reflexivity. Qed.


End Evaluated.

(** * Further properties *)

(** ** Merging, in general *)

Section MergeInGeneral.
Context {Number : Type} {py : Python Number}.
Implicit Types (s t parent child m : GraphicsStyle Number) (v : pyval Number).

Lemma getattr_overlay parent child key :
  In key attribute_names ->
  getattr (overlay parent child) key = inherited_attribute parent child key.
Proof.
  unfold overlay, attribute_names. cbn [foldr In].
  intros H.
  repeat (destruct H as [<-|H];
          [repeat first [ rewrite getattr_setattr_eq
                        | rewrite getattr_setattr_ne by discriminate ];
           reflexivity|]).
  destruct H.
Qed.

Lemma attribute_names_domains :
  map fst (attribute_domains (Number := Number)) = attribute_names.
Proof. reflexivity. Qed.

(** Being well-formed is a matter of the thirteen attributes. *)
Lemma well_formed_same_attributes m s :
  Forall (fun key => getattr m key = getattr s key) attribute_names ->
  well_formed s -> well_formed m.
Proof.
  unfold well_formed, attribute_names, attribute_domains. intros H Hs.
  repeat (apply Forall_cons in H as [? H]). clear H.
  repeat (apply Forall_cons in Hs as [? Hs]). clear Hs.
  cbn [fst snd] in *.
  repeat apply Forall_cons_2; try apply Forall_nil_2; cbn [fst snd];
    match goal with
    | E : getattr m ?k = _ |- context [getattr m ?k] => rewrite E; assumption
    end.
Qed.

Lemma inherited_attribute_domain parent child key ok :
  ok (getattr parent key) = true -> ok (getattr child key) = true ->
  ok (inherited_attribute parent child key) = true.
Proof.
  intros Hp Hc. unfold inherited_attribute.
  destruct (is_INHERIT (getattr child key)); assumption.
Qed.

Lemma well_formed_overlay parent child :
  well_formed parent -> well_formed child -> well_formed (overlay parent child).
Proof.
  unfold well_formed, attribute_domains. intros Hp Hc.
  repeat (apply Forall_cons in Hp as [? Hp]). clear Hp.
  repeat (apply Forall_cons in Hc as [? Hc]). clear Hc.
  cbn [fst snd] in *.
  repeat apply Forall_cons_2; try apply Forall_nil_2; cbn [fst snd];
    (rewrite getattr_overlay by (cbn; tauto));
    apply inherited_attribute_domain; assumption.
Qed.

(** What [merge] assigns are the properties of the overlay. *)
Lemma merged_value_overlay parent child prop :
  well_formed child ->
  merged_value parent child prop = get_property (overlay parent child) prop.
Proof.
  unfold well_formed, attribute_domains. intros Hc.
  repeat (apply Forall_cons in Hc as [? Hc]). clear Hc.
  cbn [fst snd] in *.
  unfold merged_value.
  destruct prop; cbn [get_property bind];
    unfold paint_rule, auto_close, intersection_rule, fill_color, fill_opacity,
      stroke_color, stroke_opacity, blend_mode, stroke_width, stroke_cap_style,
      stroke_join_style, stroke_miter_limit, stroke_dash_pattern,
      stroke_dash_phase; cbn [PDFStyleKeys.value];
    (rewrite getattr_overlay by (cbn; tauto));
    unfold inherited_attribute;
    try (destruct (is_INHERIT (getattr child _)); reflexivity).
  - (* the dash pattern *)
    destruct (getattr child "D") as [| | | | | | | | |l| | | | |];
      try discriminate; [reflexivity|].
    destruct l as [|[| | | | | | | | |pattern| | | | |] [|phase [|]]];
      try discriminate.
    reflexivity.
  - (* the dash phase *)
    destruct (getattr child "D") as [| | | | | | | | |l| | | | |];
      try discriminate; [reflexivity|].
    destruct l as [|[| | | | | | | | |pattern| | | | |] [|phase [|]]];
      try discriminate.
    cbn [py_as_tuple tuple_item nth_error bind is_INHERIT].
    match goal with H : ok_dash _ = true |- _ => cbn [ok_dash] in H end.
    destruct phase; try discriminate; reflexivity.
Qed.

(** [merge] on well-formed styles, attribute by attribute. *)
Lemma merge_attributes parent child :
  well_formed parent -> well_formed child ->
  exists m, merge parent child = Ok m
            /\ Forall (fun key => getattr m key
                                  = inherited_attribute parent child key)
                 attribute_names.
Proof.
  intros Hp Hc.
  destruct (copy_loop_well_formed (overlay parent child)
              (well_formed_overlay _ _ Hp Hc)) as (m & Hm & Hattrs).
  exists m. split.
  - unfold merge. rewrite (merge_loop_copy parent child (overlay parent child));
      [exact Hm|].
    intros prop. apply merged_value_overlay, Hc.
  - rewrite Forall_forall in *. intros key Hkey.
    rewrite (Hattrs key Hkey). apply getattr_overlay, list_elem_of_In, Hkey.
Qed.

(** What a successful [merge] of well-formed styles returns. *)
Lemma merge_keeps_well_formed parent child m :
  well_formed parent -> well_formed child -> merge parent child = Ok m ->
  well_formed m
  /\ forall prop, get_property m prop = merged_value parent child prop.
Proof.
  intros Hp Hc Hm.
  destruct (merge_attributes parent child Hp Hc) as (m' & Hm' & Hattrs).
  assert (m' = m) as -> by congruence.
  assert (Forall (fun key => getattr m key = getattr (overlay parent child) key)
            attribute_names) as Hsame.
  { rewrite Forall_forall in *. intros key Hkey.
    rewrite (Hattrs key Hkey). symmetry.
    apply getattr_overlay, list_elem_of_In, Hkey. }
  split.
  - apply (well_formed_same_attributes m (overlay parent child) Hsame).
    apply well_formed_overlay; assumption.
  - intros prop.
    rewrite (same_attributes_same_properties m (overlay parent child) Hsame).
    symmetry. apply (merged_value_overlay parent child prop Hc).
Qed.

(** X1. For well-formed styles, [merge(parent, child)] returns a
    well-formed style whose every property is the child's, unless the child's
    is INHERIT: then it is the parent's. *)
Theorem merge_child_over_parent parent child :
  well_formed parent -> well_formed child ->
  exists m, merge parent child = Ok m
            /\ well_formed m
            /\ forall prop,
                 get_property m prop
                 = (cval <- get_property child prop ;;
                    if is_INHERIT cval then get_property parent prop
                    else Ok cval).
Proof.
  intros Hp Hc.
  destruct (merge_attributes parent child Hp Hc) as (m & Hm & _).
  destruct (merge_keeps_well_formed parent child m Hp Hc Hm) as [Hwf Hprops].
  exists m. split; [exact Hm|]. split; [exact Hwf|].
  intros prop. rewrite Hprops. reflexivity.
Qed.

Lemma inherited_attribute_assoc (a b c ab bc : GraphicsStyle Number) key :
  getattr ab key = inherited_attribute a b key ->
  getattr bc key = inherited_attribute b c key ->
  inherited_attribute ab c key = inherited_attribute a bc key.
Proof.
  unfold inherited_attribute. intros Hab Hbc. rewrite Hab, Hbc.
  destruct (is_INHERIT (getattr c key)) eqn:Ec; [reflexivity|].
  rewrite Ec. reflexivity.
Qed.

(** X2. Merging down a chain of three well-formed styles gives the same
    properties whichever two are merged first. *)
Theorem merge_associative (a b c : GraphicsStyle Number) :
  well_formed a -> well_formed b -> well_formed c ->
  exists ab bc left right,
    merge a b = Ok ab /\ merge ab c = Ok left
    /\ merge b c = Ok bc /\ merge a bc = Ok right
    /\ forall prop, get_property left prop = get_property right prop.
Proof.
  intros Ha Hb Hc.
  destruct (merge_attributes a b Ha Hb) as (ab & Eab & Aab).
  destruct (merge_attributes b c Hb Hc) as (bc & Ebc & Abc).
  destruct (merge_keeps_well_formed a b ab Ha Hb Eab) as [Hab _].
  destruct (merge_keeps_well_formed b c bc Hb Hc Ebc) as [Hbc _].
  destruct (merge_attributes ab c Hab Hc) as (left & El & Al).
  destruct (merge_attributes a bc Ha Hbc) as (right & Er & Ar).
  exists ab, bc, left, right. repeat split; try assumption.
  apply same_attributes_same_properties.
  rewrite Forall_forall in *. intros key Hkey.
  rewrite (Al key Hkey), (Ar key Hkey).
  apply (inherited_attribute_assoc a b c ab bc key);
    [apply (Aab key Hkey) | apply (Abc key Hkey)].
Qed.

End MergeInGeneral.

(** ** Assignments to a style *)

Section Assignments.
Context {Number : Type} {py : Python Number}.
Implicit Types (s t : GraphicsStyle Number) (v : pyval Number).

(** X3. Whatever is assigned to its properties, and whether the assignments
    return or raise, a style holds in each attribute a value of the
    attribute's domain. *)
Theorem assigned_styles_are_well_formed s : assigned s -> well_formed s.
Proof.
  induction 1 as [|prop s v _ IH Hv].
  - apply well_formed_empty.
  - apply set_property_well_formed; assumption.
Qed.

Lemma set_opacity_alpha key s (a : Number) :
  num_in_unit a = true ->
  set_opacity key s (PyNum a) = (setattr s (PDFStyleKeys.value key) (PyNum a), Ok tt).
Proof. intros H. apply set_opacity_ok, ok_opacity_alpha, H. Qed.

Lemma set_color_raises attr key s v e :
  valid_value v ->
  snd (set_color attr (set_opacity key) s v) = Raise e ->
  fst (set_color attr (set_opacity key) s v) = s.
Proof.
  intros Hv. unfold set_color.
  destruct (match py_as_str v with Some _ => _ | None => _ end)
    as [color|e'] eqn:Ecolor; [|reflexivity].
  assert (forall c, color = PyColor c -> valid_color c = true) as Hvalid.
  { intros c ->. destruct (py_as_str v) as [text|] eqn:Es.
    - destruct (color_from_hex_string text) as [c'|] eqn:Ehex; [|discriminate].
      injection Ecolor as <-. exact (color_from_hex_string_valid _ _ Ehex).
    - injection Ecolor as ->. apply Hv. reflexivity. }
  destruct color; try reflexivity; try discriminate.
  specialize (Hvalid c eq_refl). unfold valid_color in Hvalid.
  destruct (color_alpha c) as [a|]; [|discriminate].
  rewrite (set_opacity_alpha key _ a Hvalid). discriminate.
Qed.

(** X4. An assignment that raises leaves the style as it was, with one
    exception: [paint_rule = None], which has stored DONT_PAINT before it
    raises. *)
Theorem failed_assignment_keeps_style prop s v e :
  valid_value v ->
  snd (set_property prop s v) = Raise e ->
  fst (set_property prop s v) = s
  \/ (prop = P_paint_rule /\ v = PyNone).
Proof.
  intros Hv. destruct prop; cbn [set_property].
  - (* paint_rule *)
    unfold set_paint_rule. destruct v; cbn [is_None is_INHERIT];
      try discriminate;
      (destruct (CoerciveEnum_coerce _); [discriminate | auto]).
  - unfold set_auto_close.
    destruct (in_True_False_INHERIT v) as [[]|]; try discriminate; auto.
  - unfold set_intersection_rule. destruct (is_INHERIT v); [discriminate|].
    destruct (CoerciveEnum_coerce _); [discriminate | auto].
  - intros H. left. exact (set_color_raises _ _ _ _ _ Hv H).
  - unfold set_fill_opacity, set_opacity.
    destruct (in_None_INHERIT v) as [skip|]; [|auto].
    destruct (if skip then Ok v else _check_range v); [discriminate | auto].
  - intros H. left. exact (set_color_raises _ _ _ _ _ Hv H).
  - unfold set_stroke_opacity, set_opacity.
    destruct (in_None_INHERIT v) as [skip|]; [|auto].
    destruct (if skip then Ok v else _check_range v); [discriminate | auto].
  - unfold set_blend_mode. cbv zeta. destruct (is_INHERIT v); [discriminate|].
    destruct (CoerciveEnum_coerce _); [discriminate | auto].
  - unfold set_stroke_width. cbv zeta.
    destruct (match py_as_number v with Some _ => true | None => _ end);
      [discriminate | auto].
  - unfold set_stroke_cap_style. cbv zeta. destruct (is_INHERIT v); [discriminate|].
    destruct (CoerciveIntEnum_coerce _); [discriminate | auto].
  - unfold set_stroke_join_style. cbv zeta. destruct (is_INHERIT v); [discriminate|].
    destruct (CoerciveIntEnum_coerce _); [discriminate | auto].
  - unfold set_stroke_miter_limit. cbv zeta.
    destruct (is_INHERIT v || _); [discriminate | auto].
  - unfold set_stroke_dash_pattern. cbv zeta.
    destruct (py_as_seq _).
    + destruct (py_as_tuple _) as [d|]; [|discriminate].
      destruct (tuple_item d 1); [discriminate | auto].
    + destruct (is_None _); [discriminate|].
      destruct (is_INHERIT _); [discriminate | auto].
  - unfold set_stroke_dash_phase. cbv zeta.
    destruct (is_float_or_int v).
    + destruct (py_as_tuple _) as [d|]; [|auto].
      destruct (tuple_item d 0); [discriminate | auto].
    + destruct (is_INHERIT v); [discriminate | auto].
Qed.

(** X5. The dash pattern and its phase are stored together.  On a
    well-formed style: assigning a list as the pattern stores its tuple and
    keeps the phase, which is 0 when there was no pattern; assigning None
    stores the empty pattern and resets the phase to 0; assigning a phase
    keeps the pattern, and raises ValueError, changing nothing, when there
    is no pattern. *)
Theorem dash_pattern_and_phase s :
  well_formed s ->
  let unset := is_INHERIT (getattr s "D") in
  (forall l,
     let out := set_stroke_dash_pattern s (PyList l) in
     snd out = Ok tt
     /\ stroke_dash_pattern (fst out) = Ok (PyTuple l)
     /\ stroke_dash_phase (fst out)
        = (if unset then Ok (PyNum (num_of_Z 0)) else stroke_dash_phase s))
  /\ (let out := set_stroke_dash_pattern s PyNone in
      snd out = Ok tt
      /\ stroke_dash_pattern (fst out) = Ok (PyTuple [])
      /\ stroke_dash_phase (fst out) = Ok (PyNum (num_of_Z 0)))
  /\ (forall v, is_float_or_int v = true ->
      let out := set_stroke_dash_phase s v in
      if unset then out = (s, Raise ValueError)
      else snd out = Ok tt
           /\ stroke_dash_pattern (fst out) = stroke_dash_pattern s
           /\ stroke_dash_phase (fst out) = Ok v).
Proof.
  intros H. pose proof (well_formed_dash s H) as HD. cbv zeta.
  unfold set_stroke_dash_pattern, set_stroke_dash_phase, stroke_dash_pattern,
    stroke_dash_phase. cbn [PDFStyleKeys.value is_float_or_int py_as_seq is_None].
  destruct (getattr s "D") as [| | | | | | | | |d| | | | |] eqn:ED;
    try discriminate.
  - cbn [is_INHERIT py_as_tuple fst snd].
    split; [|split].
    + intros l. rewrite !getattr_setattr_eq. auto.
    + rewrite !getattr_setattr_eq. auto.
    + intros v ->. reflexivity.
  - destruct d as [|[| | | | | | | | |pattern| | | | |] [|phase [|]]];
      try discriminate.
    cbn [is_INHERIT py_as_tuple tuple_item nth_error fst snd].
    split; [|split].
    + intros l. rewrite !getattr_setattr_eq. auto.
    + rewrite !getattr_setattr_eq. auto.
    + intros v ->. cbn [fst snd]. rewrite !getattr_setattr_eq. auto.
Qed.

(** X6. Assigning a colour object stores it; when it has an alpha, the
    alpha becomes the opacity of the same kind, replacing what was there;
    when it has none, the opacity stays. *)
Theorem color_alpha_becomes_opacity s (c : Color Number) :
  valid_color c = true ->
  (let out := set_fill_color s (PyColor c) in
   snd out = Ok tt /\ fill_color (fst out) = PyColor c
   /\ fill_opacity (fst out)
      = match color_alpha c with Some a => PyNum a | None => fill_opacity s end
   /\ stroke_color (fst out) = stroke_color s
   /\ stroke_opacity (fst out) = stroke_opacity s)
  /\ (let out := set_stroke_color s (PyColor c) in
      snd out = Ok tt /\ stroke_color (fst out) = PyColor c
      /\ stroke_opacity (fst out)
         = match color_alpha c with Some a => PyNum a | None => stroke_opacity s end
      /\ fill_color (fst out) = fill_color s
      /\ fill_opacity (fst out) = fill_opacity s).
Proof.
  intros Hc. cbv zeta. unfold set_fill_color, set_stroke_color,
    set_fill_opacity, set_stroke_opacity.
  rewrite !set_color_ok by exact Hc. cbn [fst snd].
  unfold fill_color, fill_opacity, stroke_color, stroke_opacity, color_stored.
  cbn [PDFStyleKeys.value].
  destruct (color_alpha c) as [a|];
    repeat split;
    repeat first [ rewrite getattr_setattr_eq
                 | rewrite getattr_setattr_ne by discriminate ];
    reflexivity.
Qed.

End Assignments.

(** ** Resolving the paint rule *)

Section PaintRule.
Context {Number : Type} {py : Python Number}.
Implicit Types (s : GraphicsStyle Number) (v : pyval Number).

Lemma paint_rule_lookup_not_AUTO (want : list (pyval Number)) rule :
  paint_rule_lookup want = Some rule -> rule <> PathPaintRule.AUTO.
Proof.
  unfold paint_rule_lookup. intros H.
  destruct (List.find _ _) as [[key r]|] eqn:E; [|discriminate].
  injection H as <-. apply List.find_some in E as [Hin _].
  cbn in Hin. intuition congruence.
Qed.

Lemma well_formed_rules s :
  well_formed s ->
  ok_paint_rule (paint_rule s) = true
  /\ ok_intersection_rule (intersection_rule s) = true.
Proof.
  unfold well_formed, attribute_domains. intros H.
  repeat (apply Forall_cons in H as [? H]). auto.
Qed.

(** X7. On a well-formed style [resolve_paint_rule] returns (the assert on
    the intersection rule cannot fail), and what it returns is never AUTO. *)
Theorem resolve_paint_rule_returns s :
  well_formed s ->
  exists rule, resolve_paint_rule s = Ok rule /\ is_AUTO rule = false.
Proof.
  intros H. destruct (well_formed_rules s H) as [Hp Hi].
  unfold resolve_paint_rule.
  destruct (is_AUTO (paint_rule s)) eqn:Eauto.
  2:{ eexists. split; [reflexivity | exact Eauto]. }
  assert (exists want, want_set s = Ok want) as [want ->].
  { unfold want_set.
    destruct (negb (is_None (fill_color s))); [|eauto].
    destruct (intersection_rule s) as [| | | | | | | | | | |[]| | |];
      try discriminate; cbn; eauto. }
  cbn [bind]. destruct (paint_rule_lookup want) as [rule|] eqn:El.
  - eexists. split; [reflexivity|].
    pose proof (paint_rule_lookup_not_AUTO _ _ El).
    destruct rule; try reflexivity; congruence.
  - eexists. split; reflexivity.
Qed.


End PaintRule.

(** ** The serialized style dictionary *)

Section StyleDict.
Context {Number : Type} {py : Python Number}.
Implicit Types (s : GraphicsStyle Number) (G : Registry).

Lemma prefix_app (a b : string) : String.prefix a (a ++ b) = true.
Proof.
  induction a as [|c a IH]; [destruct b; reflexivity|].
  change (String c a ++ b) with (String c (a ++ b)). cbn [String.prefix].
  destruct (ascii_dec c c); [exact IH | congruence].
Qed.

Lemma prefix_refl (a : string) : String.prefix a a = true.
Proof.
  induction a as [|c a IH]; [reflexivity|]. cbn [String.prefix].
  destruct (ascii_dec c c); [exact IH | congruence].
Qed.

Lemma join_cons_prefix sep x l : String.prefix x (join sep (x :: l)) = true.
Proof.
  unfold join. cbn [String.concat].
  destruct l; [apply prefix_refl | apply prefix_app].
Qed.

Lemma prefix_trans (a b c : string) :
  String.prefix a b = true -> String.prefix b c = true ->
  String.prefix a c = true.
Proof.
  revert b c. induction a as [|x a IH]; intros b c; [destruct c; reflexivity|].
  destruct b as [|y b]; [discriminate|]. destruct c as [|z c]; [discriminate|].
  cbn [String.prefix].
  destruct (ascii_dec x y) as [->|]; [|discriminate].
  destruct (ascii_dec y z) as [->|]; [|discriminate].
  destruct (ascii_dec z z); [|congruence]. apply IH.
Qed.

(** X9. The serialized dictionary of a style always begins with the Type
    entry, so it is never empty: [_get_or_set_style_dict] never returns at
    [if not sdict], and returns None only for the dictionary that is
    registered with None. *)
Theorem style_dict_is_never_empty s G :
  match to_pdf_dict s with
  | Ok sdict =>
      String.prefix "<< /Type /ExtGState" sdict = true
      /\ truthy (PyRaw sdict : pyval Number) = true
      /\ (snd (_get_or_set_style_dict s G) = Ok None ->
          _global_style_registry G !! sdict = Some None)
  | Raise e => _get_or_set_style_dict s G = (G, Raise e)
  end.
Proof.
  unfold _get_or_set_style_dict.
  destruct (to_pdf_dict s) as [sdict|e] eqn:E; [|reflexivity].
  assert (String.prefix "<< /Type /ExtGState" sdict = true) as Hp.
  { unfold to_pdf_dict in E. cbn [render_pdf_primitive bind] in E.
    match type of E with
    | context [bind (?go (omap ?f ?l)) _] =>
        destruct (go (omap f l)) as [rest|]; [|discriminate]
    end.
    cbn [bind] in E. injection E as <-.
    change (String.prefix (String "<" (String "<" (String " " "/Type /ExtGState")))
              (String "<" (String "<" (String " "
                 (join (String "010" EmptyString) ("/Type /ExtGState" :: rest)
                  ++ " >>")))) = true).
    cbn [String.prefix].
    repeat (destruct (ascii_dec _ _); [|congruence]).
    apply (prefix_trans _ (join (String "010" EmptyString)
                             ("/Type /ExtGState" :: rest)));
      [apply join_cons_prefix | apply prefix_app]. }
  assert (truthy (PyRaw sdict : pyval Number) = true) as Ht.
  { destruct sdict; [discriminate | reflexivity]. }
  split; [exact Hp|]. split; [exact Ht|].
  rewrite Ht. cbn [negb].
  destruct (_global_style_registry G !! sdict) as [name|] eqn:El.
  - cbn [snd]. intros [= ->]. reflexivity.
  - discriminate.
Qed.

End StyleDict.

(** ** Looking up a style dictionary by its name *)

Section RegistryNames.
Context {Number : Type} {py : Python Number}.
Implicit Types (s : GraphicsStyle Number) (G : Registry).

Ltac get_or_set_cases s G sdict E :=
  unfold _get_or_set_style_dict;
  destruct (to_pdf_dict s) as [sdict|?];
  [ destruct (negb (truthy (PyRaw sdict)));
    [ | destruct (_global_style_registry G !! sdict) eqn:E ] | ];
  cbn [fst snd _global_style_registry _global_style_name_lookup].

(** X10. In every state the registry can be in, the two mappings are
    inverse to each other: a name is looked up to a dictionary exactly when
    the dictionary is registered under that name.  The names that are looked
    up are GS1, GS2, ... up to the number of registered dictionaries, with
    no gap; every other name raises KeyError. *)
Theorem names_and_dictionaries G :
  reachable G ->
  (forall name sdict,
      get_style_dict_by_name G name = Ok sdict
      <-> _global_style_registry G !! sdict = Some (Some name))
  /\ (forall name,
      (exists sdict, get_style_dict_by_name G name = Ok sdict)
      <-> exists i : nat,
            (1 <= i < size (_global_style_registry G))%nat
            /\ name = "GS" ++ pretty i)
  /\ (forall name,
      get_style_dict_by_name G name = Raise KeyError
      <-> forall i : nat,
            (1 <= i < size (_global_style_registry G))%nat ->
            name <> "GS" ++ pretty i).
Proof.
  intros HR. pose proof (reachable_inv G HR) as I.
  pose proof (reachable_book G HR) as B.
  assert (forall name,
            is_Some (_global_style_name_lookup G !! name)
            <-> exists i : nat,
                  (1 <= i < size (_global_style_registry G))%nat
                  /\ name = "GS" ++ pretty i) as Hnames.
  { intros name. split.
    - intros [sdict H]. apply (inv_lookup G I) in H.
      destruct (inv_names G I _ _ H) as (i & Hi & Hlt). eauto.
    - intros (i & Hi & ->). apply (book_names G B), Hi. }
  unfold get_style_dict_by_name. split; [|split].
  - intros name sdict. split.
    + destruct (_global_style_name_lookup G !! name) as [d|] eqn:E;
        [|discriminate].
      intros [= <-]. apply (inv_lookup G I), E.
    + intros H. rewrite (book_reverse G B _ _ H). reflexivity.
  - intros name. rewrite <- Hnames. split.
    + intros [sdict H].
      destruct (_global_style_name_lookup G !! name); [eauto | discriminate].
    + intros [sdict ->]. eauto.
  - intros name. split.
    + intros H i Hi ->.
      destruct (book_names G B i Hi) as [sdict E]. rewrite E in H. discriminate.
    + intros H.
      destruct (_global_style_name_lookup G !! name) as [d|] eqn:E;
        [|reflexivity].
      exfalso. destruct (proj1 (Hnames name)) as (i & Hi & ->); [eauto|].
      exact (H i Hi eq_refl).
Qed.

(** X11. The name that [_get_or_set_style_dict] returns for a style is
    looked up to the style's serialized dictionary, then and at any later
    time. *)
Theorem name_round_trip s G G1 G' name :
  reachable G ->
  _get_or_set_style_dict s G = (G1, Ok (Some name)) ->
  later G1 G' ->
  get_style_dict_by_name G' name = to_pdf_dict s.
Proof.
  intros HR H HL.
  assert (reachable G1) as HR1.
  { replace G1 with (fst (_get_or_set_style_dict s G)) by (rewrite H; reflexivity).
    apply reachable_step, HR. }
  pose proof (reachable_book G' (later_reachable _ _ HR1 HL)) as B'.
  unfold _get_or_set_style_dict in H.
  destruct (to_pdf_dict s) as [sdict|e]; [|discriminate].
  destruct (negb (truthy (PyRaw sdict))); [discriminate|].
  assert (_global_style_registry G1 !! sdict = Some (Some name)) as E1.
  { destruct (_global_style_registry G !! sdict) eqn:E.
    - injection H as <- ->. exact E.
    - injection H as <- <-. simpl. apply lookup_insert_eq. }
  pose proof (later_registry_kept _ _ _ _ HL E1) as E'.
  unfold get_style_dict_by_name. rewrite (book_reverse G' B' _ _ E').
  reflexivity.
Qed.

End RegistryNames.

(** ** Coercion into enumeration members *)

Section Coercion.
Variables (libm_cos libm_sin libm_tan libm_acos : float -> float).
Variable (libm_pow : float -> float -> float).
Variable (round8 : float -> float).

Local Abbreviation binary64 :=
  (Binary64.python libm_cos libm_sin libm_tan libm_acos libm_pow round8).

Ltac by_value_or_name m :=
  let m' := fresh "m'" in
  let E := fresh "E" in
  let H := fresh "H" in
  intros s H; unfold CoerciveEnum_coerce; cbn [as_instance py_as_str];
  destruct (member_by_value s) as [m'|] eqn:E;
  [ apply List.find_some in E as [_ E]; apply String.eqb_eq in E; subst s;
    destruct m', m; first [reflexivity | discriminate H]
  | rewrite H; destruct m; reflexivity ].

(** X12. For IntersectionRule, PathPaintRule and BlendMode, [coerce] returns
    a member for the member itself, for its value, and for any string that
    upcases to its name. *)
Theorem coerce_gives_the_member :
  coerce_round_trip (py := binary64) IntersectionRule.t
  /\ coerce_round_trip (py := binary64) PathPaintRule.t
  /\ coerce_round_trip (py := binary64) BlendMode.t.
Proof.
  split; [|split]; intros m;
    (split; [destruct m; reflexivity|]);
    (split; [destruct m; reflexivity|]);
    by_value_or_name m.
Qed.

(** X13. For StrokeCapStyle and StrokeJoinStyle, [coerce] returns a member
    for the member itself and for any string that upcases to its name; as
    the members are ints, it also converts a bool and a member of the other
    class by the int value. *)
Theorem coerce_int_gives_the_member :
  coerce_int_round_trip (py := binary64) StrokeCapStyle.t
  /\ coerce_int_round_trip (py := binary64) StrokeJoinStyle.t.
Proof.
  split; intros m;
    (split; [destruct m; reflexivity|]); (split; [|split]).
  all: try (intros s H; unfold CoerciveIntEnum_coerce;
            cbn [as_instance py_as_str]; rewrite H; destruct m; reflexivity).
  all: try (intros [] H; destruct m; first [reflexivity | discriminate H]).
  all: intros other H;
    destruct other as [| | | | | |]; try discriminate H;
    match goal with x : _ |- _ => destruct x; destruct m;
      first [reflexivity | discriminate H] end.
Qed.

End Coercion.

(** ** Colours from hexadecimal strings *)

Section HexColors.
Context {Number : Type} {py : Python Number}.

(** X14. The short forms are the long forms with every digit doubled:
    "#RGB" parses as "#RRGGBB" and "#RGBA" as "#RRGGBBAA", whatever the
    characters are (both raise alike on a character that is no digit).  A
    string that does not start with "#", or whose length is none of 4, 5, 7
    and 9, raises ValueError. *)
Theorem hex_string_forms (r g b a : ascii) :
  color_from_hex_string (String "#" (String r (String g (String b EmptyString))))
  = color_from_hex_string
      (String "#" (String r (String r (String g (String g
         (String b (String b EmptyString)))))))
  /\ color_from_hex_string
       (String "#" (String r (String g (String b (String a EmptyString)))))
     = color_from_hex_string
         (String "#" (String r (String r (String g (String g
            (String b (String b (String a (String a EmptyString)))))))))
  /\ (forall hexstr,
        starts_with_hash hexstr
        && existsb (Nat.eqb (String.length hexstr)) [4; 5; 7; 9]%nat = false ->
        color_from_hex_string hexstr = Raise ValueError).
Proof.
  split; [reflexivity|]. split; [reflexivity|].
  intros hexstr H. destruct hexstr as [|c rest]; [reflexivity|].
  destruct (Ascii.eqb_spec c "#"%char) as [->|Hne].
  - cbn [starts_with_hash andb existsb orb] in H.
    unfold color_from_hex_string.
    destruct (Nat.eqb (String.length (String "#" rest)) 4); [discriminate|].
    destruct (Nat.eqb (String.length (String "#" rest)) 5); [discriminate|].
    destruct (Nat.eqb (String.length (String "#" rest)) 7); [discriminate|].
    destruct (Nat.eqb (String.length (String "#" rest)) 9); [discriminate|].
    reflexivity.
  - destruct c as [[] [] [] [] [] [] [] []]; try reflexivity.
    exfalso. apply Hne. reflexivity.
Qed.

End HexColors.

Section HexColorsOnFloats.
Variables (libm_cos libm_sin libm_tan libm_acos : float -> float).
Variable (libm_pow : float -> float -> float).
Variable (round8 : float -> float).

Local Abbreviation binary64 :=
  (Binary64.python libm_cos libm_sin libm_tan libm_acos libm_pow round8).

Lemma int16_two_digits (c d : ascii) (h l : Z) :
  Binary64.hex_value c = Some h -> Binary64.hex_value d = Some l ->
  Binary64.int16 (String c (String d EmptyString)) = Ok (16 * h + l).
Proof.
  intros Hc Hd. unfold Binary64.int16. cbn [Binary64.hex_digits].
  rewrite Hc, Hd. reflexivity.
Qed.

Lemma hex_value_range (c : ascii) (h : Z) :
  Binary64.hex_value c = Some h -> 0 <= h <= 15.
Proof.
  unfold Binary64.hex_value. cbv zeta.
  repeat match goal with
  | |- context [if ?b then _ else _] => destruct b eqn:?
  end; intros [= <-]; lia.
Qed.

(** A byte over 255.0 is within the unit interval. *)
Lemma byte_in_unit (z : Z) :
  0 <= z <= 255 ->
  let x := PrimFloat.div (Binary64.of_Z z) 255 in
  PrimFloat.leb 0 x && PrimFloat.leb x 1 = true.
Proof.
  intros Hz.
  assert (forallb (fun n : nat =>
                     let x := PrimFloat.div (Binary64.of_Z (Z.of_nat n)) 255 in
                     PrimFloat.leb 0 x && PrimFloat.leb x 1)
            (seq 0 256) = true) as Hall by (vm_compute; reflexivity).
  rewrite forallb_forall in Hall.
  specialize (Hall (Z.to_nat z)). rewrite Z2Nat.id in Hall by lia.
  apply Hall, in_seq. lia.
Qed.

Lemma rgb8_bytes (r g b : Z) (a : option Z) :
  0 <= r <= 255 -> 0 <= g <= 255 -> 0 <= b <= 255 ->
  match a with Some x => 0 <= x <= 255 | None => True end ->
  let byte z := PrimFloat.div (Binary64.of_Z z) 255 in
  rgb8 (py := binary64) (Binary64.of_Z r) (Binary64.of_Z g) (Binary64.of_Z b)
       (option_map Binary64.of_Z a)
  = Ok (DeviceRGB (byte r) (byte g) (byte b) (option_map byte a)).
Proof.
  intros Hr Hg Hb Ha. cbv zeta.
  pose proof (byte_in_unit r Hr) as Ur. pose proof (byte_in_unit g Hg) as Ug.
  pose proof (byte_in_unit b Hb) as Ub. cbv zeta in Ur, Ug, Ub.
  unfold rgb8, DeviceRGB_new, check_alpha, check_range_num.
  cbn [num_div num_in_unit float_255 binary64 Binary64.python].
  unfold Binary64.div.
  change (PrimFloat.eqb 255 0) with false. cbv iota.
  destruct a as [x|]; cbn [option_map bind].
  - pose proof (byte_in_unit x Ha) as Ux. cbv zeta in Ux.
    rewrite Ux, Ur, Ug, Ub. reflexivity.
  - rewrite Ur, Ug, Ub. reflexivity.
Qed.

(** X15. On binary64 floats, "#RRGGBB" and "#RRGGBBAA" with hexadecimal
    digits always parse: each component is the value of its two digits over
    255.0, within [0, 1], and there is an alpha only in the long form. *)
Theorem hex_string_parses (r1 r2 g1 g2 b1 b2 : ascii) (hr1 hr2 hg1 hg2 hb1 hb2 : Z) :
  Binary64.hex_value r1 = Some hr1 -> Binary64.hex_value r2 = Some hr2 ->
  Binary64.hex_value g1 = Some hg1 -> Binary64.hex_value g2 = Some hg2 ->
  Binary64.hex_value b1 = Some hb1 -> Binary64.hex_value b2 = Some hb2 ->
  let byte h l := PrimFloat.div (Binary64.of_Z (16 * h + l)) 255 in
  let rgb tail := String r1 (String r2 (String g1 (String g2
                    (String b1 (String b2 tail))))) in
  color_from_hex_string (py := binary64) (String "#" (rgb EmptyString))
  = Ok (DeviceRGB (byte hr1 hr2) (byte hg1 hg2) (byte hb1 hb2) None)
  /\ (forall a1 a2 ha1 ha2,
        Binary64.hex_value a1 = Some ha1 -> Binary64.hex_value a2 = Some ha2 ->
        color_from_hex_string (py := binary64)
          (String "#" (rgb (String a1 (String a2 EmptyString))))
        = Ok (DeviceRGB (byte hr1 hr2) (byte hg1 hg2) (byte hb1 hb2)
                (Some (byte ha1 ha2))))
  /\ num_in_unit (Python := binary64) (byte hr1 hr2)
     && num_in_unit (Python := binary64) (byte hg1 hg2)
     && num_in_unit (Python := binary64) (byte hb1 hb2) = true.
Proof.
  intros Hr1 Hr2 Hg1 Hg2 Hb1 Hb2. cbv zeta.
  pose proof (hex_value_range _ _ Hr1). pose proof (hex_value_range _ _ Hr2).
  pose proof (hex_value_range _ _ Hg1). pose proof (hex_value_range _ _ Hg2).
  pose proof (hex_value_range _ _ Hb1). pose proof (hex_value_range _ _ Hb2).
  split; [|split].
  - unfold color_from_hex_string.
    cbn [String.length Nat.eqb pairs mapM bind int_base16 binary64 Binary64.python].
    rewrite (int16_two_digits _ _ _ _ Hr1 Hr2), (int16_two_digits _ _ _ _ Hg1 Hg2),
      (int16_two_digits _ _ _ _ Hb1 Hb2).
    cbn [bind rgb8_of_ints num_of_Z binary64 Binary64.python].
    apply (rgb8_bytes _ _ _ None); try lia; exact I.
  - intros a1 a2 ha1 ha2 Ha1 Ha2.
    pose proof (hex_value_range _ _ Ha1). pose proof (hex_value_range _ _ Ha2).
    unfold color_from_hex_string.
    cbn [String.length Nat.eqb pairs mapM bind int_base16 binary64
         Binary64.python].
    rewrite (int16_two_digits _ _ _ _ Hr1 Hr2), (int16_two_digits _ _ _ _ Hg1 Hg2),
      (int16_two_digits _ _ _ _ Hb1 Hb2), (int16_two_digits _ _ _ _ Ha1 Ha2).
    cbn [bind rgb8_of_ints num_of_Z binary64 Binary64.python].
    apply (rgb8_bytes _ _ _ (Some _)); lia.
  - cbn [num_in_unit binary64 Binary64.python].
    rewrite !byte_in_unit by lia. reflexivity.
Qed.

End HexColorsOnFloats.

(** ** Path elements *)

Section Elements.
Context {Number : Type} {py : Python Number}.
Implicit Types (s : GraphicsStyle Number) (e : PathElement Number).

(** X16. A relative element renders as the absolute element it stands for:
    the same operator text and the same element returned as the new
    previous one; it raises what resolving it raises. *)
Theorem relative_renders_as_absolute e s (last_item : PathElement Number)
  (resolved : result (PathElement Number)) :
  (forall last_point,
     end_point last_item = Ok last_point ->
     absolute_of e last_point = Some resolved ->
     render_element e s last_item
     = (absolute <- resolved ;; render_element absolute s last_item))
  /\ (forall last_point err,
        end_point last_item = Raise err ->
        absolute_of e last_point = Some resolved ->
        render_element e s last_item = Raise err).
Proof.
  split.
  - intros lp Hlp Habs.
    destruct e; try discriminate Habs; injection Habs as <-;
      cbn [render_element]; rewrite Hlp; cbn [bind].
    + destruct (Point_add lp pt); reflexivity.
    + destruct (Point_add lp pt); reflexivity.
    + destruct (num_add (Point_x lp) x); cbn [bind render_element];
        [rewrite Hlp|]; reflexivity.
    + destruct (num_add (Point_y lp) y); cbn [bind render_element];
        [rewrite Hlp|]; reflexivity.
    + destruct (Point_add lp c1); cbn [bind]; [|reflexivity].
      destruct (Point_add lp c2); cbn [bind]; [|reflexivity].
      destruct (Point_add lp end_); reflexivity.
    + destruct (Point_add lp ctrl); cbn [bind]; [|reflexivity].
      destruct (Point_add lp end_); cbn [bind render_element];
        [rewrite Hlp|]; reflexivity.
    + destruct (Point_add lp end_); reflexivity.
  - intros lp err Hlp Habs.
    destruct e; try discriminate Habs; cbn [render_element]; rewrite Hlp;
      reflexivity.
Qed.

Lemma bind_Ok {A B} (m : result A) (k : A -> result B) (b : B) :
  bind m k = Ok b -> exists a, m = Ok a /\ k a = Ok b.
Proof. destruct m as [a|]; [eauto | discriminate]. Qed.

Lemma mapM_Forall {A B} (f : A -> result B) (P : B -> Prop) (l : list A) out :
  (forall a b, f a = Ok b -> P b) -> mapM f l = Ok out -> List.Forall P out.
Proof.
  intros Hf. revert out. induction l as [|a l IH]; intros out.
  - intros [= <-]. constructor.
  - cbn [mapM]. intros H.
    apply bind_Ok in H as (b & Hb & H). apply bind_Ok in H as (bs & Hbs & H).
    injection H as <-. constructor; [apply (Hf a b Hb) | apply IH, Hbs].
Qed.

Lemma _approximate_arc_curves radii rotation large sweep end_
  (last_item : PathElement Number) curves :
  _approximate_arc radii rotation large sweep end_ last_item = Ok curves ->
  List.Forall (fun c => has_end_point c = true) curves.
Proof.
  unfold _approximate_arc. intros H.
  repeat (apply bind_Ok in H as (? & ? & H); cbv zeta in H).
  destruct (raised _); [discriminate|]. injection H as <-.
  match goal with
  | Hmap : mapM _ _ = Ok _ |- _ =>
      apply (mapM_Forall _ (fun c => has_end_point c = true) _ _) in Hmap;
      [exact Hmap|]
  end.
  intros [[c1 c2] e3] b Hb.
  repeat (apply bind_Ok in Hb as (? & _ & Hb)). injection Hb as <-. reflexivity.
Qed.

Lemma last_Some_In {A} (l : list A) (x : A) :
  List.last (map Some l) None = Some x -> In x l.
Proof.
  induction l as [|a l IH]; [discriminate|].
  destruct l as [|b l]; cbn [map List.last] in *.
  - intros [= ->]. left. reflexivity.
  - intros H. right. apply IH, H.
Qed.

Lemma Arc_render_end_point radii rotation large sweep end_
  (last_item : PathElement Number) text last' :
  has_end_point last_item = true ->
  Arc_render radii rotation large sweep end_ last_item = Ok (text, last') ->
  has_end_point last' = true.
Proof.
  intros HL. unfold Arc_render. intros H.
  apply bind_Ok in H as (curves & Hc & H).
  apply _approximate_arc_curves in Hc.
  destruct (List.last (map Some curves) None) as [final|] eqn:El.
  - injection H as _ <-. apply last_Some_In in El.
    rewrite List.Forall_forall in Hc. apply Hc, El.
  - injection H as _ <-. exact HL.
Qed.

(** What an element's [render] returns as the new previous element has an
    end point whenever the previous element it was given has one. *)
Lemma render_element_end_point e s (last_item : PathElement Number) text last' :
  has_end_point last_item = true ->
  render_element e s last_item = Ok (text, last') ->
  has_end_point last' = true.
Proof.
  intros HL H. destruct e; cbn [render_element] in H;
    try (injection H as _ <-; reflexivity);
    try (eapply Arc_render_end_point; eassumption).
  all: try (repeat (apply bind_Ok in H as (? & _ & H));
            injection H as _ <-; reflexivity).
  - do 2 (apply bind_Ok in H as (? & _ & H)).
    eapply Arc_render_end_point; eassumption.
  - destruct (truthy (auto_close s)); injection H as _ <-; exact HL.
  - injection H as _ <-. exact HL.
Qed.

End Elements.

(** ** What rendering keeps *)

Section Keeping.
Context {Number : Type} {py : Python Number}.
Implicit Types (G : Registry) (st : RenderState) (s : GraphicsStyle Number)
  (g : GraphicsContext Number) (p : PaintedPath Number).

Variable I : RenderState -> Prop.
Variable L : PathElement Number -> Prop.
Hypothesis emit_style_keeps : forall s st, I st -> I (fst (emit_style s st)).
Hypothesis render_element_keeps :
  forall e s last_item text last',
    L last_item -> render_element e s last_item = Ok (text, last') -> L last'.

Section Over.
Variable render : ItemRenderer Number.
Hypothesis render_keeping : keeping I L render.

Lemma render_items_keeps items st style_ last_item render_list :
  keeps I L st last_item
    (render_items render items st style_ last_item render_list).
Proof.
  revert st last_item render_list.
  induction items as [|item rest IH]; intros st last_item render_list HI HL.
  - cbn. auto.
  - cbn [render_items].
    pose proof (render_keeping item st style_ last_item HI HL) as [HI1 HL1].
    destruct (render item st style_ last_item)
      as [[item1 st1] [[rendered last1]|e]]; cbn [fst snd] in *.
    + pose proof (IH st1 last1 (append_rendered render_list rendered) HI1 HL1)
        as [HI2 HL2].
      destruct (render_items render rest st1 style_ last1
                  (append_rendered render_list rendered)) as [[rest2 st2] r2].
      cbn [fst snd] in *. auto.
    + auto.
Qed.

Lemma build_render_list_keeps g st style_ last_item push :
  keeps I L st last_item (build_render_list render g st style_ last_item push).
Proof.
  intros HI HL. rewrite build_render_list_eq.
  destruct (path_items g) as [|item rest]; [cbn; auto|].
  destruct (merge style_ (style g)) as [merged_style|e]; [|cbn; auto].
  pose proof (emit_style_keeps (style g) st HI) as HI1.
  destruct (emit_style (style g) st) as [st1 [render_list|e]];
    cbn [fst snd] in *; [|auto].
  assert (I (snd (fst (render_clip render (clipping_path g) st1 merged_style
                         last_item render_list)))) as HI2.
  { unfold render_clip. destruct (clipping_path g) as [cp|]; [|exact HI1].
    pose proof (render_keeping cp st1 merged_style last_item HI1 HL) as [H _].
    destruct (render cp st1 merged_style last_item)
      as [[cp1 st2] [[rendered last1]|e]]; exact H. }
  destruct (render_clip render (clipping_path g) st1 merged_style last_item
              render_list) as [[clip st2] [render_list2|e]];
    cbn [fst snd] in *; [|auto].
  cbv zeta.
  pose proof (render_items_keeps (path_items (set_clipping_path g clip)) st2
                merged_style last_item render_list2 HI2 HL) as [HI3 HL3].
  destruct (render_items render (path_items (set_clipping_path g clip)) st2
              merged_style last_item render_list2)
    as [[items st3] [[rl last3]|e]]; cbn [fst snd] in *; auto.
Qed.

Lemma GraphicsContext_render_keeps g st style_ last_item :
  keeps I L st last_item (GraphicsContext_render render g st style_ last_item).
Proof.
  intros HI HL. unfold GraphicsContext_render.
  pose proof (build_render_list_keeps g st style_ last_item true HI HL)
    as [HI1 HL1].
  destruct (build_render_list render g st style_ last_item true)
    as [[g1 st1] [[render_list last1]|e]]; cbn [fst snd] in *; auto.
Qed.

Lemma PaintedPath_render_keeps p st style_ last_item :
  keeps I L st last_item (PaintedPath_render render p st style_ last_item).
Proof.
  intros HI HL. unfold PaintedPath_render. cbv zeta.
  pose proof (build_render_list_keeps
                (_root_graphics_context (_insert_implicit_close_if_open p))
                st style_ last_item true HI HL) as [HI1 HL1].
  destruct (build_render_list render _ st style_ last_item true)
    as [[g1 st1] [[render_list last1]|e]]; cbn [fst snd] in *; [|auto].
  split; [exact HI1|].
  destruct (merge style_ _) as [merged|]; cbn [bind]; [|exact Logic.I].
  destruct (resolve_paint_rule merged) as [rule|]; cbn [bind]; [|exact Logic.I].
  destruct (value_of rule); cbn [bind]; [exact HL1 | exact Logic.I].
Qed.

Lemma ClippingPath_render_keeps p st style_ last_item :
  keeps I L st last_item (ClippingPath_render render p st style_ last_item).
Proof.
  intros HI HL. unfold ClippingPath_render. cbv zeta.
  pose proof (build_render_list_keeps (_root_graphics_context p)
                st style_ last_item false HI HL) as [HI1 HL1].
  destruct (build_render_list render _ st style_ last_item false)
    as [[g1 st1] [[render_list last1]|e]]; cbn [fst snd] in *; [|auto].
  split; [exact HI1|].
  destruct (merge style_ _) as [merged|]; cbn [bind]; [|exact Logic.I].
  destruct (match intersection_rule merged with
            | PyEllipsis => _ | PyEnum m => _ | _ => _ end);
    cbn [bind]; [|exact Logic.I].
  destruct (resolve_paint_rule merged) as [rule|]; cbn [bind]; [|exact Logic.I].
  destruct (value_of rule); cbn [bind]; [exact HL1 | exact Logic.I].
Qed.

Lemma render_dispatch_keeping : keeping I L (render_dispatch render).
Proof.
  intros item st style_ last_item HI HL. unfold render_dispatch.
  destruct item as [e|g|p].
  - cbn [fst snd]. split; [exact HI|].
    destruct (render_element e style_ last_item) as [[text last']|] eqn:E;
      [|exact Logic.I].
    exact (render_element_keeps _ _ _ _ _ HL E).
  - pose proof (GraphicsContext_render_keeps g st style_ last_item HI HL) as H.
    destruct (GraphicsContext_render render g st style_ last_item)
      as [[g1 st1] r1]. exact H.
  - destruct (is_clipping_path p).
    + pose proof (ClippingPath_render_keeps p st style_ last_item HI HL) as H.
      destruct (ClippingPath_render render p st style_ last_item)
        as [[p1 st1] r1]. exact H.
    + pose proof (PaintedPath_render_keeps p st style_ last_item HI HL) as H.
      destruct (PaintedPath_render render p st style_ last_item)
        as [[p1 st1] r1]. exact H.
Qed.

End Over.

Lemma render_item_keeping (depth : nat) : keeping I L (render_item depth).
Proof.
  induction depth as [|depth IH].
  - intros item st style_ last_item HI HL. cbn. auto.
  - cbn [render_item]. apply render_dispatch_keeping, IH.
Qed.

End Keeping.

(** ** The names a rendering returns *)

Section RenderedNames.
Context {Number : Type} {py : Python Number}.
Implicit Types (G : Registry) (st : RenderState) (s : GraphicsStyle Number).

Lemma gsds_set_NoDup gsds name : NoDup gsds -> NoDup (gsds_set gsds name).
Proof.
  intros H. unfold gsds_set.
  destruct (existsb (String.eqb name) gsds) eqn:E; [exact H|].
  apply NoDup_app. repeat split; [exact H | | apply NoDup_singleton].
  intros x Hx Hn. apply list_elem_of_In in Hx.
  apply list_elem_of_singleton in Hn. subst x.
  assert (existsb (String.eqb name) gsds = true) as Ht.
  { apply existsb_exists. exists name. split; [exact Hx | apply String.eqb_refl]. }
  congruence.
Qed.

Lemma gsds_set_In gsds name x :
  In x (gsds_set gsds name) -> In x gsds \/ x = name.
Proof.
  unfold gsds_set. destruct (existsb (String.eqb name) gsds); [auto|].
  intros H. apply in_app_or in H as [H|[<-|[]]]; auto.
Qed.

Lemma get_or_set_registered s G G1 name :
  reachable G ->
  _get_or_set_style_dict s G = (G1, Ok (Some name)) ->
  is_Some (_global_style_name_lookup G1 !! name).
Proof.
  intros HR H.
  assert (reachable G1) as HR1.
  { replace G1 with (fst (_get_or_set_style_dict s G)) by (rewrite H; reflexivity).
    apply reachable_step, HR. }
  pose proof (reachable_book G1 HR1) as B1.
  pose proof (reachable_inv G HR) as I0.
  unfold _get_or_set_style_dict in H.
  destruct (to_pdf_dict s) as [sdict|e]; [|discriminate].
  destruct (negb (truthy (PyRaw sdict))); [discriminate|].
  assert (_global_style_registry G1 !! sdict = Some (Some name)) as E1.
  { destruct (_global_style_registry G !! sdict) eqn:E.
    - injection H as <- ->. exact E.
    - injection H as <- <-. simpl. apply lookup_insert_eq. }
  rewrite (book_reverse G1 B1 _ _ E1). eauto.
Qed.

Lemma emit_style_names s st :
  names_registered st -> names_registered (fst (emit_style s st)).
Proof.
  intros (HR & Hnd & Hin). unfold emit_style.
  pose proof (reachable_step (registry st) s HR) as HR1.
  pose proof (reachable_inv _ HR) as I0.
  assert (forall name,
            is_Some (_global_style_name_lookup (registry st) !! name) ->
            is_Some (_global_style_name_lookup
                       (fst (_get_or_set_style_dict s (registry st))) !! name))
    as Hkept.
  { intros name [sdict H]. exists sdict. apply name_lookup_kept; assumption. }
  destruct (_get_or_set_style_dict s (registry st)) as [G1 r] eqn:E.
  cbn [fst] in *.
  destruct r as [[name|]|e].
  - assert (names_registered
              (mkRenderState G1 (gsds_set (path_gsds st) name))) as H.
    { split; [exact HR1|]. split; [apply gsds_set_NoDup, Hnd|].
      cbn [registry path_gsds]. intros x Hx.
      apply gsds_set_In in Hx as [Hx | ->].
      - apply Hkept, Hin, Hx.
      - exact (get_or_set_registered s _ _ _ HR E). }
    destruct (render_pdf_primitive (PyName name)); exact H.
  - cbn [fst]. split; [exact HR1|]. split; [exact Hnd|].
    intros x Hx. apply Hkept, Hin, Hx.
  - cbn [fst]. split; [exact HR1|]. split; [exact Hnd|].
    intros x Hx. apply Hkept, Hin, Hx.
Qed.

Lemma later_name_lookup_kept G G' name sdict :
  reachable G -> later G G' ->
  _global_style_name_lookup G !! name = Some sdict ->
  _global_style_name_lookup G' !! name = Some sdict.
Proof.
  intros HR. induction 1 as [|G' s HL IH]; intros H; [exact H|].
  apply name_lookup_kept; [|apply IH, H].
  apply reachable_inv, (later_reachable G G' HR HL).
Qed.

(** X17. The names that [DrawingContext.render] returns are distinct, and
    each of them is looked up to a style dictionary by
    [get_style_dict_by_name], after the rendering and at any later time; the
    registry stays one that calls of [_get_or_set_style_dict] lead to. *)
Theorem rendered_names_resolve (depth : nat) (dc : DrawingContext Number)
  (first_point : Point Number) (scale height : Number) G :
  reachable G ->
  let '(dc1, G1, r) := DrawingContext_render depth dc first_point scale height G in
  reachable G1
  /\ match r with
     | Ok (text, names) =>
         NoDup names
         /\ forall name, In name names ->
              exists sdict,
                get_style_dict_by_name G1 name = Ok sdict
                /\ forall G2, later G1 G2 ->
                     get_style_dict_by_name G2 name = Ok sdict
     | Raise _ => True
     end.
Proof.
  intros HR. unfold DrawingContext_render.
  destruct (_subitems dc) as [|item rest].
  { split; [exact HR|]. split; [apply NoDup_nil_2 | intros name []]. }
  destruct (_setup_render_prereqs first_point scale height)
    as [[[render_list style_] last_item]|e]; [|split; [exact HR | exact I]].
  assert (names_registered (mkRenderState G [])) as H0.
  { split; [exact HR|]. split; [apply NoDup_nil_2 | intros name []]. }
  pose proof (render_items_keeps names_registered (fun _ => True)
                (render_item depth)
                (render_item_keeping names_registered (fun _ => True)
                   emit_style_names (fun _ _ _ _ _ _ _ => I) depth)
                (item :: rest) (mkRenderState G []) style_ last_item
                render_list H0 I) as [(HR1 & Hnd & Hin) _].
  destruct (render_items (render_item depth) (item :: rest)
              (mkRenderState G []) style_ last_item render_list)
    as [[items st1] r1]. cbn [fst snd] in *.
  split; [exact HR1|].
  destruct r1 as [[rl last1]|e]; [|exact I].
  split; [exact Hnd|].
  intros name Hname. destruct (Hin name Hname) as [sdict Hs].
  exists sdict. unfold get_style_dict_by_name. rewrite Hs.
  split; [reflexivity|].
  intros G2 HL. rewrite (later_name_lookup_kept _ _ _ _ HR1 HL Hs). reflexivity.
Qed.

(** X18. Through the rendering of any item, what is returned as the new
    previous element has an end point whenever the previous element given
    has one: a relative element never meets a previous element without
    [end_point]. *)
Theorem rendering_returns_end_point (depth : nat) (item : Item Number)
  st s (last_item : PathElement Number) :
  has_end_point last_item = true ->
  match snd (render_item depth item st s last_item) with
  | Ok (_, last') => has_end_point last' = true
  | Raise _ => True
  end.
Proof.
  intros HL.
  exact (proj2 (render_item_keeping (fun _ => True)
                  (fun e => has_end_point e = true)
                  (fun _ _ _ => I)
                  (fun e s last text last' H E =>
                     render_element_end_point e s last text last' H E)
                  depth item st s last_item I HL)).
Qed.

End RenderedNames.

(** ** Building a path *)

Section PathBuilding.
Context {Number : Type} {py : Python Number}.
Implicit Types (p : PaintedPath Number) (e : PathElement Number).

Lemma implicit_close_with_starter_move p m :
  _closed p = true ->
  _insert_implicit_close_if_open (with_starter_move p m) = with_starter_move p m.
Proof.
  intros H. apply implicit_close_when_closed. destruct p. exact H.
Qed.

Lemma with_starter_move_twice p m1 m2 :
  with_starter_move (with_starter_move p m1) m2 = with_starter_move p m2.
Proof. destruct p. reflexivity. Qed.

(** X19. A move that follows a move replaces it: of [move_to] and
    [move_relative] called in a row, with no element added between them,
    only the last one counts. *)
Theorem last_move_counts p (x1 y1 x2 y2 : Number) :
  move_to (move_to p x1 y1) x2 y2 = move_to p x2 y2
  /\ move_to (move_relative p x1 y1) x2 y2 = move_to p x2 y2
  /\ move_relative (move_to p x1 y1) x2 y2 = move_relative p x2 y2
  /\ move_relative (move_relative p x1 y1) x2 y2 = move_relative p x2 y2.
Proof.
  unfold move_to, move_relative. cbv zeta.
  pose proof (closed_after_implicit_close p) as Hc.
  repeat split;
    rewrite implicit_close_with_starter_move by exact Hc;
    apply with_starter_move_twice.
Qed.

Lemma flat_add_item_current p (item : Item Number) :
  flat p ->
  add_item_current p item
  = with_root p (add_item (_root_graphics_context p) item).
Proof.
  intros [Ho _]. unfold add_item_current, current_ref. rewrite Ho. reflexivity.
Qed.



End PathBuilding.

(** ** A path with no element *)

Section EmptyPath.
Context {Number : Type} {py : Python Number}.
Implicit Types (p : PaintedPath Number) (st : RenderState).

Lemma _setup_render_prereqs_style (first_point : Point Number)
  (scale height : Number) render_list style_ last_item :
  _setup_render_prereqs first_point scale height
  = Ok (render_list, style_, last_item) ->
  style_ = root_style /\ last_item = Move first_point.
Proof.
  assert (_setup_render_prereqs first_point scale height
          = (half <- num_div height (int 2) ;;
             t <- Transform_about (Transform_scaling (int 1) (Some (int (-1))))
                    (int 0) half ;;
             t <- Transform_scale t scale None ;;
             Ok (["q"; Transform_render t], root_style, Move first_point)))
    as -> by reflexivity.
  intros H.
  repeat (match type of H with
          | bind ?m _ = Ok _ => destruct m; [cbn [bind] in H | discriminate H]
          end).
  injection H as _ <- <-. split; reflexivity.
Qed.

(** X21. A path to which no element was added renders to its paint
    operator alone: the pending move is not emitted, the path and the state
    stay as they are and no style is registered.  For [PaintedPath(x, y)]
    under the style of a drawing the operator is B. *)
Theorem path_without_elements (render : ItemRenderer Number) p st
  (style_ : GraphicsStyle Number) (last_item : PathElement Number)
  (x y : Number) :
  (root_items p = [] -> _closed p = true ->
   PaintedPath_render render p st style_ last_item
   = (p, st,
      merged <- merge style_ (style (_root_graphics_context p)) ;;
      rule <- resolve_paint_rule merged ;;
      operator <- value_of rule ;;
      Ok (operator, last_item)))
  /\ PaintedPath_render render (PaintedPath_new x y) st root_style last_item
     = (PaintedPath_new x y, st, Ok ("B", last_item))
  /\ (forall depth first_point scale height G render_list style_ last_item,
        _setup_render_prereqs first_point scale height
        = Ok (render_list, style_, last_item) ->
        let dc := mkDrawingContext [IPath (PaintedPath_new x y)] in
        DrawingContext_render (S depth) dc first_point scale height G
        = (dc, G, Ok (join " " (render_list ++ ["B"; "Q"])%list, []))).
Proof.
  split; [|split].
  - intros Hi Hc. unfold PaintedPath_render. cbv zeta.
    rewrite (implicit_close_when_closed p Hc).
    unfold build_render_list. unfold root_items in Hi. rewrite Hi.
    assert (with_root p (_root_graphics_context p) = p) as -> by (destruct p; reflexivity).
    destruct (merge style_ (style (_root_graphics_context p))); cbn [bind];
      [|reflexivity].
    destruct (resolve_paint_rule _); cbn [bind]; [|reflexivity].
    destruct (value_of _); reflexivity.
  - reflexivity.
  - intros depth first_point scale height G render_list style0 last0 H.
    destruct (_setup_render_prereqs_style _ _ _ _ _ _ H) as [-> ->].
    cbv zeta. unfold DrawingContext_render. cbn [_subitems]. rewrite H.
    assert (forall st0,
              render_item (S depth) (IPath (PaintedPath_new x y)) st0 root_style
                (Move first_point)
              = (IPath (PaintedPath_new x y), st0, Ok ("B", Move first_point)))
      as Hitem by reflexivity.
    cbn [render_items]. rewrite Hitem.
    change (append_rendered render_list "B") with (render_list ++ ["B"])%list.
    cbn [registry path_gsds]. rewrite <- app_assoc. reflexivity.
Qed.

End EmptyPath.

(** ** Numbers as text *)

Section NumberText.
Context {Number : Type} {py : Python Number}.

Lemma rstrip_prefix (c : ascii) (s : string) :
  String.prefix (rstrip c s) s = true.
Proof.
  induction s as [|a t IH]; [reflexivity|].
  cbn [rstrip]. destruct (rstrip c t) as [|b t'] eqn:E.
  - destruct (Ascii.eqb a c); [reflexivity|].
    cbn [String.prefix]. destruct (ascii_dec a a); [|congruence].
    destruct t; reflexivity.
  - cbn [String.prefix]. destruct (ascii_dec a a); [exact IH | congruence].
Qed.

Lemma rstrip_last (c : ascii) (s : string) : last_char (rstrip c s) <> Some c.
Proof.
  induction s as [|a t IH]; [discriminate|].
  cbn [rstrip]. destruct (rstrip c t) as [|b t'] eqn:E.
  - destruct (Ascii.eqb_spec a c); [discriminate|].
    cbn. congruence.
  - exact IH.
Qed.

(** X22. The text of a number is the beginning of its ["%.4f"] text and
    never ends with a point. *)
Theorem number_text_is_stripped (n : Number) :
  String.prefix (number_to_str n) (format_4f n) = true
  /\ last_char (number_to_str n) <> Some "."%char.
Proof.
  unfold number_to_str. split.
  - eapply prefix_trans; apply rstrip_prefix.
  - apply rstrip_last.
Qed.

End NumberText.

(** ** Values with a PDF representation *)

Section Renderable.
Context {Number : Type} {py : Python Number}.

(** X23. [render_pdf_primitive] returns exactly for the values built from
    Raw, Name, str, bytes, numbers (bools and IntEnum members among them),
    None, colours, objects whose [pdf_repr] returns, lists and tuples of
    such values, and dicts of such values under Name keys; for every other
    value it raises. *)
Theorem render_pdf_primitive_returns (v : pyval Number) :
  match render_pdf_primitive v with
  | Ok _ => renderable v = true
  | Raise _ => renderable v = false
  end.
Proof.
  revert v. fix IH 1. intros v.
  destruct v as [| |b|n|t|t|t|t|l|l|items|m|c|r|];
    cbn [render_pdf_primitive renderable]; try reflexivity.
  - (* a list *)
    match goal with
    | |- context [bind (?go l) _] =>
        assert (match go l with
                | Ok _ => forallb renderable l = true
                | Raise _ => forallb renderable l = false
                end) as H
    end.
    { induction l as [|a l IHl]; [reflexivity|].
      cbn [forallb]. specialize (IH a).
      destruct (render_pdf_primitive a); cbn [bind]; rewrite IH; [|reflexivity].
      cbn [andb].
      match goal with
      | |- context [bind ?m _] => destruct m; cbn [bind]; exact IHl
      end. }
    match goal with
    | |- context [bind ?m _] => destruct m; cbn [bind]; exact H
    end.
  - (* a tuple *)
    match goal with
    | |- context [bind (?go l) _] =>
        assert (match go l with
                | Ok _ => forallb renderable l = true
                | Raise _ => forallb renderable l = false
                end) as H
    end.
    { induction l as [|a l IHl]; [reflexivity|].
      cbn [forallb]. specialize (IH a).
      destruct (render_pdf_primitive a); cbn [bind]; rewrite IH; [|reflexivity].
      cbn [andb].
      match goal with
      | |- context [bind ?m _] => destruct m; cbn [bind]; exact IHl
      end. }
    match goal with
    | |- context [bind ?m _] => destruct m; cbn [bind]; exact H
    end.
  - (* a dict *)
    match goal with
    | |- context [bind (?go items) _] =>
        match goal with
        | |- context [forallb ?f items] =>
            assert (match go items with
                    | Ok _ => forallb f items = true
                    | Raise _ => forallb f items = false
                    end) as H;
            [|destruct (go items); cbn [bind]; exact H]
        end
    end.
    induction items as [|[key val] items IHi]; [reflexivity|].
    cbn [forallb].
    destruct key; try reflexivity.
    cbn [render_pdf_primitive bind]. specialize (IH val).
    destruct (render_pdf_primitive val); cbn [bind]; rewrite IH; [|reflexivity].
    cbn [andb].
    match goal with
    | |- context [bind ?m _] => destruct m; cbn [bind]; exact IHi
    end.
  - (* an enumeration member *)
    destruct (member_as_int m); reflexivity.
  - (* an object with pdf_repr *)
    destruct r; reflexivity.
Qed.

End Renderable.

(** ** Clipping paths and empty groups *)

Section ClippingAndGroups.
Context {Number : Type} {py : Python Number}.
Implicit Types (p : PaintedPath Number) (g : GraphicsContext Number)
  (st : RenderState) (s : GraphicsStyle Number).

(** X24. A clipping path is never painted: whatever paint rule it inherits,
    its rendering ends with the clipping operator (W, or W* for the even-odd
    rule) and the operator n, as long as its own paint rule is the
    DONT_PAINT that [ClippingPath(x, y)] assigns. *)
Theorem clipping_path_is_not_painted (render : ItemRenderer Number) p st
  (style_ : GraphicsStyle Number) (last_item : PathElement Number) :
  well_formed style_ ->
  well_formed (style (_root_graphics_context p)) ->
  paint_rule (style (_root_graphics_context p))
  = member PathPaintRule.DONT_PAINT ->
  match build_render_list render (_root_graphics_context p) st style_
          last_item false with
  | (root, st', Ok (render_list, last')) =>
      exists clip,
        (clip = "W" \/ clip = "W*")
        /\ ClippingPath_render render p st style_ last_item
           = (with_root p root, st',
              Ok (join " " (render_list ++ [clip; "n"])%list, last'))
  | (root, st', Raise e) =>
      ClippingPath_render render p st style_ last_item
      = (with_root p root, st', Raise e)
  end.
Proof.
  intros Hs Hp Hrule. unfold ClippingPath_render.
  pose proof (build_render_list_style render (_root_graphics_context p) st
                style_ last_item false) as Hstyle.
  destruct (build_render_list render (_root_graphics_context p) st style_
              last_item false) as [[root st'] [[render_list last']|e]];
    [|reflexivity].
  cbn [fst] in Hstyle. cbv zeta.
  assert (_root_graphics_context (with_root p root) = root) as ->
    by (destruct p; reflexivity).
  rewrite Hstyle.
  destruct (merge_attributes style_ _ Hs Hp) as (m & Em & _).
  destruct (merge_keeps_well_formed style_ _ m Hs Hp Em) as [Hm Hprops].
  rewrite Em. cbn [bind].
  pose proof (Hprops P_paint_rule) as Hpr.
  unfold merged_value in Hpr. cbn [get_property bind] in Hpr.
  rewrite Hrule in Hpr. cbn [is_INHERIT member] in Hpr. injection Hpr as Hpr.
  assert (resolve_paint_rule m = Ok (member PathPaintRule.DONT_PAINT)) as ->.
  { unfold resolve_paint_rule. rewrite Hpr. reflexivity. }
  destruct (well_formed_rules m Hm) as [_ Hi].
  destruct (intersection_rule m) as [| | | | | | | | | | |[[]| | | | | |]| | |];
    try discriminate Hi; cbn [bind]; eexists; (split; [|reflexivity]); auto.
Qed.

Lemma ClippingPath_new_rule (x y : Number) p :
  ClippingPath_new x y = Ok p ->
  paint_rule (style (_root_graphics_context p))
  = member PathPaintRule.DONT_PAINT
  /\ well_formed (style (_root_graphics_context p))
  /\ is_clipping_path p = true.
Proof.
  intros [= <-]. split; [reflexivity|]. split; [|reflexivity].
  exact (set_paint_rule_well_formed ∅ (member PathPaintRule.DONT_PAINT)
           well_formed_empty).
Qed.

(** X25. A group with no item leaves no trace: it renders to the empty
    string, registers no style even if it has one, changes nothing, and the
    items after it render as if it were not there. *)
Theorem empty_group_leaves_no_trace (depth : nat) g st
  (style_ : GraphicsStyle Number) (last_item : PathElement Number)
  (rest : list (Item Number)) (render_list : list string) :
  path_items g = [] ->
  render_item (S depth) (IContext g) st style_ last_item
  = (IContext g, st, Ok (EmptyString, last_item))
  /\ render_items (render_item (S depth)) (IContext g :: rest) st style_
       last_item render_list
     = (let '(rest', st', r) :=
          render_items (render_item (S depth)) rest st style_ last_item
            render_list in
        (IContext g :: rest', st', r)).
Proof.
  intros H.
  assert (render_item (S depth) (IContext g) st style_ last_item
          = (IContext g, st, Ok (EmptyString, last_item))) as E.
  { cbn [render_item render_dispatch]. unfold GraphicsContext_render,
      build_render_list. rewrite H. reflexivity. }
  split; [exact E|].
  cbn [render_items]. rewrite E. reflexivity.
Qed.

End ClippingAndGroups.

(** * The further properties at concrete inputs *)

Section MoreEvaluated.
Import Binary64.
#[local] Existing Instance plain.
#[local] Open Scope float_scope.

Ltac evaluated_well_formed :=
  unfold well_formed, attribute_domains;
  repeat apply Forall_cons_2; try apply Forall_nil_2; vm_compute; reflexivity.

Lemma merge_child_over_parent_witness :
  well_formed Examples.stroked /\ well_formed Examples.dashed
  /\ exists m, merge Examples.stroked Examples.dashed = Ok m
               /\ well_formed m
               /\ forall prop,
                    get_property m prop
                    = (cval <- get_property Examples.dashed prop ;;
                       if is_INHERIT cval then get_property Examples.stroked prop
                       else Ok cval).
Proof.
  assert (well_formed Examples.stroked) as Hp by evaluated_well_formed.
  assert (well_formed Examples.dashed) as Hc by evaluated_well_formed.
  exact (conj Hp (conj Hc
           (merge_child_over_parent Examples.stroked Examples.dashed Hp Hc))).
Defined.

Lemma merge_associative_witness :
  well_formed (root_style (Number := float)) /\ well_formed Examples.stroked
  /\ well_formed Examples.dashed
  /\ exists ab bc left right,
       merge root_style Examples.stroked = Ok ab /\ merge ab Examples.dashed = Ok left
       /\ merge Examples.stroked Examples.dashed = Ok bc
       /\ merge root_style bc = Ok right
       /\ forall prop, get_property left prop = get_property right prop.
Proof.
  assert (well_formed (root_style (Number := float))) as Ha
    by evaluated_well_formed.
  assert (well_formed Examples.stroked) as Hb by evaluated_well_formed.
  assert (well_formed Examples.dashed) as Hc by evaluated_well_formed.
  exact (conj Ha (conj Hb (conj Hc
           (merge_associative root_style Examples.stroked Examples.dashed
              Ha Hb Hc)))).
Defined.

Lemma assigned_styles_are_well_formed_witness :
  assigned Examples.dashed /\ well_formed Examples.dashed.
Proof.
  assert (assigned Examples.dashed) as H.
  { unfold Examples.dashed. cbv zeta.
    apply (assigned_set P_stroke_dash_pattern); [|discriminate].
    apply (assigned_set P_stroke_width); [|discriminate].
    apply (assigned_set P_fill_color); [|discriminate].
    apply assigned_new. }
  exact (conj H (assigned_styles_are_well_formed Examples.dashed H)).
Defined.

Lemma failed_assignment_keeps_style_witness :
  valid_value (PyStr "wide" : pyval float)
  /\ snd (set_property P_stroke_width Examples.dashed (PyStr "wide"))
     = Raise TypeError
  /\ (fst (set_property P_stroke_width Examples.dashed (PyStr "wide"))
      = Examples.dashed
      \/ (P_stroke_width = P_paint_rule /\ (PyStr "wide" : pyval float) = PyNone)).
Proof.
  assert (valid_value (PyStr "wide" : pyval float)) as Hv by discriminate.
  assert (snd (set_property P_stroke_width Examples.dashed (PyStr "wide"))
          = Raise TypeError) as He by reflexivity.
  exact (conj Hv (conj He
           (failed_assignment_keeps_style P_stroke_width Examples.dashed
              (PyStr "wide") TypeError Hv He))).
Defined.

Lemma dash_pattern_and_phase_witness :
  well_formed Examples.dashed
  /\ (let out := set_stroke_dash_phase Examples.dashed (PyNum 4) in
      snd out = Ok tt
      /\ stroke_dash_pattern (fst out) = stroke_dash_pattern Examples.dashed
      /\ stroke_dash_phase (fst out) = Ok (PyNum 4)).
Proof.
  assert (well_formed Examples.dashed) as H by evaluated_well_formed.
  split; [exact H|].
  exact (proj2 (proj2 (dash_pattern_and_phase Examples.dashed H))
           (PyNum 4) eq_refl).
Defined.

Lemma color_alpha_becomes_opacity_witness :
  valid_color MoreExamples.gray = true
  /\ fill_opacity (fst (set_fill_color Examples.stroked
                          (PyColor MoreExamples.gray)))
     = PyNum 0.25.
Proof.
  split; [reflexivity|].
  exact (proj1 (proj2 (proj2 (proj1
           (color_alpha_becomes_opacity Examples.stroked MoreExamples.gray
              eq_refl))))).
Defined.

Lemma resolve_paint_rule_returns_witness :
  well_formed Examples.stroked
  /\ exists rule, resolve_paint_rule Examples.stroked = Ok rule
                  /\ is_AUTO rule = false.
Proof.
  assert (well_formed Examples.stroked) as H by evaluated_well_formed.
  exact (conj H (resolve_paint_rule_returns Examples.stroked H)).
Defined.


Lemma names_and_dictionaries_witness :
  reachable Examples.one_style
  /\ (exists sdict, get_style_dict_by_name Examples.one_style "GS1" = Ok sdict)
  /\ get_style_dict_by_name Examples.one_style "GS2" = Raise KeyError.
Proof.
  assert (reachable Examples.one_style) as H.
  { apply reachable_step, reachable_initial. }
  split; [exact H|].
  destruct (names_and_dictionaries Examples.one_style H) as (_ & Hsome & Hnone).
  split.
  - apply Hsome. exists 1%nat. split; [vm_compute; lia | reflexivity].
  - apply Hnone. intros i Hi. assert (i = 1%nat) as -> by (vm_compute in Hi; lia).
    discriminate.
Defined.

Lemma name_round_trip_witness :
  reachable (initial_registry (Number := float))
  /\ _get_or_set_style_dict Examples.dashed initial_registry
     = (Examples.one_style, Ok (Some "GS1"))
  /\ later Examples.one_style Examples.one_style
  /\ get_style_dict_by_name Examples.one_style "GS1"
     = to_pdf_dict Examples.dashed.
Proof.
  assert (_get_or_set_style_dict Examples.dashed initial_registry
          = (Examples.one_style, Ok (Some "GS1"))) as H
    by (vm_compute; reflexivity).
  split; [apply reachable_initial|]. split; [exact H|].
  split; [apply later_now|].
  exact (name_round_trip Examples.dashed initial_registry Examples.one_style
           Examples.one_style "GS1" reachable_initial H
           (later_now Examples.one_style)).
Defined.

Lemma hex_string_parses_witness :
  Binary64.hex_value "f" = Some 15%Z /\ Binary64.hex_value "0" = Some 0%Z
  /\ Binary64.hex_value "8" = Some 8%Z
  /\ color_from_hex_string "#ff0080" = Ok (DeviceRGB 1 0 (128 / 255) None).
Proof.
  split; [reflexivity|]. split; [reflexivity|]. split; [reflexivity|].
  exact (proj1 (hex_string_parses (fun x => x) (fun x => x) (fun x => x)
                  (fun x => x) (fun x _ => x) (fun x => x)
                  "f" "f" "0" "0" "8" "0" 15%Z 15%Z 0%Z 0%Z 8%Z 0%Z
                  eq_refl eq_refl eq_refl eq_refl eq_refl eq_refl)).
Defined.

Lemma rendering_returns_end_point_witness :
  has_end_point (Move (mkPoint 0 0) : PathElement float) = true
  /\ match snd (render_item 2 (IPath Examples.open_path)
                  (mkRenderState initial_registry []) root_style
                  (Move (mkPoint 0 0))) with
     | Ok (_, last') => has_end_point last' = true
     | Raise _ => True
     end.
Proof.
  split; [reflexivity|].
  exact (rendering_returns_end_point 2 (IPath Examples.open_path)
           (mkRenderState initial_registry []) root_style (Move (mkPoint 0 0))
           eq_refl).
Defined.

Lemma rendered_names_resolve_witness :
  reachable (initial_registry (Number := float))
  /\ match snd (DrawingContext_render 2 Examples.drawing (mkPoint 0 0) 1 10
                  initial_registry) with
     | Ok (text, names) => NoDup names
     | Raise _ => True
     end.
Proof.
  split; [apply reachable_initial|].
  pose proof (rendered_names_resolve 2 Examples.drawing (mkPoint 0 0) 1 10
                initial_registry reachable_initial) as H.
  destruct (DrawingContext_render 2 Examples.drawing (mkPoint 0 0) 1 10
              initial_registry) as [[dc1 G1] r].
  destruct H as [_ H]. cbn [snd].
  destruct r as [[text names]|]; [exact (proj1 H) | exact I].
Defined.


Lemma clipping_path_is_not_painted_witness :
  well_formed (root_style (Number := float))
  /\ well_formed (style (_root_graphics_context MoreExamples.clip))
  /\ paint_rule (style (_root_graphics_context MoreExamples.clip))
     = member PathPaintRule.DONT_PAINT
  /\ match snd (ClippingPath_render (render_item 1) MoreExamples.clip
                  (mkRenderState initial_registry []) root_style
                  (Move (mkPoint 0 0))) with
     | Ok (text, _) =>
         exists render_list clip,
           (clip = "W" \/ clip = "W*")
           /\ text = join " " (render_list ++ [clip; "n"])%list
     | Raise _ => True
     end.
Proof.
  assert (well_formed (root_style (Number := float))) as Hs
    by evaluated_well_formed.
  assert (well_formed (style (_root_graphics_context MoreExamples.clip))) as Hp
    by evaluated_well_formed.
  split; [exact Hs|]. split; [exact Hp|]. split; [reflexivity|].
  pose proof (clipping_path_is_not_painted (render_item 1) MoreExamples.clip
                (mkRenderState initial_registry []) root_style
                (Move (mkPoint 0 0)) Hs Hp eq_refl) as H.
  destruct (build_render_list (render_item 1)
              (_root_graphics_context MoreExamples.clip)
              (mkRenderState initial_registry []) root_style
              (Move (mkPoint 0 0)) false)
    as [[root st'] [[render_list last']|e]].
  - destruct H as (clip & Hclip & E). rewrite E. cbn [snd].
    exists render_list, clip. split; [exact Hclip | reflexivity].
  - rewrite H. exact I.
Defined.

Lemma empty_group_leaves_no_trace_witness :
  path_items MoreExamples.empty_group = []
  /\ render_item 1 (IContext MoreExamples.empty_group)
       (mkRenderState initial_registry []) root_style (Move (mkPoint 0 0))
     = (IContext MoreExamples.empty_group, mkRenderState initial_registry [],
        Ok (EmptyString, Move (mkPoint 0 0))).
Proof.
  split; [reflexivity|].
  exact (proj1 (empty_group_leaves_no_trace 0 MoreExamples.empty_group
                  (mkRenderState initial_registry []) root_style
                  (Move (mkPoint 0 0)) [] [] eq_refl)).
Defined.

End MoreEvaluated.
